(** * typed-function: the dispatch compiler of [typed-function2.js]

    A shallow embedding of [create()]: the type, conversion and ignore
    registries, the signature parser, the ignored-type filter, the
    signature order, the conversion expansion, the compiled tests, the
    assembled callable with its fast path and generic loop, the error
    builder and [find]; then the laws of the specification, each proved of
    the embedding or refuted on it.

    Conventions of the model.
    - A JavaScript string is a [string] of code units below 256; on these,
      [trim] and [toLowerCase] do what [String.prototype.trim] and
      [String.prototype.toLowerCase] do.
    - A user function is an opaque inhabitant of [Fn]; a call of the typed
      function that reaches one is the outcome [Invoked f args log], the
      call [f(...args)] made after the [convert] calls of [log].  As an
      object it has the properties of every function, of which [length],
      [name], [arguments] and [caller] cannot be assigned through it.
    - Type tests and [convert] functions are total and pure.
    - A compile-time exception is the [Err] of [Res]; a call-time exception
      is an [Outcome].
    - The three registries are shared arrays: a function that reads one
      takes the registry as it is at the time of the read, so a typed
      function is compiled against one registry and called against
      another.
    - An object used as a dictionary is a plain object: it lists its own
      keys as JavaScript does, array indices first, then the other keys as
      created; a read of a key it does not own goes to [Object.prototype],
      whose property names are [Keys.prototype_names]; an assignment to
      [__proto__] creates no own key.
    - [Array.prototype.sort] is stable. *)

From Stdlib Require Import ZArith Ascii DecimalString.
From stdpp Require Import gmap strings list.

Local Open Scope Z_scope.

(** ** Strings *)

Module Str.

(** The code units below 256 stripped by [trim]: TAB, LF, VT, FF, CR, SP
    and NBSP. *)
Definition is_ws (a : ascii) : bool :=
  let n := nat_of_ascii a in
  ((9 <=? n)%nat && (n <=? 13)%nat) || (n =? 32)%nat || (n =? 160)%nat.

Definition is_empty (s : string) : bool :=
  match s with EmptyString => true | String _ _ => false end.

Fixpoint ltrim (s : string) : string :=
  match s with
  | EmptyString => EmptyString
  | String a s' => if is_ws a then ltrim s' else s
  end.

Fixpoint rtrim (s : string) : string :=
  match s with
  | EmptyString => EmptyString
  | String a s' =>
      let r := rtrim s' in
      if is_ws a && is_empty r then EmptyString else String a r
  end.

(** [str.trim()] *)
Definition trim (s : string) : string := rtrim (ltrim s).

(** [str.split(c)] for a one-character separator: never the empty list. *)
Fixpoint split (c : ascii) (s : string) : list string :=
  match s with
  | EmptyString => [EmptyString]
  | String a s' =>
      if Ascii.eqb a c then EmptyString :: split c s'
      else match split c s' with
           | [] => [String a EmptyString]
           | p :: ps => String a p :: ps
           end
  end.

(** [arr.join(sep)] *)
Fixpoint join (sep : string) (l : list string) : string :=
  match l with
  | [] => EmptyString
  | [p] => p
  | p :: l' => p +:+ sep +:+ join sep l'
  end.

(** [str.slice(n)] for [0 <= n] *)
Fixpoint drop (n : nat) (s : string) : string :=
  match n, s with
  | O, _ => s
  | S _, EmptyString => EmptyString
  | S n', String _ s' => drop n' s'
  end.

(** [str.indexOf(p) === 0] *)
Definition starts_with (p s : string) : bool := String.prefix p s.

(** The lower case of a code unit below 256: [A] to [Z], and the letters
    from U+00C0 to U+00DE but for the sign U+00D7. *)
Definition lower_ascii (a : ascii) : ascii :=
  let n := nat_of_ascii a in
  if ((65 <=? n)%nat && (n <=? 90)%nat)
     || ((192 <=? n)%nat && (n <=? 222)%nat && negb (n =? 215)%nat)
  then ascii_of_nat (n + 32) else a.

(** [str.toLowerCase()] *)
Fixpoint toLowerCase (s : string) : string :=
  match s with
  | EmptyString => EmptyString
  | String a s' => String (lower_ascii a) (toLowerCase s')
  end.

(** Decimal rendering of a non-negative integer, as [String(n)] does. *)
Definition of_nat (n : nat) : string := NilEmpty.string_of_uint (Nat.to_uint n).

Fixpoint has_char (c : ascii) (s : string) : bool :=
  match s with
  | EmptyString => false
  | String a s' => Ascii.eqb a c || has_char c s'
  end.

End Str.

(** ** Own property order of a JavaScript object

    [Object.keys] and [for .. in] list the keys that are canonical array
    indices first, by increasing value, and then the other keys in the order
    in which they were created. *)

Module Keys.

Definition digit (a : ascii) : option N :=
  let n := N_of_ascii a in
  if ((48 <=? n) && (n <=? 57))%N then Some (n - 48)%N else None.

Fixpoint digits (acc : N) (s : string) : option N :=
  match s with
  | EmptyString => Some acc
  | String a s' =>
      match digit a with
      | Some d => digits (acc * 10 + d)%N s'
      | None => None
      end
  end.

(** The value of a key that is a canonical array index, [None] otherwise. *)
Definition index (s : string) : option N :=
  match s with
  | EmptyString => None
  | String a s' =>
      if Ascii.eqb a "0" && negb (Str.is_empty s') then None
      else match digits 0%N s with
           | Some n => if (n <? 4294967295)%N then Some n else None
           | None => None
           end
  end.

Fixpoint insert_index {A} (n : N) (e : string * A) (l : list (N * (string * A)))
  : list (N * (string * A)) :=
  match l with
  | [] => [(n, e)]
  | (m, e') :: l' =>
      if (n <? m)%N then (n, e) :: l else (m, e') :: insert_index n e l'
  end.

Fixpoint indexed {A} (l : list (string * A)) : list (N * (string * A)) :=
  match l with
  | [] => []
  | e :: l' =>
      match index (fst e) with
      | Some n => insert_index n e (indexed l')
      | None => indexed l'
      end
  end.

Definition named {A} (l : list (string * A)) : list (string * A) :=
  List.filter (fun e => match index (fst e) with Some _ => false | None => true end) l.

(** Entries created in the order of [l] (keys distinct), in enumeration
    order. *)
Definition enumerate {A} (l : list (string * A)) : list (string * A) :=
  map snd (indexed l) ++ named l.

(** [obj[k] = v] on an object given by its creation-ordered entries: a new
    key is appended, an existing key keeps its place. *)
Fixpoint set {A} (k : string) (v : A) (l : list (string * A)) : list (string * A) :=
  match l with
  | [] => [(k, v)]
  | (k', v') :: l' =>
      if String.eqb k k' then (k, v) :: l' else (k', v') :: set k v l'
  end.

Fixpoint get {A} (k : string) (l : list (string * A)) : option A :=
  match l with
  | [] => None
  | (k', v) :: l' => if String.eqb k k' then Some v else get k l'
  end.

(** The property names of [Object.prototype]: what a plain object holds
    under a key that is not its own. *)
Definition prototype_names : list string :=
  [ "constructor"; "__defineGetter__"; "__defineSetter__"; "hasOwnProperty";
    "__lookupGetter__"; "__lookupSetter__"; "isPrototypeOf";
    "propertyIsEnumerable"; "toString"; "valueOf"; "__proto__";
    "toLocaleString" ].

Definition inherited (k : string) : bool := existsb (String.eqb k) prototype_names.

(** [obj[k] = v] on a plain object for a value [v] that is no object: the
    setter of [__proto__] ignores such a value and no own key is made. *)
Definition assign {A} (k : string) (v : A) (l : list (string * A))
  : list (string * A) :=
  if String.eqb k "__proto__" then l else set k v l.

(** [obj[k]] is truthy, on a plain object whose own values are objects:
    an own key, or a property of [Object.prototype]. *)
Definition truthy {A} (k : string) (l : list (string * A)) : bool :=
  bool_decide (is_Some (get k l)) || inherited k.

End Keys.

(** ** Values and registries *)

#[warnings="-register-all"]
Inductive Value : Type :=
| VNumber (n : Z)
| VString (s : string)
| VBoolean (b : bool)
| VFunction (id : nat)
| VArray (items : list Value)
| VDate (time : Z)
| VRegExp (source : string)
| VObject (id : nat)
| VNull
| VUndefined
| VSymbol (description : string)
| VBigInt (n : Z).

(** [{ name, test }] *)
Record TypeDef : Type := { name : string; test : Value -> bool }.

(** [{ from, to, convert }] *)
Record Conversion : Type :=
  { from : string; to : string; convert : Value -> Value }.

Definition ok (x : Value) : bool := true.
Definition notOk (x : Value) : bool := false.

Definition isNumber (x : Value) : bool :=
  match x with VNumber _ => true | _ => false end.

Definition isString (x : Value) : bool :=
  match x with VString _ => true | _ => false end.

Definition typeof_object (x : Value) : bool :=
  match x with
  | VArray _ | VDate _ | VRegExp _ | VObject _ | VNull => true
  | _ => false
  end.

(** [_types] of [create()] *)
Definition _types : list TypeDef :=
  [ {| name := "number";    test := isNumber |};
    {| name := "string";    test := isString |};
    {| name := "boolean";   test := fun x => match x with VBoolean _ => true | _ => false end |};
    {| name := "Function";  test := fun x => match x with VFunction _ => true | _ => false end |};
    {| name := "Array";     test := fun x => match x with VArray _ => true | _ => false end |};
    {| name := "Date";      test := fun x => match x with VDate _ => true | _ => false end |};
    {| name := "RegExp";    test := fun x => match x with VRegExp _ => true | _ => false end |};
    {| name := "Object";    test := typeof_object |};
    {| name := "null";      test := fun x => match x with VNull => true | _ => false end |};
    {| name := "undefined"; test := fun x => match x with VUndefined => true | _ => false end |};
    {| name := "any";       test := ok |} ].

(** The three shared arrays [typed.types], [typed.conversions] and
    [typed.ignore]: every function below that reads one of them takes the
    array as it is at the moment of the read. *)
Record Typed : Type :=
  { types : list TypeDef; conversions : list Conversion; ignore : list string }.

(** [create()]: the registries of a fresh instance. *)
Definition create : Typed :=
  {| types := _types; conversions := []; ignore := [] |}.

(** [typed.addType(type)], for a well-formed [type]. *)
Definition addType (type : TypeDef) (typed : Typed) : Typed :=
  {| types := types typed ++ [type];
     conversions := conversions typed;
     ignore := ignore typed |}.

(** [typed.addConversion(conversion)], for a well-formed [conversion]. *)
Definition addConversion (conversion : Conversion) (typed : Typed) : Typed :=
  {| types := types typed;
     conversions := conversions typed ++ [conversion];
     ignore := ignore typed |}.

(** The registries a program reaches from [create()] through [addType] and
    [addConversion]. *)
Inductive reachable : Typed -> Prop :=
| reach_create : reachable create
| reach_addType type typed :
    reachable typed -> reachable (addType type typed)
| reach_addConversion conversion typed :
    reachable typed -> reachable (addConversion conversion typed).

(** ** Compile-time exceptions *)

(** The three exceptions that the compiler throws, and the TypeError of
    the host for an assignment, in strict code, to a read-only property. *)
Inductive CompileError : Type :=
| NoSignatures
| UnexpectedRest (param : string)
| UnknownType (type : string) (hint : option string)
| ReadOnlyProperty (key : string).

Inductive Res (A : Type) : Type :=
| OK (a : A)
| Err (e : CompileError).
Arguments OK {A} a.
Arguments Err {A} e.

Definition bind {A B} (m : Res A) (k : A -> Res B) : Res B :=
  match m with OK a => k a | Err e => Err e end.

Notation "'let*' x ':=' m 'in' k" := (bind m (fun x => k))
  (at level 10, x name, m at level 100, k at level 200).

Fixpoint mapM {A B} (f : A -> Res B) (l : list A) : Res (list B) :=
  match l with
  | [] => OK []
  | a :: l' => let* b := f a in let* bs := mapM f l' in OK (b :: bs)
  end.

(** ** Signatures: parsing, filtering, printing *)

Definition Param : Type := list string.

Record Signature : Type := { params : list Param; restParam : bool }.

(** [arr.indexOf(x) !== -1] *)
Definition includes (x : string) (arr : list string) : bool :=
  existsb (String.eqb x) arr.

Definition notEmpty (str : string) : bool := negb (Str.is_empty str).

Definition parseParam (param : string) : Param :=
  List.filter notEmpty (map Str.trim (Str.split "|" param)).

(** The body of the [forEach] of [parseParams], from position [index] on;
    [len] is [arr.length].  The result carries the params pushed and the
    final value of [restParam]. *)
Fixpoint parseParamsFrom (len index : nat) (arr : list string)
  : Res (list Param * bool) :=
  match arr with
  | [] => OK ([], false)
  | param :: arr' =>
      let rest := Str.starts_with "..." param in
      if rest && negb (index =? len - 1)%nat then Err (UnexpectedRest param)
      else
        let parsed :=
          parseParam (if rest
                      then (if (3 <? String.length param)%nat
                            then Str.drop 3 param else "any")
                      else param) in
        let* pushed := parseParamsFrom len (S index) arr' in
        OK (parsed :: fst pushed, rest || snd pushed)
  end.

Definition parseParams (signature : string) : Res Signature :=
  if Str.is_empty (Str.trim signature)
  then OK {| params := []; restParam := false |}
  else
    let arr := Str.split "," signature in
    let* pushed := parseParamsFrom (length arr) 0 (map Str.trim arr) in
    OK {| params := fst pushed; restParam := snd pushed |}.

Definition stringifyParams (signature : Signature) : string :=
  Str.join ","
    (imap (fun index param =>
             (if restParam signature && (index =? length (params signature) - 1)%nat
              then "..." else EmptyString) +:+ Str.join "|" param)
          (params signature)).

Definition notIgnore (typed : Typed) (type : string) : bool :=
  negb (includes type (ignore typed)).

Fixpoint filterParams (typed : Typed) (ps : list Param) : option (list Param) :=
  match ps with
  | [] => Some []
  | p :: ps' =>
      let param := List.filter (notIgnore typed) p in
      match param with
      | [] => None
      | _ :: _ => cons param <$> filterParams typed ps'
      end
  end.

(** [None] is the [null] of the source. *)
Definition filterIgnoredTypes (typed : Typed) (signature : Signature)
  : option Signature :=
  (fun filteredParams =>
     {| params := filteredParams; restParam := restParam signature |})
    <$> filterParams typed (params signature).

(** ** Type tests *)

Definition findTest (typed : Typed) (type : string) : Res (Value -> bool) :=
  match List.find (fun entry => String.eqb (name entry) type) (types typed) with
  | Some entry => OK (test entry)
  | None =>
      let hint :=
        List.find (fun entry =>
                     String.eqb (Str.toLowerCase (name entry)) (Str.toLowerCase type))
                  (types typed) in
      Err (UnknownType type (name <$> hint))
  end.

(** [findType]'s search, as [createError] inlines it. *)
Definition findEntry (typed : Typed) (value : Value) : option TypeDef :=
  List.find (fun entry => test entry value) (types typed).

(** [param] is [None] when the source passes [undefined]. *)
Definition compileParam (typed : Typed) (param : option Param)
  : Res (Value -> bool) :=
  match param with
  | None | Some [] => OK ok
  | Some [type0] => findTest typed type0
  | Some [type0; type1] =>
      let* test0 := findTest typed type0 in
      let* test1 := findTest typed type1 in
      OK (fun x => test0 x || test1 x)
  | Some types =>
      let* tests := mapM (findTest typed) types in
      OK (fun x => existsb (fun t => t x) tests)
  end.

(** [args[i]] *)
Definition arg (args : list Value) (i : nat) : Value := nth i args VUndefined.

(** [for (i = 0; i < tests.length; i++) if (!tests[i](args[i])) return false] *)
Fixpoint testsFrom (tests : list (Value -> bool)) (args : list Value) (i : nat)
  : bool :=
  match tests with
  | [] => true
  | t :: tests' => t (arg args i) && testsFrom tests' args (S i)
  end.

(** [arr.slice(0, arr.length - 1)] *)
Definition initial {A} (arr : list A) : list A := take (length arr - 1) arr.

Definition compileParams (typed : Typed) (signature : Signature)
  : Res (list Value -> bool) :=
  if restParam signature then
    let* tests := mapM (fun p => compileParam typed (Some p))
                       (initial (params signature)) in
    let varIndex := length tests in
    let* lastTest := compileParam typed (last (params signature)) in
    let testRestParam := fun args => forallb lastTest (drop varIndex args) in
    OK (fun args =>
          testsFrom tests args 0
          && (testRestParam args && (varIndex + 1 <=? length args)%nat))
  else
    match params signature with
    | [] => OK (fun args => (length args =? 0)%nat)
    | [p0] =>
        let* test0 := compileParam typed (Some p0) in
        OK (fun args => test0 (arg args 0) && (length args =? 1)%nat)
    | [p0; p1] =>
        let* test0 := compileParam typed (Some p0) in
        let* test1 := compileParam typed (Some p1) in
        OK (fun args =>
              test0 (arg args 0) && (test1 (arg args 1) && (length args =? 2)%nat))
    | ps =>
        let* tests := mapM (fun p => compileParam typed (Some p)) ps in
        OK (fun args => testsFrom tests args 0 && (length args =? length tests)%nat)
    end.

(** ** Defs, implementations and outcomes *)

(** [Math.min] on numbers that may be [undefined] or [NaN] ([None]). *)
Definition jsMin (a b : option Z) : option Z :=
  match a, b with Some x, Some y => Some (Z.min x y) | _, _ => None end.

(** [a - b] on numbers that may be [undefined] or [NaN] ([None]). *)
Definition jsSub (a b : option Z) : option Z :=
  match a, b with Some x, Some y => Some (x - y) | _, _ => None end.

(** [Array.prototype.slice.call(arr, start, end)]; [stop = None] when the
    third argument is left out. *)
Definition slice {A} (arr : list A) (start : Z) (stop : option Z) : list A :=
  let len := Z.of_nat (length arr) in
  let rel := fun k => if k <? 0 then Z.max (len + k) 0 else Z.min k len in
  let first := rel start in
  let final := match stop with Some e => rel e | None => len end in
  take (Z.to_nat (final - first)) (drop (Z.to_nat first) arr).

(** A number that may be infinite: the arities [createError] compares. *)
Inductive Ext : Type := NegInfinity | Finite (n : nat) | Infinity.

Definition extMin (a b : Ext) : Ext :=
  match a, b with
  | NegInfinity, _ | _, NegInfinity => NegInfinity
  | Infinity, x | x, Infinity => x
  | Finite x, Finite y => Finite (Nat.min x y)
  end.

Definition extMax (a b : Ext) : Ext :=
  match a, b with
  | Infinity, _ | _, Infinity => Infinity
  | NegInfinity, x | x, NegInfinity => x
  | Finite x, Finite y => Finite (Nat.max x y)
  end.

(** [n < e] and [n > e] for a length [n] *)
Definition ltExt (n : nat) (e : Ext) : bool :=
  match e with NegInfinity => false | Finite m => (n <? m)%nat | Infinity => true end.
Definition gtExt (n : nat) (e : Ext) : bool :=
  match e with NegInfinity => true | Finite m => (m <? n)%nat | Infinity => false end.

Definition stringOfExt (e : Ext) : string :=
  match e with
  | NegInfinity => "-Infinity"
  | Finite n => Str.of_nat n
  | Infinity => "Infinity"
  end.

(** [err.data] *)
Inductive ErrorData : Type :=
| wrongType (fn : string) (index : nat) (actual : string) (expected : list string)
| tooFewArgs (fn : string) (index : nat) (expected : list string)
| tooManyArgs (fn : string) (index : nat) (expectedLength : Ext)
| mismatch (actual : list string).

(** The [TypeError] built by [createError]. *)
Record TypeError : Type := { message : string; data : ErrorData }.

Definition category (e : TypeError) : string :=
  match data e with
  | wrongType _ _ _ _ => "wrongType"
  | tooFewArgs _ _ _ => "tooFewArgs"
  | tooManyArgs _ _ _ => "tooManyArgs"
  | mismatch _ => "mismatch"
  end.

(** One call of a conversion's [convert], with the argument it received. *)
Definition ConvertCall : Type := Conversion * Value.

(** The conversions of one parameter after [compileArgConversion]: the test
    of each conversion's [from] type next to the conversion. *)
Definition CompiledConversion : Type := list ((Value -> bool) * Conversion).

Section Engine.

Context {Fn : Type}.

(** What a def's [fn] is: the user's function, the [convertArgs] wrapper
    that [compileArgsConversion] builds around one, or [undef]. *)
Inductive Impl : Type :=
| Original (f : Fn)
| Converting (inner : Impl) (compiledConversions : list CompiledConversion)
             (rest : bool)
| Undef.

(** What one call of the typed function does: it calls a user function
    on [args] after the [convert] calls of [log] (in that order) and
    hands its result back, it returns a value of its own, it throws the
    error of [createError], or the host throws (calling [undefined], or
    [.map] of something that is no array). *)
Inductive Outcome : Type :=
| Invoked (f : Fn) (args : list Value) (log : list ConvertCall)
| Returned (v : Value)
| Thrown (err : TypeError)
| HostError.

Record Def : Type :=
  { signature : Signature;
    def_restParam : bool;
    conversion : bool;
    preprocess : option (list Value -> list Value);
    def_test : list Value -> bool;
    fn : Impl }.

(** *** The error builder *)

Definition getExpectedParam (signature : Signature) (index : nat)
  : option Param :=
  if (index <? length (params signature))%nat
  then params signature !! index
  else if restParam signature
       then last (params signature)
       else Some [].

Definition isCorrectType (expectedParam : option Param) (actualType : string)
  : bool :=
  match expectedParam with
  | Some p => includes actualType p || includes "any" p
  | None => false
  end.

(** [uniq]: the keys of an object on which every element was set to
    [true]. *)
Definition uniq (arr : list string) : list string :=
  map fst (Keys.enumerate (foldl (fun entries k => Keys.assign k true entries) [] arr)).

(** [flatMap]: [concat] takes an [undefined] expected param as one element,
    which [uniq] then turns into the key ["undefined"]. *)
Definition expectedParams (defs : list Def) (index : nat) : list string :=
  concat (map (fun def =>
                 match getExpectedParam (signature def) index with
                 | Some p => p
                 | None => ["undefined"]
                 end) defs).

Definition mergeExpectedParams (defs : list Def) (index : nat) : list string :=
  let params := uniq (expectedParams defs index) in
  if includes "any" params then ["any"] else params.

Definition actualTypesOf (typed : Typed) (args : list Value) : list string :=
  map (fun arg =>
         match findEntry typed arg with
         | Some entry => name entry
         | None => "unknown"
         end) args.

Definition nextMatchingDefs (matchingDefs : list Def) (index : nat)
           (actualType : string) : list Def :=
  List.filter (fun def =>
                 isCorrectType (getExpectedParam (signature def) index) actualType)
              matchingDefs.

Definition wrongTypeError (_name : string) (index : nat) (actualType : string)
           (expected : list string) : TypeError :=
  {| message := "Unexpected type of argument in function " +:+ _name +:+
                " (expected: " +:+ Str.join " or " expected +:+
                ", actual: " +:+ actualType +:+
                ", index: " +:+ Str.of_nat index +:+ ")";
     data := wrongType _name index actualType expected |}.

(** The loop "test for wrong type" from [index] on, [actualTypes] being
    the types not yet visited: the error it returns, or the
    [matchingDefs] it leaves. *)
Fixpoint narrow (_name : string) (actualTypes : list string) (index : nat)
         (matchingDefs : list Def) : TypeError + list Def :=
  match actualTypes with
  | [] => inr matchingDefs
  | actualType :: actualTypes' =>
      match nextMatchingDefs matchingDefs index actualType with
      | [] =>
          let expected := mergeExpectedParams matchingDefs index in
          if (0 <? length expected)%nat
          then inl (wrongTypeError _name index actualType expected)
          else narrow _name actualTypes' (S index) matchingDefs
      | next => narrow _name actualTypes' (S index) next
      end
  end.

Definition lengthsOf (matchingDefs : list Def) : list Ext :=
  map (fun def =>
         if restParam (signature def) then Infinity
         else Finite (length (params (signature def)))) matchingDefs.

Definition quote : string := String (ascii_of_nat 34) EmptyString.

Definition createError (typed : Typed) (name : string) (args : list Value)
           (defs : list Def) : TypeError :=
  let _name := if Str.is_empty name then "unnamed" else name in
  let actualTypes := actualTypesOf typed args in
  match narrow _name actualTypes 0 defs with
  | inl err => err
  | inr matchingDefs =>
      let index := length actualTypes in
      let lengths := lengthsOf matchingDefs in
      if ltExt (length actualTypes) (foldr extMin Infinity lengths) then
        let expected := mergeExpectedParams matchingDefs index in
        {| message := "Too few arguments in function " +:+ _name +:+
                      " (expected: " +:+ Str.join " or " expected +:+
                      ", index: " +:+ Str.of_nat (length actualTypes) +:+ ")";
           data := tooFewArgs _name (length actualTypes) expected |}
      else
        let maxLength := foldr extMax NegInfinity lengths in
        if gtExt (length actualTypes) maxLength then
          {| message := "Too many arguments in function " +:+ _name +:+
                        " (expected: " +:+ stringOfExt maxLength +:+
                        ", actual: " +:+ Str.of_nat (length actualTypes) +:+ ")";
             data := tooManyArgs _name (length actualTypes) maxLength |}
        else
          {| message := "Arguments of type " +:+ quote +:+
                        Str.join ", " actualTypes +:+ quote +:+
                        " do not match any of the defined signatures of function "
                        +:+ _name +:+ ".";
             data := mismatch actualTypes |}
  end.

(** *** The order of signatures *)

(** [typesIndexMap], a plain object filled with numbers: the map holds the
    keys under which the object has a number, and a lookup is [None] where
    a read of the object gives anything else ([undefined], or a property of
    [Object.prototype]).  The assignment of a number to [__proto__] stores
    nothing. *)
Definition createTypesIndexMap (types : list TypeDef) : gmap string Z :=
  let typesIndexMap :=
    foldl (fun m it =>
             if String.eqb (name (snd it)) "__proto__" then m
             else <[name (snd it) := Z.of_nat (fst it)]> m) ∅
          (imap pair types) in
  <["any" := Z.of_nat (length types) + 1]>
    (<["Object" := Z.of_nat (length types)]> typesIndexMap).

Definition getLowestTypeIndex (param : Param) (typesIndexMap : gmap string Z)
  : option Z :=
  match param with
  | [] => typesIndexMap !! "undefined"
  | type0 :: param' =>
      foldl (fun min type => jsMin min (typesIndexMap !! type))
            (typesIndexMap !! type0) param'
  end.

Definition compareParams (param1 param2 : Param) (typesIndexMap : gmap string Z)
  : option Z :=
  jsSub (getLowestTypeIndex param1 typesIndexMap)
        (getLowestTypeIndex param2 typesIndexMap).

(** "compare the params one by one", then [otherwise]. *)
Fixpoint compareParamsFrom (params1 params2 : list Param)
         (typesIndexMap : gmap string Z) (otherwise : option Z) : option Z :=
  match params1, params2 with
  | param1 :: params1', param2 :: params2' =>
      match compareParams param1 param2 typesIndexMap with
      | Some 0 => compareParamsFrom params1' params2' typesIndexMap otherwise
      | c => c
      end
  | _, _ => otherwise
  end.

Definition compareSignatures (signature1 signature2 : Signature)
           (typesIndexMap : gmap string Z) : option Z :=
  let rest := Z.b2z (restParam signature1) - Z.b2z (restParam signature2) in
  if negb (rest =? 0) then Some rest
  else compareParamsFrom (params signature1) (params signature2) typesIndexMap
         (Some (Z.of_nat (length (params signature1))
                - Z.of_nat (length (params signature2)))).

(** [defs.sort(compare)] is stable; a result that is [NaN] counts as [0].
    [insertDef] puts a def in front of a sorted run of defs that came
    after it, behind every def the comparison puts strictly before it. *)
Fixpoint insertDef (typesIndexMap : gmap string Z) (a : Def) (sorted : list Def)
  : list Def :=
  match sorted with
  | [] => [a]
  | b :: sorted' =>
      match compareSignatures (signature a) (signature b) typesIndexMap with
      | Some c => if 0 <? c then b :: insertDef typesIndexMap a sorted'
                  else a :: sorted
      | None => a :: sorted
      end
  end.

Definition sortDefs (typesIndexMap : gmap string Z) (defs : list Def) : list Def :=
  foldr (insertDef typesIndexMap) [] defs.

(** *** Rest parameters and conversions *)

Definition createRestParamPreProcess (signature : Signature)
  : list Value -> list Value :=
  let offset := Z.of_nat (length (params signature)) - 1 in
  fun args => slice args 0 (Some offset) ++ [VArray (slice args offset None)].

(** The conversions [getConversions] keeps for one param. *)
Definition paramConversions (typed : Typed) (param : Param) : list Conversion :=
  let conversions :=
    foldl (fun conversions conversion =>
             if negb (includes (from conversion) param)
                && includes (to conversion) param
                && negb (Keys.truthy (from conversion) conversions)
             then Keys.set (from conversion) conversion conversions
             else conversions)
          [] (conversions typed) in
  map snd (Keys.enumerate conversions).

(** [None] is the [null] of the source. *)
Definition getConversions (typed : Typed) (params : list Param)
  : option (list (list Conversion)) :=
  let paramConversions := map (paramConversions typed) params in
  let hasConvertableParams :=
    existsb (fun param => (0 <? length param)%nat) paramConversions in
  if hasConvertableParams then Some paramConversions else None.

Definition addConvertableParams (signature : Signature)
           (conversions : list (list Conversion)) : Signature :=
  {| params := zip_with (fun param cs => param ++ map from cs)
                        (params signature) conversions;
     restParam := restParam signature |}.

Definition compileArgConversion (typed : Typed) (conversions : list Conversion)
  : Res CompiledConversion :=
  mapM (fun conversion =>
          let* t := findTest typed (from conversion) in OK (t, conversion))
       conversions.

(** [convertArg]: the value handed on and the [convert] call made, if any. *)
Fixpoint convertArg (compiled : CompiledConversion) (arg : Value)
  : Value * list ConvertCall :=
  match compiled with
  | [] => (arg, [])
  | (t, conversion) :: compiled' =>
      if t arg then (convert conversion arg, [(conversion, arg)])
      else convertArg compiled' arg
  end.

Definition compileArgsConversion (typed : Typed) (fn : Impl)
           (conversions : list (list Conversion)) (restParam : bool) : Res Impl :=
  let* compiledConversions := mapM (compileArgConversion typed) conversions in
  OK (Converting fn compiledConversions restParam).

(** [args[i] = compiledConversions[i](arguments[i])] for the arguments
    [vs], the first of which has index [i]; [None] when
    [compiledConversions[i]] is [undefined]. *)
Fixpoint convertFrom (compiledConversions : list CompiledConversion) (i : nat)
         (vs : list Value) : option (list Value * list ConvertCall) :=
  match vs with
  | [] => Some ([], [])
  | v :: vs' =>
      match compiledConversions !! i with
      | None => None
      | Some compiled =>
          let r := convertArg compiled v in
          match convertFrom compiledConversions (S i) vs' with
          | None => None
          | Some rs => Some (fst r :: fst rs, snd r ++ snd rs)
          end
      end
  end.

(** [arr.map(compiled)] *)
Fixpoint convertAll (compiled : CompiledConversion) (vs : list Value)
  : list Value * list ConvertCall :=
  match vs with
  | [] => ([], [])
  | v :: vs' =>
      let r := convertArg compiled v in
      let rs := convertAll compiled vs' in
      (fst r :: fst rs, snd r ++ snd rs)
  end.

(** [convertArgs]: the converted argument list and the calls made. *)
Definition convertArgs (compiledConversions : list CompiledConversion)
           (restParam : bool) (arguments : list Value)
  : option (list Value * list ConvertCall) :=
  let last := if restParam then Z.of_nat (length arguments) - 1
              else Z.of_nat (length arguments) in
  match convertFrom compiledConversions 0 (take (Z.to_nat last) arguments) with
  | None => None
  | Some leading =>
      if restParam then
        if last <? 0 then None
        else
          match arguments !! Z.to_nat last, compiledConversions !! Z.to_nat last with
          | Some (VArray items), Some compiled =>
              let r := convertAll compiled items in
              Some (fst leading ++ [VArray (fst r)], snd leading ++ snd r)
          | _, _ => None
          end
      else Some leading
  end.

(** [fn.apply(null, args)], the convert calls [log] having been made. *)
Fixpoint applyImpl (fn : Impl) (args : list Value) (log : list ConvertCall)
  : Outcome :=
  match fn with
  | Original f => Invoked f args log
  | Converting inner compiledConversions restParam =>
      match convertArgs compiledConversions restParam args with
      | Some r => applyImpl inner (fst r) (log ++ snd r)
      | None => HostError
      end
  | Undef => Returned VUndefined
  end.

(** *** The assembled callable *)

(** One line of the specialised [fn]: [lenK], [testK0], [testK1], [fnK]. *)
Record FastPath : Type :=
  { len : Z; test0 : Value -> bool; test1 : Value -> bool; fast_fn : Impl }.

(** The typed function: what its closure holds, and its [signatures]. *)
Record TypedFunction : Type :=
  { fn_name : string;
    defs : list Def;
    fast : list FastPath;
    iStart : nat;
    signatures : gmap string Impl;
    signatures_proto : option Impl }.

(** "parse the signatures": the def pushed for one property, if any. *)
Definition parseDef (typed : Typed) (entry : string * Fn) : Res (option Def) :=
  let* parsed := parseParams (fst entry) in
  match filterIgnoredTypes typed parsed with
  | Some parsedSignature =>
      let* test := compileParams typed parsedSignature in
      OK (Some {| signature := parsedSignature;
                  def_restParam := restParam parsedSignature;
                  conversion := false;
                  preprocess := if restParam parsedSignature
                                then Some (createRestParamPreProcess parsedSignature)
                                else None;
                  def_test := test;
                  fn := Original (snd entry) |})
  | None => OK None
  end.

Fixpoint parseDefs (typed : Typed) (signatures : list (string * Fn))
  : Res (list Def) :=
  match signatures with
  | [] => OK []
  | entry :: signatures' =>
      let* def := parseDef typed entry in
      let* defs := parseDefs typed signatures' in
      OK (match def with Some d => d :: defs | None => defs end)
  end.

(** "add signatures with conversions": the def pushed for [def], if any. *)
Definition expandDef (typed : Typed) (def : Def) : Res (option Def) :=
  match getConversions typed (params (signature def)) with
  | Some conversions =>
      let signature := addConvertableParams (signature def) conversions in
      let* test := compileParams typed signature in
      let* fn := compileArgsConversion typed (fn def) conversions (def_restParam def) in
      OK (Some {| signature := signature;
                  def_restParam := def_restParam def;
                  conversion := true;
                  preprocess := preprocess def;
                  def_test := test;
                  fn := fn |})
  | None => OK None
  end.

Fixpoint expandDefs (typed : Typed) (defs : list Def) : Res (list Def) :=
  match defs with
  | [] => OK []
  | def :: defs' =>
      let* twin := expandDef typed def in
      let* twins := expandDefs typed defs' in
      OK (match twin with Some d => d :: twins | None => twins end)
  end.

(** [okK] *)
Definition okAt (defs : list Def) (k : nat) : bool :=
  match defs !! k with
  | Some def => (length (params (signature def)) <=? 2)%nat
                && negb (restParam (signature def))
  | None => false
  end.

(** [testKj] *)
Definition fastTest (typed : Typed) (defs : list Def) (j k : nat)
  : Res (Value -> bool) :=
  match defs !! k with
  | Some def => if okAt defs k
                then compileParam typed (params (signature def) !! j)
                else OK notOk
  | None => OK notOk
  end.

Definition fastPath (defs : list Def) (tests0 tests1 : list (Value -> bool))
           (k : nat) : FastPath :=
  match defs !! k, okAt defs k with
  | Some def, true =>
      {| len := Z.of_nat (length (params (signature def)));
         test0 := nth k tests0 notOk;
         test1 := nth k tests1 notOk;
         fast_fn := fn def |}
  | _, _ =>
      {| len := -1;
         test0 := nth k tests0 notOk;
         test1 := nth k tests1 notOk;
         fast_fn := Undef |}
  end.

(** The object [fn.signatures]: its own properties, and its prototype,
    [None] for [Object.prototype] and [Some g] once the function [g] has
    been put in its place. *)
Definition Store : Type := gmap string Impl * option Impl.

(** The properties that an object inherits read-only from a function, or
    under a setter that throws. *)
Definition function_read_only : list string :=
  [ "length"; "name"; "arguments"; "caller" ].

(** [fn.signatures[key] = impl] in strict code.  The key [__proto__] goes
    to the setter of [Object.prototype], which makes the function the
    prototype of [fn.signatures] and no own property.  A key that the
    object owns is overwritten.  Any other key becomes an own property,
    but for one that the object inherits read-only from the function that
    is its prototype: there the assignment throws. *)
Definition assignSignature (store : Store) (key : string) (impl : Impl)
  : Res Store :=
  if String.eqb key "__proto__" then OK (fst store, Some impl)
  else
    match fst store !! key, snd store with
    | None, Some _ =>
        if existsb (String.eqb key) function_read_only
        then Err (ReadOnlyProperty key)
        else OK (<[key := impl]> (fst store), snd store)
    | _, _ => OK (<[key := impl]> (fst store), snd store)
    end.

(** [fn.signatures[stringifyParams(def.signature)] = def.fn] for the defs
    that are no conversion, from the object [store] on. *)
Fixpoint storeSignatures (defs : list Def) (store : Store) : Res Store :=
  match defs with
  | [] => OK store
  | def :: defs' =>
      if conversion def then storeSignatures defs' store
      else
        let* store' := assignSignature store (stringifyParams (signature def))
                                       (fn def) in
        storeSignatures defs' store'
  end.

(** [signatures] lists the own properties of the object passed, in the
    order [for .. in] visits them. *)
Definition createTypedFunction (typed : Typed) (name : string)
           (signatures : list (string * Fn)) : Res TypedFunction :=
  if (length signatures =? 0)%nat then Err NoSignatures
  else
    let* parsed := parseDefs typed signatures in
    let typesIndexMap := createTypesIndexMap (types typed) in
    let sorted := sortDefs typesIndexMap parsed in
    let* twins := expandDefs typed sorted in
    let defs := sorted ++ twins in
    let allOk := forallb (okAt defs) (seq 0 6) in
    let* tests0 := mapM (fastTest typed defs 0) (seq 0 6) in
    let* tests1 := mapM (fastTest typed defs 1) (seq 0 6) in
    let* store := storeSignatures defs (∅, None) in
    OK {| fn_name := name;
          defs := defs;
          fast := map (fastPath defs tests0 tests1) (seq 0 6);
          iStart := if allOk then 6%nat else 0%nat;
          signatures := fst store;
          signatures_proto := snd store |}.

(** [generic], the loop from the def list [defs] (already cut at [iStart]). *)
Fixpoint genericFrom (defs : list Def) (arguments : list Value)
  : option Outcome :=
  match defs with
  | [] => None
  | def :: defs' =>
      if def_test def arguments then
        Some (if def_restParam def
              then match preprocess def with
                   | Some pre => applyImpl (fn def) (pre arguments) []
                   | None => HostError
                   end
              else applyImpl (fn def) arguments [])
      else genericFrom defs' arguments
  end.

(** [typed] is the registry at the time of the call: [createError] reads
    [typed.types] then. *)
Definition generic (typed : Typed) (f : TypedFunction) (arguments : list Value)
  : Outcome :=
  match genericFrom (drop (iStart f) (defs f)) arguments with
  | Some outcome => outcome
  | None => Thrown (createError typed (fn_name f) arguments (defs f))
  end.

Fixpoint fastFrom (fast : list FastPath) (arguments : list Value)
  : option Outcome :=
  match fast with
  | [] => None
  | p :: fast' =>
      if (Z.of_nat (length arguments) =? len p)
         && (test0 p (arg arguments 0) && test1 p (arg arguments 1))
      then Some (applyImpl (fast_fn p) arguments [])
      else fastFrom fast' arguments
  end.

(** A call [fn(...arguments)] of the typed function. *)
Definition call (typed : Typed) (f : TypedFunction) (arguments : list Value)
  : Outcome :=
  match fastFrom (fast f) arguments with
  | Some outcome => outcome
  | None => generic typed f arguments
  end.

(** *** [find] *)

Inductive FindError : Type :=
| NoTypedFunction
| StringArrayExpected
| SignatureNotFound (message : string).

(** The second argument of [find]: a string, an array, or anything else. *)
Inductive SignatureArg : Type :=
| ofString (signature : string)
| ofArray (signature : list string)
| ofOther.

(** What [find] does with the value of the read [fn.signatures[str]]. *)
Inductive FindResult : Type :=
| Throws (e : FindError)
| Found (impl : Impl)
  (** a function that the compiler has assigned to [fn.signatures]:
      returned *)
| Inherited (name : string)
  (** the property [name] of [Object.prototype]: returned *)
| ReadOn (holder : Impl) (name : string).
  (** the property [name] of the function [holder], the prototype of
      [fn.signatures]: returned when it is truthy, "Signature not found"
      thrown otherwise *)

(** [signatures] holds the own properties of [fn.signatures], [None] when
    [fn] has no [signatures]; [proto] is the prototype of [fn.signatures],
    [None] for [Object.prototype].  The read of [__proto__] gives the
    prototype. *)
Definition find (signatures : option (gmap string Impl)) (proto : option Impl)
           (name : string) (signature : SignatureArg) : FindResult :=
  match signatures with
  | None => Throws NoTypedFunction
  | Some signatures =>
      match
        match signature with
        | ofString signature => Some (map Str.trim (Str.split "," signature))
        | ofArray signature => Some signature
        | ofOther => None
        end
      with
      | None => Throws StringArrayExpected
      | Some arr =>
          let str := Str.join "," arr in
          match signatures !! str, proto with
          | Some match_, _ => Found match_
          | None, Some holder =>
              if String.eqb str "__proto__" then Found holder
              else ReadOn holder str
          | None, None =>
              if Keys.inherited str then Inherited str
              else
                Throws (SignatureNotFound
                          ("Signature not found (signature: " +:+
                           (if Str.is_empty name then "unnamed" else name) +:+
                           "(" +:+ Str.join ", " arr +:+ "))"))
          end
      end
  end.

End Engine.

Arguments Impl Fn : clear implicits.
Arguments Store Fn : clear implicits.
Arguments Outcome Fn : clear implicits.
Arguments Def Fn : clear implicits.
Arguments FastPath Fn : clear implicits.
Arguments TypedFunction Fn : clear implicits.

(** ** A sorted linear scan

    The dispatcher the design notes describe: one pass over the sorted,
    conversion-expanded def list with each def's compiled predicate. *)

Definition linearScan {Fn} (typed : Typed) (f : TypedFunction Fn)
           (arguments : list Value) : Outcome Fn :=
  match genericFrom (defs f) arguments with
  | Some outcome => outcome
  | None => Thrown (createError typed (fn_name f) arguments (defs f))
  end.

(** ** The candidates of the error builder *)

(** The candidate defs of the error builder after the first [n] argument
    positions: each position keeps the defs whose expected param there
    holds the actual type or [any]. [index] is the position of the head of
    [actualTypes]. *)
Fixpoint viableFrom {Fn} (defs : list (Def Fn)) (actualTypes : list string)
         (index n : nat) {struct n} : list (Def Fn) :=
  match n, actualTypes with
  | S n', actualType :: actualTypes' =>
      viableFrom (nextMatchingDefs defs index actualType) actualTypes' (S index) n'
  | _, _ => defs
  end.

Definition viable {Fn} (defs : list (Def Fn)) (actualTypes : list string)
           (n : nat) : list (Def Fn) :=
  viableFrom defs actualTypes 0 n.

(** ** Canonical type names

    What the parser leaves as a type name: a non-empty string without
    comma that [trim] does not change. *)

Module Canon.

(** A string that starts with no whitespace. *)
Definition starts_clean (s : string) : bool :=
  match s with EmptyString => true | String a _ => negb (Str.is_ws a) end.

Definition clean_name (t : string) : Prop :=
  t <> EmptyString
  /\ starts_clean t = true
  /\ Str.rtrim t = t
  /\ Str.has_char "," t = false.

(** The params of a signature that passed [filterIgnoredTypes]. *)
Definition clean_params (ps : list Param) : Prop :=
  Forall (fun p => p <> [] /\ Forall clean_name p) ps.

(** [filterIgnoredTypes(parseParams(key))], [None] as well when the parser
    throws. *)
Definition normalize (typed : Typed) (key : string) : option Signature :=
  match parseParams key with
  | OK parsed => filterIgnoredTypes typed parsed
  | Err _ => None
  end.

End Canon.

(** ** The defs the fast path takes

    [qualifies] is the condition of [okK] on a def; [fastDefs defs n] lists
    the qualifying defs among the first [n], which the specialised function
    tests before the generic loop runs; [noGap defs] says that among the
    first six defs no def that fails the condition comes before one that
    meets it. *)

Definition qualifies {Fn} (def : Def Fn) : bool :=
  (length (params (signature def)) <=? 2)%nat && negb (restParam (signature def)).

Fixpoint fastDefs {Fn} (defs : list (Def Fn)) (n : nat) {struct n}
  : list (Def Fn) :=
  match n, defs with
  | S n', def :: defs' =>
      if qualifies def then def :: fastDefs defs' n' else fastDefs defs' n'
  | _, _ => []
  end.

Definition noGap {Fn} (defs : list (Def Fn)) : Prop :=
  forall k, (S k < 6)%nat -> okAt defs (S k) = true -> okAt defs k = true.

(** A def that carries the predicate compiled from its own signature. *)
Definition compiledFrom {Fn} (typed : Typed) (def : Def Fn) : Prop :=
  compileParams typed (signature def) = OK (def_test def)
  /\ def_restParam def = restParam (signature def).

(** What [generic] does with the def it stops at. *)
Definition dispatchTo {Fn} (def : Def Fn) (arguments : list Value) : Outcome Fn :=
  if def_restParam def
  then match preprocess def with
       | Some pre => applyImpl (fn def) (pre arguments) []
       | None => HostError
       end
  else applyImpl (fn def) arguments [].

(** ** Registries and signature maps of the examples

    User functions are numbered. *)

Module Examples.

Definition booleanToNumber : Conversion :=
  {| from := "boolean"; to := "number";
     convert := fun x => match x with VBoolean true => VNumber 1 | _ => VNumber 0 end |}.

Definition stringToNumber : Conversion :=
  {| from := "string"; to := "number";
     convert := fun x => match x with VString s => VNumber (Z.of_nat (String.length s))
                                 | _ => VNumber 0 end |}.

Definition objectToArray : Conversion :=
  {| from := "Object"; to := "Array"; convert := fun x => VArray [x] |}.

(** A registry whose [ignore] list holds ["null"]. *)
Definition ignoringNull : Typed :=
  {| types := _types; conversions := []; ignore := ["null"] |}.

(** A registry that holds the type [number] alone: no program reaches it
    through [addType] from [create()]. *)
Definition numberAlone : Typed :=
  {| types := [ {| name := "number"; test := isNumber |} ];
     conversions := []; ignore := [] |}.

Definition withBooleanToNumber : Typed := addConversion booleanToNumber create.

Definition withTwoConversions : Typed :=
  addConversion objectToArray (addConversion stringToNumber create).

(** The typed function compiled, one without defs when the compiler threw. *)
Definition compiled {Fn} (r : Res (TypedFunction Fn)) : TypedFunction Fn :=
  match r with
  | OK f => f
  | Err _ => {| fn_name := EmptyString; defs := []; fast := []; iStart := 0%nat;
                signatures := ∅; signatures_proto := None |}
  end.

(** [{ "number": f1, "string": f2 }] compiled with [boolean -> number]
    registered. *)
Definition numberOrStringFn : TypedFunction nat :=
  compiled (createTypedFunction withBooleanToNumber "f"
              [("number", 1%nat); ("string", 2%nat)]).

(** The defs of a typed function, none when the compiler threw. *)
Definition defsOf (r : Res (TypedFunction nat)) : list (Def nat) :=
  match r with OK f => defs f | Err _ => [] end.

Definition numberOrString : list (Def nat) :=
  defsOf (createTypedFunction create EmptyString
            [("number", 1%nat); ("string", 2%nat)]).

Definition numberOnly : list (Def nat) :=
  defsOf (createTypedFunction create EmptyString [("number", 1%nat)]).

(** [{ "number": f1, "...boolean": f2 }] compiled with [boolean -> number]
    registered. *)
Definition numberAndRestBooleans : TypedFunction nat :=
  compiled (createTypedFunction withBooleanToNumber "f"
              [("number", 1%nat); ("...boolean", 2%nat)]).

(** [{ "number": f1, " number": f2 }]: two keys, one signature. *)
Definition numberTwice : TypedFunction nat :=
  compiled (createTypedFunction create "f"
              [("number", 1%nat); (" number", 2%nat)]).

(** [{ "number, Array": f1 }] compiled with [string -> number] and
    [Object -> Array] registered. *)
Definition numberAndArray : TypedFunction nat :=
  compiled (createTypedFunction withTwoConversions "f" [("number, Array", 1%nat)]).

(** [{ "...number": f1 }] *)
Definition restNumbers {Fn} (f1 : Fn) : TypedFunction Fn :=
  compiled (createTypedFunction create "f" [("...number", f1)]).

(** [{ "number, ...string": f2 }] *)
Definition numberThenStrings {Fn} (f2 : Fn) : TypedFunction Fn :=
  compiled (createTypedFunction create "g" [("number, ...string", f2)]).

End Examples.

(** ** What a signature accepts

    The reading of a param and of a signature that the compiled tests are
    compared with: a param accepts a value when one of its types does (a
    name that is not registered accepts nothing, a param without types
    everything); a signature accepts an argument list position by position,
    a rest param every argument from its position on, of which there must
    be one at least. *)

Definition typeTest (typed : Typed) (type : string) (x : Value) : bool :=
  match findTest typed type with OK t => t x | Err _ => false end.

Definition accepts (typed : Typed) (param : Param) (x : Value) : bool :=
  match param with
  | [] => true
  | _ :: _ => existsb (fun type => typeTest typed type x) param
  end.

Definition acceptsP (typed : Typed) (param : Param) (x : Value) : Prop :=
  accepts typed param x = true.

Definition signatureAccepts (typed : Typed) (signature : Signature)
           (args : list Value) : Prop :=
  if restParam signature then
    exists leading trailing,
      args = leading ++ trailing
      /\ Forall2 (acceptsP typed) (initial (params signature)) leading
      /\ trailing <> []
      /\ Forall (fun x => match last (params signature) with
                          | Some p => acceptsP typed p x
                          | None => True
                          end) trailing
  else Forall2 (acceptsP typed) (params signature) args.

(** ** How the defs of a typed function are built

    [gather n] is what [createRestParamPreProcess] returns for a signature
    of [n] params, [ungather] its inverse on the lists it produces.  A def
    is built for a property of the signatures object ([builtOriginal]) or
    around such a def by the conversion expansion ([builtTwin]). *)

Definition gather (n : nat) (args : list Value) : list Value :=
  slice args 0 (Some (Z.of_nat n - 1)) ++ [VArray (slice args (Z.of_nat n - 1) None)].

Definition ungather (rest : bool) (args : list Value) : list Value :=
  if rest then
    match last args with
    | Some (VArray items) => initial args ++ items
    | _ => args
    end
  else args.

Definition builtOriginal {Fn} (typed : Typed) (sigs : list (string * Fn))
           (def : Def Fn) : Prop :=
  exists key g,
    In (key, g) sigs
    /\ Canon.normalize typed key = Some (signature def)
    /\ conversion def = false
    /\ fn def = Original g
    /\ def_restParam def = restParam (signature def)
    /\ preprocess def
       = (if restParam (signature def)
          then Some (gather (length (params (signature def)))) else None)
    /\ compileParams typed (signature def) = OK (def_test def).

Definition builtTwin {Fn} (typed : Typed) (sigs : list (string * Fn))
           (def : Def Fn) : Prop :=
  exists original conversions compiledConversions,
    builtOriginal typed sigs original
    /\ getConversions typed (params (signature original)) = Some conversions
    /\ mapM (compileArgConversion typed) conversions = OK compiledConversions
    /\ signature def = addConvertableParams (signature original) conversions
    /\ conversion def = true
    /\ fn def = Converting (fn original) compiledConversions (def_restParam original)
    /\ def_restParam def = def_restParam original
    /\ preprocess def = preprocess original
    /\ compileParams typed (signature def) = OK (def_test def).

(** Conversions whose [convert] turns a value of their [from] type into a
    value of their [to] type. *)
Definition honest (typed : Typed) : Prop :=
  forall conversion x,
    In conversion (conversions typed) ->
    typeTest typed (from conversion) x = true ->
    typeTest typed (to conversion) (convert conversion x) = true.

(** ** The conversions chosen for a param

    [eligible param c]: the condition of [getConversions] on a conversion,
    apart from the one on the sources chosen before.  The target is in the
    param and the source is not; and the source is no property name of
    [Object.prototype], under which the read [conversions[conversion.from]]
    is truthy from the start. *)

Definition eligible (param : Param) (c : Conversion) : bool :=
  negb (includes (from c) param) && includes (to c) param
  && negb (Keys.inherited (from c)).

(** [c] is the first eligible conversion of [l] with its source. *)
Definition firstFrom (param : Param) (l : list Conversion) (c : Conversion) : Prop :=
  exists l1 l2,
    l = l1 ++ c :: l2
    /\ eligible param c = true
    /\ forall c', In c' l1 -> eligible param c' = true -> from c' <> from c.

(** The object that [getConversions] fills for one param. *)
Definition chosen (param : Param) (l : list Conversion)
  : list (string * Conversion) :=
  foldl (fun conversions conversion =>
           if negb (includes (from conversion) param)
              && includes (to conversion) param
              && negb (Keys.truthy (from conversion) conversions)
           then Keys.set (from conversion) conversion conversions
           else conversions) [] l.


(** What the wrapper of a conversion def hands on for the argument [v] at
    position [k]. *)
Definition convertedBy (compiledConversions : list CompiledConversion)
           (k : nat) (v : Value) : Value :=
  match compiledConversions !! k with
  | Some compiled => fst (convertArg compiled v)
  | None => v
  end.

(** ** [typed.convert]

    [findType] and [convert] of the source, in a module of their own as
    [convert] names the field of a conversion. *)

Inductive ConvertError : Type :=
| UnknownValueType (value : Value)
| CannotConvert (from to : string).

Module TypedApi.

(** [None] when the source throws its TypeError "Value has unknown type"
    (for a symbol, the concatenation of this message throws one before). *)
Definition findType (typed : Typed) (value : Value) : option string :=
  match List.find (fun entry => test entry value) (types typed) with
  | Some entry => Some (name entry)
  | None => None
  end.

Definition convert (typed : Typed) (value : Value) (type : string)
  : ConvertError + Value :=
  match findType typed value with
  | None => inl (UnknownValueType value)
  | Some from_ =>
      if String.eqb type from_ then inr value
      else
        match List.find (fun conversion =>
                           String.eqb (from conversion) from_
                           && String.eqb (to conversion) type)
                        (conversions typed) with
        | Some conversion => inr (convert conversion value)
        | None => inl (CannotConvert from_ type)
        end
  end.

End TypedApi.

(** The name under which the types of [create()] classify a value: the
    first of [_types] whose test the value passes. *)
Definition builtinType (value : Value) : string :=
  match value with
  | VNumber _ => "number"
  | VString _ => "string"
  | VBoolean _ => "boolean"
  | VFunction _ => "Function"
  | VArray _ => "Array"
  | VDate _ => "Date"
  | VRegExp _ => "RegExp"
  | VObject _ | VNull => "Object"
  | VUndefined => "undefined"
  | VSymbol _ | VBigInt _ => "any"
  end.

(** A registry grown by further types and conversions. *)
Definition grown (typed : Typed) (moreTypes : list TypeDef)
           (moreConversions : list Conversion) : Typed :=
  {| types := types typed ++ moreTypes;
     conversions := conversions typed ++ moreConversions;
     ignore := ignore typed |}.

(** ** [getName]

    What [getName] reads of a function: whether it has [signatures], and its
    [name]. *)
Record FnInfo : Type := { has_signatures : bool; info_name : string }.

Inductive NameError : Type :=
| NamesDoNotMatch (expected actual : string).

(** The loop of [getName] with [name] as it stands. *)
Fixpoint getNameFrom (name : string) (fns : list FnInfo) : NameError + string :=
  match fns with
  | [] => inr name
  | fn :: fns' =>
      if has_signatures fn && negb (String.eqb (info_name fn) EmptyString) then
        if String.eqb name EmptyString then getNameFrom (info_name fn) fns'
        else if negb (String.eqb name (info_name fn))
             then inl (NamesDoNotMatch name (info_name fn))
             else getNameFrom name fns'
      else getNameFrom name fns'
  end.

Definition getName (fns : list FnInfo) : NameError + string :=
  getNameFrom EmptyString fns.

(** A typed function of [fns] has the name [n]. *)
Definition typedNamed (fns : list FnInfo) (n : string) : Prop :=
  exists fn, In fn fns /\ has_signatures fn = true /\ info_name fn = n.

(** ** Registered type names *)
Definition registered (typed : Typed) (type : string) : Prop :=
  exists entry, In entry (types typed) /\ name entry = type.

(** The exception of [findTest]: an unknown type, with the hint. *)
Definition unknownType (typed : Typed) (e : CompileError) : Prop :=
  exists type, ~ registered typed type
               /\ e = UnknownType type
                        (name <$> List.find
                                    (fun entry =>
                                       String.eqb (Str.toLowerCase (name entry))
                                                  (Str.toLowerCase type))
                                    (types typed)).

(** ** Signatures that print and parse back

    A type name as the parser leaves it, without [|]; a signature whose
    params are non-empty lists of such names, that has a rest param only if
    it has a param, and in which no param but the rest param starts with
    [...]. *)
Definition plain_name (t : string) : Prop :=
  Canon.clean_name t /\ Str.has_char "|" t = false.

Definition printable (signature : Signature) : Prop :=
  Forall (fun p => p <> [] /\ Forall plain_name p) (params signature)
  /\ (params signature = [] -> restParam signature = false)
  /\ forall index p t,
       params signature !! index = Some p -> head p = Some t ->
       restParam signature && (index =? length (params signature) - 1)%nat = false ->
       Str.starts_with "..." t = false.

(** ** The order in which a call tests the defs

    First the defs among the first six with at most two params and no rest
    param; then, when all of the first six are such, the defs from the
    seventh on, and all defs otherwise. *)
Definition testOrder {Fn} (defs : list (Def Fn)) : list (Def Fn) :=
  fastDefs defs 6
  ++ (if forallb (okAt defs) (seq 0 6) then drop 6 defs else defs).

(** ** The order of the defs

    [indices m ps ks]: [ks] are the lowest type indices of the params [ps];
    [compareIndices] is [compareParamsFrom] on such indices and [rank] is
    [compareSignatures] on them. *)
Definition indices (typesIndexMap : gmap string Z) (ps : list Param)
           (ks : list Z) : Prop :=
  Forall2 (fun p k => getLowestTypeIndex p typesIndexMap = Some k) ps ks.

Fixpoint compareIndices (ks1 ks2 : list Z) (otherwise : Z) : Z :=
  match ks1, ks2 with
  | k1 :: ks1', k2 :: ks2' =>
      if k1 - k2 =? 0 then compareIndices ks1' ks2' otherwise else k1 - k2
  | _, _ => otherwise
  end.

Definition rank (rest1 : bool) (ks1 : list Z) (rest2 : bool) (ks2 : list Z) : Z :=
  let rest := Z.b2z rest1 - Z.b2z rest2 in
  if negb (rest =? 0) then rest
  else compareIndices ks1 ks2 (Z.of_nat (length ks1) - Z.of_nat (length ks2)).

(** [compareSignatures] puts [signature1] before [signature2], or leaves
    them as they are: its result is a number and not positive. *)
Definition notAfter (typesIndexMap : gmap string Z)
           (signature1 signature2 : Signature) : Prop :=
  exists c, compareSignatures signature1 signature2 typesIndexMap = Some c
            /\ c <= 0.

(** Defs whose params all have a lowest type index, and the order of two
    defs. *)
Definition ranked {Fn} (typesIndexMap : gmap string Z) (def : Def Fn) : Prop :=
  exists ks, indices typesIndexMap (params (signature def)) ks.

Definition inOrder {Fn} (typesIndexMap : gmap string Z) (d1 d2 : Def Fn) : Prop :=
  notAfter typesIndexMap (signature d1) (signature d2).

(** ** More examples *)

Module MoreExamples.

Definition numberThenUnion : Signature :=
  {| params := [["number"]; ["string"; "boolean"]]; restParam := false |}.

(** The test compiled for [number, string|boolean], none when the compiler
    throws. *)
Definition numberThenUnionTest : list Value -> bool :=
  match compileParams create numberThenUnion with
  | OK t => t
  | Err _ => fun _ => false
  end.

(** [{ "...boolean": f2, "number": f1 }] compiled with [boolean -> number]
    registered. *)
Definition restFirst : TypedFunction nat :=
  Examples.compiled (createTypedFunction Examples.withBooleanToNumber "f"
                       [("...boolean", 2%nat); ("number", 1%nat)]).

(** The third def of [{ "number": f1, "string": f2 }] compiled with
    [boolean -> number] registered: the conversion def [number|boolean]. *)
Definition numberOrBooleanDef : Def nat :=
  match defs Examples.numberOrStringFn !! 2%nat with
  | Some def => def
  | None => {| signature := {| params := []; restParam := false |};
               def_restParam := false;
               conversion := false;
               preprocess := None;
               def_test := fun _ => false;
               fn := Undef |}
  end.

(** The def of [{ "number": f1 }]. *)
Definition numberDef : Def nat :=
  {| signature := {| params := [["number"]]; restParam := false |};
     def_restParam := false;
     conversion := false;
     preprocess := None;
     def_test := fun args => isNumber (arg args 0) && (length args =? 1)%nat;
     fn := Original 1%nat |}.

(** A registry with a type named [__proto__], and [{ " __proto__": f1 }]
    compiled with it. *)
Definition protoRegistry : Typed :=
  addType {| name := "__proto__"; test := isNumber |} create.

Definition protoFn : TypedFunction nat :=
  Examples.compiled (createTypedFunction protoRegistry "f" [(" __proto__", 1%nat)]).


(** A registry with the types [__proto__] and [name]. *)
Definition protoNameRegistry : Typed :=
  addType {| name := "name"; test := isString |} protoRegistry.

(** [{ "number | null, ...string": f1 }] compiled with [null] ignored. *)
Definition ignoringFn : TypedFunction nat :=
  Examples.compiled (createTypedFunction Examples.ignoringNull "f"
                       [("number | null, ...string", 1%nat)]).

End MoreExamples.

(** ** The registry read by the error builder *)

Section Registry.

Lemma find_app_Some {A} (p : A -> bool) (l more : list A) (x : A) :
  List.find p l = Some x -> List.find p (l ++ more) = Some x.
Proof.
  induction l as [|a l IH]; simpl; [discriminate|].
  destruct (p a); [trivial | exact IH].
Qed.


Lemma reachable_types (typed : Typed) :
  reachable typed -> exists more, types typed = _types ++ more.
Proof.
  induction 1 as [|type typed _ [more IH]|conversion typed _ [more IH]].
  - exists []. reflexivity.
  - exists (more ++ [type]).
    change (types (addType type typed)) with (types typed ++ [type]).
    now rewrite IH, <- List.app_assoc.
  - exists more. exact IH.
Qed.






End Registry.




(** The hypothesis of C5 matters: on a registry that classifies no string,
    which [addType] alone never produces, a new type changes the type that
    [createError] reports. *)
Lemma createError_reads_registry :
  let f := Examples.compiled
             (createTypedFunction Examples.numberAlone "f" [("number", 1%nat)]) in
  let string := {| name := "string"; test := isString |} in
  (exists err, call Examples.numberAlone f [VString "a"] = Thrown err
               /\ data err = wrongType "f" 0 "unknown" ["number"])
  /\ (exists err, call (addType string Examples.numberAlone) f [VString "a"]
                  = Thrown err
                  /\ data err = wrongType "f" 0 "string" ["number"]).
Proof.
  split; eexists; split; vm_compute; reflexivity.
Qed.

(** ** The error builder *)

Section ErrorBuilder.

Context {Fn : Type}.
Implicit Types (defs : list (Def Fn)) (actualTypes : list string).

Lemma viableFrom_S defs actualTypes index n actualType :
  actualTypes !! n = Some actualType ->
  viableFrom defs actualTypes index (S n)
  = nextMatchingDefs (viableFrom defs actualTypes index n) (index + n) actualType.
Proof.
  revert defs actualTypes index.
  induction n as [|n IH]; intros defs [|t ts] index H; try discriminate.
  - injection H as ->. simpl. now rewrite Nat.add_0_r.
  - simpl in H. change (viableFrom defs (t :: ts) index (S (S n)))
      with (viableFrom (nextMatchingDefs defs index t) ts (S index) (S n)).
    rewrite (IH _ _ _ H). simpl. now rewrite Nat.add_succ_r.
Qed.

(** While the candidates stay non-empty the loop of [createError] holds
    exactly the candidates. *)
Lemma narrow_viable _name defs actualTypes index n :
  (n <= length actualTypes)%nat ->
  (forall k, (k < n)%nat -> viableFrom defs actualTypes index (S k) <> []) ->
  narrow _name actualTypes index defs
  = narrow _name (drop n actualTypes) (index + n)
           (viableFrom defs actualTypes index n).
Proof.
  revert defs actualTypes index.
  induction n as [|n IH]; intros defs actualTypes index Hn Hne.
  - simpl. rewrite Nat.add_0_r. now destruct actualTypes.
  - destruct actualTypes as [|t ts]; [simpl in Hn; lia|].
    simpl in Hn.
    assert (H0 : nextMatchingDefs defs index t <> []).
    { apply (Hne 0%nat). lia. }
    simpl. destruct (nextMatchingDefs defs index t) as [|d ds] eqn:E;
      [congruence|].
    rewrite <- E. rewrite (IH _ ts (S index)).
    + now rewrite Nat.add_succ_r.
    + lia.
    + intros k Hk. specialize (Hne (S k)). simpl in Hne. apply Hne. lia.
Qed.

Lemma includes_In x (arr : list string) : includes x arr = true <-> In x arr.
Proof.
  unfold includes. rewrite existsb_exists. split.
  - intros [y [Hy He]]. apply String.eqb_eq in He. now subst.
  - intros H. exists x. split; [trivial | apply String.eqb_refl].
Qed.

(** [uniq] keeps exactly the elements of its argument. *)

Lemma insert_index_In {A} n (e : string * A) l x :
  In x (Keys.insert_index n e l) <-> x = (n, e) \/ In x l.
Proof.
  induction l as [|[m e'] l IH]; simpl.
  - intuition.
  - destruct (n <? m)%N; simpl; [intuition|]. rewrite IH. intuition.
Qed.

Lemma enumerate_In {A} (l : list (string * A)) e :
  In e (Keys.enumerate l) <-> In e l.
Proof.
  unfold Keys.enumerate, Keys.named. rewrite in_app_iff, filter_In, in_map_iff.
  assert (Hi : forall x, In x (Keys.indexed l)
                         <-> In (snd x) l /\ Keys.index (fst (snd x)) = Some (fst x)).
  { induction l as [|a l IH]; intros x; simpl; [intuition|].
    destruct (Keys.index (fst a)) eqn:E.
    - rewrite insert_index_In, IH. destruct x as [m y]; simpl. split.
      + intros [H|[H1 H2]]; [injection H as -> ->; auto | auto].
      + intros [[->|H1] H2]; [left; congruence | auto].
    - rewrite IH. split; [intuition|].
      intros [[->|H1] H2]; [congruence | auto]. }
  split.
  - intros [[x [<- Hx]]|[H _]]; [now apply Hi in Hx | trivial].
  - intros H. destruct (Keys.index (fst e)) eqn:E.
    + left. exists (n, e). split; [trivial|]. apply Hi. auto.
    + right. auto.
Qed.

Lemma set_keys {A} k (v : A) (l : list (string * A)) x :
  In x (map fst (Keys.set k v l)) <-> x = k \/ In x (map fst l).
Proof.
  induction l as [|[k' v'] l IH]; simpl.
  - intuition.
  - destruct (String.eqb k k') eqn:E; simpl.
    + apply String.eqb_eq in E. subst. intuition.
    + rewrite IH. intuition.
Qed.

Lemma assign_keys {A} k (v : A) (l : list (string * A)) x :
  In x (map fst (Keys.assign k v l))
  <-> (x = k /\ k <> "__proto__") \/ In x (map fst l).
Proof.
  unfold Keys.assign. destruct (String.eqb k "__proto__") eqn:E.
  - apply String.eqb_eq in E. intuition.
  - apply String.eqb_neq in E. rewrite set_keys. intuition.
Qed.

(** [uniq] keeps the elements of its argument, but for [__proto__]. *)
Lemma uniq_In (arr : list string) x :
  In x (uniq arr) <-> In x arr /\ x <> "__proto__".
Proof.
  unfold uniq.
  assert (H : forall (acc : list (string * bool)),
             In x (map fst (foldl (fun entries k => Keys.assign k true entries)
                                  acc arr))
             <-> In x (map fst acc) \/ (In x arr /\ x <> "__proto__")).
  { induction arr as [|a arr IH]; intros acc; simpl; [intuition|].
    rewrite IH, assign_keys. split.
    - intros [[[-> Hk]|Hx]|[Hx Hk]]; auto.
    - intros [Hx|[[<-|Hx] Hk]]; auto. }
  rewrite in_map_iff. split.
  - intros [e [<- He]]. apply (proj1 (enumerate_In _ _)) in He.
    destruct (proj1 (H []) (in_map fst _ _ He)) as [[]|]; trivial.
  - intros Hx. pose proof (proj2 (H []) (or_intror Hx)) as Hy.
    apply in_map_iff in Hy as [e [<- He]]. exists e. split; [trivial|].
    now apply enumerate_In.
Qed.

Lemma expectedParams_In defs index x :
  In x (expectedParams defs index)
  <-> exists def, In def defs
                  /\ In x (match getExpectedParam (signature def) index with
                           | Some p => p
                           | None => ["undefined"]
                           end).
Proof.
  unfold expectedParams. rewrite in_concat. split.
  - intros [p [Hp Hx]]. apply in_map_iff in Hp as [def [<- Hd]]. eauto.
  - intros [def [Hd Hx]]. eexists. split; [|exact Hx].
    apply in_map_iff. eauto.
Qed.

Lemma nextMatchingDefs_nil defs index actualType def :
  nextMatchingDefs defs index actualType = [] ->
  In def defs ->
  isCorrectType (getExpectedParam (signature def) index) actualType = false.
Proof.
  unfold nextMatchingDefs. intros Hn Hd.
  destruct (isCorrectType _ actualType) eqn:E; [|reflexivity].
  assert (Hin : In def (List.filter
                          (fun def0 => isCorrectType
                                         (getExpectedParam (signature def0) index)
                                         actualType) defs)).
  { apply filter_In. auto. }
  rewrite Hn in Hin. destruct Hin.
Qed.

(** Where no def is left the expected types are the plain union: no def
    that expects [any] was among the candidates. *)
Lemma mergeExpectedParams_union defs index actualType type :
  nextMatchingDefs defs index actualType = [] ->
  In type (mergeExpectedParams defs index)
  <-> In type (expectedParams defs index) /\ type <> "__proto__".
Proof.
  intros Hn. unfold mergeExpectedParams.
  destruct (includes "any" (uniq (expectedParams defs index))) eqn:E.
  - exfalso. apply includes_In, uniq_In in E as [E _].
    apply expectedParams_In in E as [def [Hd Hx]].
    pose proof (nextMatchingDefs_nil _ _ _ _ Hn Hd) as Hc.
    destruct (getExpectedParam (signature def) index) as [p|]; simpl in *.
    + apply includes_In in Hx. rewrite Hx in Hc.
      now rewrite orb_true_r in Hc.
    + destruct Hx as [Hx|[]]. discriminate.
  - apply uniq_In.
Qed.

Lemma narrow_nil _name actualTypes index :
  narrow (Fn:=Fn) _name actualTypes index [] = inr [].
Proof.
  revert index. induction actualTypes as [|t ts IH]; intros index; simpl; auto.
Qed.

End ErrorBuilder.

(** C7, as the code has it: the first argument position that leaves no
    candidate def yields a [wrongType] error carrying the position, the
    observed type and the expected types that [mergeExpectedParams] lists
    for the candidates there, provided it lists any; what it lists are
    expected types of the candidates, and every expected type of a
    candidate is listed unless it is named [__proto__]. *)
Theorem createError_wrongType {Fn} (typed : Typed) (name : string)
        (args : list Value) (defs : list (Def Fn)) (index : nat)
        (actualType : string) :
  let actualTypes := actualTypesOf typed args in
  let candidates := viable defs actualTypes index in
  actualTypes !! index = Some actualType ->
  (forall k, (k < index)%nat -> viable defs actualTypes (S k) <> []) ->
  viable defs actualTypes (S index) = [] ->
  mergeExpectedParams candidates index <> [] ->
  createError typed name args defs
  = wrongTypeError (if Str.is_empty name then "unnamed" else name) index actualType
                   (mergeExpectedParams candidates index)
  /\ (forall type, In type (mergeExpectedParams candidates index) ->
                   In type (expectedParams candidates index))
  /\ (forall type, type <> "__proto__" ->
                   In type (expectedParams candidates index) ->
                   In type (mergeExpectedParams candidates index)).
Proof.
  intros actualTypes candidates Hat Hbefore Hempty Hexp.
  assert (Hnext : nextMatchingDefs candidates index actualType = []).
  { unfold candidates, viable in *.
    now rewrite (viableFrom_S _ _ _ _ _ Hat) in Hempty. }
  split.
  - unfold createError. fold actualTypes.
    rewrite (narrow_viable _ defs actualTypes 0 index).
    + fold (viable defs actualTypes index). fold candidates.
      rewrite (drop_S _ _ _ Hat). simpl. rewrite Hnext.
      destruct (mergeExpectedParams candidates index) eqn:E; [congruence|].
      reflexivity.
    + apply lookup_lt_Some in Hat. lia.
    + exact Hbefore.
  - split.
    + intros type Ht.
      now apply (mergeExpectedParams_union _ _ actualType) in Ht as [Ht _].
    + intros type Hn Ht. now apply (mergeExpectedParams_union _ _ actualType).
Qed.


(** C7 at work: [{ number, string }] called with [(true)]. *)
Lemma createError_wrongType_witness :
  createError create EmptyString [VBoolean true] Examples.numberOrString
  = wrongTypeError "unnamed" 0 "boolean" ["number"; "string"]
  /\ In "string" (expectedParams Examples.numberOrString 0).
Proof.
  pose proof (createError_wrongType create EmptyString [VBoolean true]
                Examples.numberOrString 0 "boolean") as H.
  cbv zeta in H.
  destruct H as [H1 [H2 H3]].
  - reflexivity.
  - intros k Hk. lia.
  - reflexivity.
  - vm_compute. discriminate.
  - split.
    + exact H1.
    + apply H2. vm_compute. auto.
Defined.

(** C7, as stated, fails: with the one signature [number] and the
    arguments [(1, 2)] no def matches, position 1 is the first to leave no
    candidate, and the error is [tooManyArgs]. *)
Lemma wrongType_counterexample :
  let defs := Examples.numberOnly in
  let args := [VNumber 1; VNumber 2] in
  let actualTypes := actualTypesOf create args in
  genericFrom defs args = None
  /\ viable defs actualTypes 1 <> []
  /\ viable defs actualTypes 2 = []
  /\ data (createError create EmptyString args defs)
     = tooManyArgs "unnamed" 2 (Finite 1).
Proof.
  cbv zeta. repeat split; try reflexivity.
  vm_compute. discriminate.
Qed.

(** ** A signatures map that the ignore list empties *)

Section AllIgnored.

Context {Fn : Type}.

Lemma parseDefs_all_ignored (typed : Typed) (signatures : list (string * Fn)) :
  (forall entry, In entry signatures ->
                 exists parsed, parseParams (fst entry) = OK parsed
                                /\ filterIgnoredTypes typed parsed = None) ->
  parseDefs typed signatures = OK [].
Proof.
  induction signatures as [|entry signatures IH]; intros H; [reflexivity|].
  destruct (H entry (or_introl eq_refl)) as [parsed [Hp Hf]].
  simpl. unfold parseDef. rewrite Hp. simpl. rewrite Hf. simpl.
  rewrite IH; [reflexivity|]. intros e He. apply H. now right.
Qed.

Lemma createError_no_defs (typed : Typed) (name : string) (args : list Value) :
  category (createError (Fn:=Fn) typed name args []) = "tooFewArgs".
Proof.
  unfold createError. rewrite narrow_nil. reflexivity.
Qed.

End AllIgnored.

(** C10: a non-empty signatures map of which the ignore list leaves no
    signature compiles, to a typed function with no signatures, and every
    call of it throws [tooFewArgs]. *)
Theorem all_signatures_ignored {Fn} (typed : Typed) (name : string)
        (sigs : list (string * Fn)) :
  sigs <> [] ->
  (forall entry, In entry sigs ->
                 exists parsed, parseParams (fst entry) = OK parsed
                                /\ filterIgnoredTypes typed parsed = None) ->
  exists f, createTypedFunction typed name sigs = OK f
            /\ signatures f = ∅
            /\ forall typed' arguments,
                exists err, call typed' f arguments = Thrown err
                            /\ category err = "tooFewArgs".
Proof.
  intros Hne Hall. unfold createTypedFunction.
  destruct sigs as [|entry rest]; [congruence|].
  change (length (entry :: rest) =? 0)%nat with false. cbv iota.
  rewrite (parseDefs_all_ignored typed (entry :: rest) Hall).
  eexists. split; [reflexivity|]. split; [reflexivity|].
  intros typed' arguments. eexists. split.
  - unfold call, generic. simpl.
    assert (Hlen : (Z.of_nat (length arguments) =? -1) = false)
      by (apply Z.eqb_neq; lia).
    rewrite Hlen. simpl. reflexivity.
  - apply createError_no_defs.
Qed.


(** C10 at work: [{ "null": f1 }] with ["null"] on the ignore list. *)
Lemma all_signatures_ignored_witness :
  exists f, createTypedFunction Examples.ignoringNull "f" [("null", 1%nat)] = OK f
            /\ signatures f = ∅
            /\ forall typed' arguments,
                exists err, call typed' f arguments = Thrown err
                            /\ category err = "tooFewArgs".
Proof.
  apply (all_signatures_ignored Examples.ignoringNull "f" [("null", 1%nat)]).
  - discriminate.
  - intros entry [<-|[]]. eexists. split; reflexivity.
Defined.

(** ** The fast path and the order of defs *)

(** C2 fails on the code. With [boolean -> number] registered,
    [{ "number": f1, "...boolean": f2 }] compiles to the defs [number],
    [...boolean], [number|boolean] (the conversion twin of the first).  The rest
    def does not qualify for the fast path, so the call [(true)] reaches the
    twin, third in the order, before the generic loop reaches the rest def:
    the call runs [f1] on the converted argument, a linear scan of the same
    defs runs [f2]. *)
Theorem fast_path_overtakes_rest_def :
  let typed := Examples.withBooleanToNumber in
  let f := Examples.numberAndRestBooleans in
  createTypedFunction typed "f" [("number", 1%nat); ("...boolean", 2%nat)] = OK f
  /\ map (fun def => (stringifyParams (signature def), conversion def)) (defs f)
     = [("number", false); ("...boolean", false); ("number|boolean", true)]
  /\ map (okAt (defs f)) (seq 0 6) = [true; false; true; false; false; false]
  /\ call typed f [VBoolean true]
     = Invoked 1%nat [VNumber 1] [(Examples.booleanToNumber, VBoolean true)]
  /\ linearScan typed f [VBoolean true]
     = Invoked 2%nat [VArray [VBoolean true]] [].
Proof.
  cbv zeta. repeat split; vm_compute; reflexivity.
Qed.

(** C3 fails on the code, by the same fast path: the arguments [(true)]
    satisfy the predicate of the original signature [...boolean], whose
    function is [f2], and the call runs the conversion twin of [number]. *)
Theorem conversion_twin_beats_exact_match :
  let typed := Examples.withBooleanToNumber in
  let f := Examples.numberAndRestBooleans in
  exists original twin,
    defs f !! 1%nat = Some original
    /\ conversion original = false
    /\ fn original = Original 2%nat
    /\ def_test original [VBoolean true] = true
    /\ defs f !! 2%nat = Some twin
    /\ conversion twin = true
    /\ call typed f [VBoolean true] = applyImpl (fn twin) [VBoolean true] []
    /\ call typed f [VBoolean true]
       = Invoked 1%nat [VNumber 1] [(Examples.booleanToNumber, VBoolean true)].
Proof.
  cbv zeta. do 2 eexists.
  split; [vm_compute; reflexivity|].
  repeat split; vm_compute; reflexivity.
Qed.

(** C8 fails on the code: the keys ["number"] and [" number"] parse to the
    same signature and each yields an original def.  The first runs on a
    call, the function of the second is what [signatures] keeps. *)
Theorem duplicate_original_defs :
  let f := Examples.numberTwice in
  createTypedFunction create "f" [("number", 1%nat); (" number", 2%nat)] = OK f
  /\ map (fun def => (signature def, conversion def, fn def)) (defs f)
     = [({| params := [["number"]]; restParam := false |}, false, Original 1%nat);
        ({| params := [["number"]]; restParam := false |}, false, Original 2%nat)]
  /\ ~ NoDup (map (fun def => (signature def, conversion def)) (defs f))
  /\ signatures f !! "number" = Some (Original 2%nat)
  /\ call create f [VNumber 5] = Invoked 1%nat [VNumber 5] [].
Proof.
  cbv zeta. repeat split; try (vm_compute; reflexivity).
  intros H. vm_compute in H. apply NoDup_cons in H as [H _].
  apply H. left.
Qed.

(** ** Rest parameters *)

Section Rest.

Context {Fn : Type}.

Lemma slice_from {A} (arr : list A) (k : nat) :
  slice arr (Z.of_nat k) None = drop k arr.
Proof.
  unfold slice. destruct (Z.of_nat k <? 0) eqn:E; [apply Z.ltb_lt in E; lia|].
  destruct (Z.min_spec (Z.of_nat k) (Z.of_nat (length arr))) as [[H ->]|[H ->]].
  - rewrite Nat2Z.id. apply take_ge. rewrite length_drop. lia.
  - rewrite Nat2Z.id, Z.sub_diag. simpl.
    rewrite drop_all. symmetry. apply drop_ge. lia.
Qed.

Lemma slice_upto {A} (arr : list A) (k : nat) :
  slice arr 0 (Some (Z.of_nat k)) = take k arr.
Proof.
  unfold slice. simpl (0 <? 0). cbv iota.
  destruct (Z.of_nat k <? 0) eqn:E; [apply Z.ltb_lt in E; lia|].
  assert (H0 : Z.min 0 (Z.of_nat (length arr)) = 0) by lia. rewrite H0.
  simpl (Z.to_nat 0). rewrite drop_0, Z.sub_0_r.
  destruct (Z.min_spec (Z.of_nat k) (Z.of_nat (length arr))) as [[H ->]|[H ->]].
  - now rewrite Nat2Z.id.
  - rewrite Nat2Z.id, firstn_all. symmetry. apply take_ge. lia.
Qed.

Lemma mapM_length {A B} (f : A -> Res B) (l : list A) (r : list B) :
  mapM f l = OK r -> length r = length l.
Proof.
  revert r. induction l as [|a l IH]; intros r H; simpl in H.
  - now injection H as <-.
  - destruct (f a) as [b|]; [|discriminate]. simpl in H.
    destruct (mapM f l) as [bs|]; [|discriminate]. simpl in H.
    injection H as <-. simpl. now rewrite (IH bs).
Qed.

(** The arity of a rest signature: its compiled test accepts no argument
    list shorter than its list of params, the rest param included. *)
Lemma compileParams_rest_arity (typed : Typed) (signature : Signature)
      (t : list Value -> bool) (args : list Value) :
  restParam signature = true ->
  compileParams typed signature = OK t ->
  t args = true ->
  (length (params signature) <= length args)%nat.
Proof.
  intros Hr Hc Ht. unfold compileParams in Hc. rewrite Hr in Hc.
  destruct (mapM _ (initial (params signature))) as [tests|] eqn:Em; [|discriminate].
  cbn [bind] in Hc.
  destruct (compileParam typed (last (params signature))) as [lastTest|];
    [|discriminate].
  cbn [bind] in Hc. injection Hc as <-.
  apply andb_true_iff in Ht as [_ Ht]. apply andb_true_iff in Ht as [_ Ht].
  apply Nat.leb_le in Ht. apply mapM_length in Em.
  unfold initial in Em. rewrite length_take in Em. lia.
Qed.

(** No line of the specialised function fires when no def qualifies. *)
Lemma fastFrom_none (fast : list (FastPath Fn)) (arguments : list Value) :
  Forall (fun p => len p = -1) fast -> fastFrom fast arguments = None.
Proof.
  induction 1 as [|p fast Hp _ IH]; [reflexivity|].
  simpl. rewrite Hp.
  assert (H : (Z.of_nat (length arguments) =? -1) = false) by (apply Z.eqb_neq; lia).
  now rewrite H.
Qed.

(** The call of a typed function with one def, which is a rest def. *)
Lemma call_one_rest_def (typed : Typed) (f : TypedFunction Fn) (def : Def Fn)
      (pre : list Value -> list Value) (arguments : list Value) :
  Forall (fun p => len p = -1) (fast f) ->
  iStart f = 0%nat ->
  defs f = [def] ->
  def_restParam def = true ->
  preprocess def = Some pre ->
  call typed f arguments
  = if def_test def arguments then applyImpl (fn def) (pre arguments) []
    else Thrown (createError typed (fn_name f) arguments [def]).
Proof.
  intros Hfast Hi Hd Hr Hp. unfold call, generic.
  rewrite (fastFrom_none _ _ Hfast), Hi, Hd. simpl.
  rewrite Hr, Hp. now destruct (def_test def arguments).
Qed.

Lemma call_restNumbers (f1 : Fn) (typed : Typed) (arguments : list Value) :
  call typed (Examples.restNumbers f1) arguments
  = if forallb isNumber arguments && (1 <=? length arguments)%nat
    then Invoked f1 [VArray arguments] []
    else Thrown (createError typed "f" arguments (defs (Examples.restNumbers f1))).
Proof.
  set (sig := {| params := [["number"]]; restParam := true |}).
  set (t := fun args => testsFrom [] args 0
                        && (forallb isNumber (drop 0 args)
                            && (0 + 1 <=? length args)%nat)).
  set (def := {| signature := sig; def_restParam := true; conversion := false;
                 preprocess := Some (createRestParamPreProcess sig);
                 def_test := t; fn := Original f1 |}).
  assert (Hd : defs (Examples.restNumbers f1) = [def]) by (vm_compute; reflexivity).
  assert (Hf : Forall (fun p => len p = -1) (fast (Examples.restNumbers f1)))
    by (vm_compute; repeat constructor).
  assert (Hi : iStart (Examples.restNumbers f1) = 0%nat) by (vm_compute; reflexivity).
  assert (Hn : fn_name (Examples.restNumbers f1) = "f") by (vm_compute; reflexivity).
  rewrite (call_one_rest_def typed _ def _ arguments Hf Hi Hd eq_refl eq_refl).
  rewrite Hd, Hn.
  assert (Ht : def_test def arguments
               = forallb isNumber arguments && (1 <=? length arguments)%nat)
    by reflexivity.
  assert (Hp : createRestParamPreProcess sig arguments = [VArray arguments]).
  { unfold createRestParamPreProcess.
    change (Z.of_nat (length (params sig)) - 1) with (Z.of_nat 0).
    change 0 with (Z.of_nat 0). now rewrite slice_from, slice_upto. }
  rewrite Ht, Hp. reflexivity.
Qed.

Lemma call_numberThenStrings (f2 : Fn) (typed : Typed) (arguments : list Value) :
  call typed (Examples.numberThenStrings f2) arguments
  = if isNumber (arg arguments 0)
       && (forallb isString (drop 1 arguments) && (2 <=? length arguments)%nat)
    then Invoked f2 (take 1 arguments ++ [VArray (drop 1 arguments)]) []
    else Thrown (createError typed "g" arguments
                   (defs (Examples.numberThenStrings f2))).
Proof.
  set (sig := {| params := [["number"]; ["string"]]; restParam := true |}).
  set (t := fun args => testsFrom [isNumber] args 0
                        && (forallb isString (drop 1 args)
                            && (1 + 1 <=? length args)%nat)).
  set (def := {| signature := sig; def_restParam := true; conversion := false;
                 preprocess := Some (createRestParamPreProcess sig);
                 def_test := t; fn := Original f2 |}).
  assert (Hd : defs (Examples.numberThenStrings f2) = [def])
    by (vm_compute; reflexivity).
  assert (Hf : Forall (fun p => len p = -1) (fast (Examples.numberThenStrings f2)))
    by (vm_compute; repeat constructor).
  assert (Hi : iStart (Examples.numberThenStrings f2) = 0%nat)
    by (vm_compute; reflexivity).
  assert (Hn : fn_name (Examples.numberThenStrings f2) = "g")
    by (vm_compute; reflexivity).
  rewrite (call_one_rest_def typed _ def _ arguments Hf Hi Hd eq_refl eq_refl).
  rewrite Hd, Hn.
  assert (Ht : def_test def arguments
               = isNumber (arg arguments 0)
                 && (forallb isString (drop 1 arguments)
                     && (2 <=? length arguments)%nat)).
  { unfold def, t. cbn [def_test testsFrom]. now rewrite andb_true_r. }
  assert (Hp : createRestParamPreProcess sig arguments
               = take 1 arguments ++ [VArray (drop 1 arguments)]).
  { unfold createRestParamPreProcess.
    change (Z.of_nat (length (params sig)) - 1) with (Z.of_nat 1).
    now rewrite slice_from, slice_upto. }
  rewrite Ht, Hp. reflexivity.
Qed.

End Rest.

(** C1, as the code has it: ["...number"] accepts one or more numbers and
    ["number, ...string"] two or more arguments, a number and then strings;
    every other call throws, the call of ["...number"] without argument
    [tooFewArgs]. *)
Theorem rest_requires_an_argument {Fn} (f1 f2 : Fn) (typed : Typed)
        (arguments : list Value) :
  let accepted1 := (1 <= length arguments)%nat
                   /\ Forall (fun x => isNumber x = true) arguments in
  let accepted2 := (2 <= length arguments)%nat
                   /\ isNumber (arg arguments 0) = true
                   /\ Forall (fun x => isString x = true) (drop 1 arguments) in
  createTypedFunction create "f" [("...number", f1)] = OK (Examples.restNumbers f1)
  /\ createTypedFunction create "g" [("number, ...string", f2)]
     = OK (Examples.numberThenStrings f2)
  /\ (call typed (Examples.restNumbers f1) arguments
      = Invoked f1 [VArray arguments] [] <-> accepted1)
  /\ (~ accepted1 ->
      exists err, call typed (Examples.restNumbers f1) arguments = Thrown err)
  /\ (exists err, call typed (Examples.restNumbers f1) [] = Thrown err
                  /\ category err = "tooFewArgs")
  /\ (call typed (Examples.numberThenStrings f2) arguments
      = Invoked f2 [arg arguments 0; VArray (drop 1 arguments)] [] <-> accepted2)
  /\ (~ accepted2 ->
      exists err, call typed (Examples.numberThenStrings f2) arguments = Thrown err).
Proof.
  intros accepted1 accepted2.
  assert (H1 : forallb isNumber arguments && (1 <=? length arguments)%nat = true
               <-> accepted1).
  { unfold accepted1.
    rewrite andb_true_iff, forallb_forall, Nat.leb_le, List.Forall_forall. tauto. }
  assert (H2 : isNumber (arg arguments 0)
               && (forallb isString (drop 1 arguments)
                   && (2 <=? length arguments)%nat) = true
               <-> accepted2).
  { unfold accepted2.
    rewrite !andb_true_iff, forallb_forall, Nat.leb_le, List.Forall_forall. tauto. }
  split; [vm_compute; reflexivity|].
  split; [vm_compute; reflexivity|].
  rewrite !call_restNumbers, call_numberThenStrings.
  split; [|split; [|split; [|split]]].
  - rewrite <- H1.
    destruct (forallb isNumber arguments && (1 <=? length arguments)%nat);
      split; intros H; (reflexivity || discriminate).
  - rewrite <- H1.
    destruct (forallb isNumber arguments && (1 <=? length arguments)%nat);
      intros H; [now destruct H | eexists; reflexivity].
  - eexists. split; [reflexivity|]. vm_compute. reflexivity.
  - destruct (isNumber (arg arguments 0) && _).
    + destruct (proj1 H2 eq_refl) as [Hl Hrest]. split; intros _.
      * now split.
      * destruct arguments as [|a [|b arguments]]; simpl in Hl; try lia.
        reflexivity.
    + split; intros H; [discriminate|]. apply H2 in H. discriminate.
  - rewrite <- H2.
    destruct (isNumber (arg arguments 0) && _);
      intros H; [now destruct H | eexists; reflexivity].
Qed.

(** C1, as stated, fails: ["...number"] called without argument and
    ["number, ...string"] called with one number throw [tooFewArgs]. *)
Lemma rest_rejects_missing_argument :
  (exists err, call create (Examples.restNumbers 1%nat) [] = Thrown err
               /\ data err = tooFewArgs "f" 0 ["number"])
  /\ (exists err, call create (Examples.numberThenStrings 2%nat) [VNumber 1]
                  = Thrown err
                  /\ data err = tooFewArgs "g" 1 ["string"]).
Proof.
  split; eexists; split; vm_compute; reflexivity.
Qed.

(** ** The conversion wrapper *)

Section ConversionWrapper.

Lemma mapM_lookup {A B} (f : A -> Res B) (l : list A) (r : list B) (i : nat) (y : B) :
  mapM f l = OK r -> r !! i = Some y ->
  exists x, l !! i = Some x /\ f x = OK y.
Proof.
  revert r i. induction l as [|a l IH]; intros r i H Hy; simpl in H.
  - injection H as <-. discriminate.
  - destruct (f a) as [b|] eqn:Ef; [|discriminate]. simpl in H.
    destruct (mapM f l) as [bs|] eqn:Em; [|discriminate]. simpl in H.
    injection H as <-. destruct i as [|i]; simpl in Hy.
    + injection Hy as <-. exists a. auto.
    + destruct (IH bs i eq_refl Hy) as [x [Hx Hf]]. exists x. auto.
Qed.

Lemma mapM_In {A B} (f : A -> Res B) (l : list A) (r : list B) (y : B) :
  mapM f l = OK r -> In y r -> exists x, In x l /\ f x = OK y.
Proof.
  revert r. induction l as [|a l IH]; intros r H Hy; simpl in H.
  - injection H as <-. destruct Hy.
  - destruct (f a) as [b|] eqn:Ef; [|discriminate]. simpl in H.
    destruct (mapM f l) as [bs|] eqn:Em; [|discriminate]. simpl in H.
    injection H as <-. destruct Hy as [<-|Hy].
    + exists a. split; [now left | trivial].
    + destruct (IH bs eq_refl Hy) as [x [Hx Hf]]. exists x. split; [now right | trivial].
Qed.

(** What [compileArgConversion] pairs: a conversion of the list and the test
    of its [from] type. *)
Lemma compileArgConversion_In (typed : Typed) conversions compiled t conversion :
  compileArgConversion typed conversions = OK compiled ->
  In (t, conversion) compiled ->
  In conversion conversions /\ findTest typed (from conversion) = OK t.
Proof.
  intros H Hin. destruct (mapM_In _ _ _ _ H Hin) as [c [Hc Hf]].
  destruct (findTest typed (from c)) as [t'|] eqn:E; [|discriminate].
  simpl in Hf. injection Hf as <- <-. auto.
Qed.

(** [convertArg] hands the argument on untouched when no [from] test
    accepts it. *)
Lemma convertArg_none (compiled : CompiledConversion) (arg : Value) :
  (forall t conversion, In (t, conversion) compiled -> t arg = false) ->
  convertArg compiled arg = (arg, []).
Proof.
  induction compiled as [|[t c] compiled IH]; intros H; [reflexivity|].
  simpl. rewrite (H t c (or_introl eq_refl)). apply IH.
  intros t' c' Hin. apply (H t' c'). now right.
Qed.

End ConversionWrapper.

(** C4, as the code has it: in a conversion-expanded def, an argument that
    satisfies the original param's type test and the test of no [from] type
    of the conversions chosen for its position is handed on unchanged, and
    no [convert] is called on it. *)
Theorem convertArg_passes_matching_argument {Fn} (typed : Typed)
        (def twin : Def Fn) (inner : Impl Fn)
        (compiledConversions : list CompiledConversion) (rest : bool)
        (i : nat) (param : Param) (compiled : CompiledConversion)
        (originalTest : Value -> bool) (arg : Value) :
  expandDef typed def = OK (Some twin) ->
  fn twin = Converting inner compiledConversions rest ->
  params (signature def) !! i = Some param ->
  compiledConversions !! i = Some compiled ->
  compileParam typed (Some param) = OK originalTest ->
  originalTest arg = true ->
  (forall conversion fromTest,
      In conversion (paramConversions typed param) ->
      findTest typed (from conversion) = OK fromTest ->
      fromTest arg = false) ->
  convertArg compiled arg = (arg, []).
Proof.
  intros Hexp Hfn Hparam Hcomp _ _ Hfrom.
  unfold expandDef in Hexp.
  destruct (getConversions typed (params (signature def))) as [conversions|] eqn:Eg;
    [|discriminate].
  destruct (compileParams typed _) as [t|]; [|discriminate]. simpl in Hexp.
  unfold compileArgsConversion in Hexp.
  destruct (mapM (compileArgConversion typed) conversions) as [cc|] eqn:Em;
    [|discriminate].
  simpl in Hexp. injection Hexp as <-. simpl in Hfn.
  injection Hfn as _ <- _.
  destruct (mapM_lookup _ _ _ _ _ Em Hcomp) as [cs [Hcs Hc]].
  unfold getConversions in Eg.
  destruct (existsb _ _); [|discriminate]. injection Eg as <-.
  rewrite list_lookup_fmap, Hparam in Hcs. injection Hcs as <-.
  apply convertArg_none. intros t' c Hin.
  destruct (compileArgConversion_In _ _ _ _ _ Hc Hin) as [Hin' Ht].
  exact (Hfrom c t' Hin' Ht).
Qed.


(** C4 at work: with [string -> number] chosen for the param [number], the
    number 3 is handed on. *)
Lemma convertArg_passes_matching_argument_witness :
  exists compiled,
    map (fun c => from (snd c)) compiled = ["string"]
    /\ convertArg compiled (VNumber 3) = (VNumber 3, []).
Proof.
  eexists. split; [|
  eapply (convertArg_passes_matching_argument Examples.withTwoConversions
            {| signature := {| params := [["number"]; ["Array"]]; restParam := false |};
               def_restParam := false; conversion := false; preprocess := None;
               def_test := fun _ => true; fn := Original 1%nat |}
            _ _ _ _ 0%nat ["number"] _ _ (VNumber 3))].
  2: vm_compute; reflexivity.
  2: vm_compute; reflexivity.
  2: reflexivity.
  2: vm_compute; reflexivity.
  2: vm_compute; reflexivity.
  2: reflexivity.
  2: { intros conversion fromTest Hin Hf. vm_compute in Hin.
       destruct Hin as [<-|[]]. vm_compute in Hf. injection Hf as <-.
       reflexivity. }
  reflexivity.
Defined.

(** C4, as stated, fails: [Object -> Array] is chosen for the param
    [Array]; the array passed at position 1 satisfies [Array], the original
    param's test, and [Object], so the wrapper converts it. *)
Lemma conversion_of_matching_argument :
  let typed := Examples.withTwoConversions in
  let f := Examples.numberAndArray in
  let items := VArray [VNumber 1; VNumber 2] in
  exists original twin originalTest,
    defs f !! 0%nat = Some original
    /\ expandDef typed original = OK (Some twin)
    /\ compileParam typed (params (signature original) !! 1%nat) = OK originalTest
    /\ originalTest items = true
    /\ call typed f [VString "5"; items]
       = applyImpl (fn twin) [VString "5"; items] []
    /\ call typed f [VString "5"; items]
       = Invoked 1%nat [VNumber 1; VArray [items]]
                 [(Examples.stringToNumber, VString "5");
                  (Examples.objectToArray, items)].
Proof.
  cbv zeta. do 3 eexists.
  split; [vm_compute; reflexivity|].
  split; [vm_compute; reflexivity|].
  split; [vm_compute; reflexivity|].
  repeat split; vm_compute; reflexivity.
Qed.

(** ** Strings: [split], [join] and [trim] *)

Module StrFacts.

Import Str Canon.

#[local] Arguments String.append !_ _ / : simpl nomatch.

Lemma has_char_app (c : ascii) (a b : string) :
  has_char c (a +:+ b) = has_char c a || has_char c b.
Proof.
  induction a as [|x a IH]; simpl; [reflexivity|].
  now rewrite IH, orb_assoc.
Qed.

Lemma has_char_ltrim (c : ascii) (s : string) :
  has_char c (ltrim s) = true -> has_char c s = true.
Proof.
  induction s as [|a s IH]; simpl; [trivial|].
  destruct (is_ws a); simpl; [|trivial].
  intros H. rewrite (IH H). apply orb_true_r.
Qed.

Lemma has_char_rtrim (c : ascii) (s : string) :
  has_char c (rtrim s) = true -> has_char c s = true.
Proof.
  induction s as [|a s IH]; simpl; [trivial|].
  destruct (is_ws a && is_empty (rtrim s)); simpl; [discriminate|].
  intros [H|H]%orb_true_iff; rewrite ?H, ?(IH H); [reflexivity | apply orb_true_r].
Qed.

Lemma has_char_trim (c : ascii) (s : string) :
  has_char c s = false -> has_char c (trim s) = false.
Proof.
  intros H. unfold trim. destruct (has_char c (rtrim (ltrim s))) eqn:E; [|reflexivity].
  apply has_char_rtrim, has_char_ltrim in E. congruence.
Qed.

Lemma has_char_drop (c : ascii) (n : nat) (s : string) :
  has_char c s = false -> has_char c (drop n s) = false.
Proof.
  revert s. induction n as [|n IH]; intros [|a s]; simpl; trivial.
  intros [_ H]%orb_false_iff. now apply IH.
Qed.

(** *** [split] *)

Lemma split_not_nil (c : ascii) (s : string) : split c s <> [].
Proof.
  induction s as [|a s IH]; simpl; [discriminate|].
  destruct (Ascii.eqb a c); [discriminate|].
  destruct (split c s); [congruence | discriminate].
Qed.

Lemma split_free (c : ascii) (s : string) :
  has_char c s = false -> split c s = [s].
Proof.
  induction s as [|a s IH]; simpl; [reflexivity|].
  intros [Ha Hs]%orb_false_iff. rewrite Ha, (IH Hs). reflexivity.
Qed.

Lemma split_app (c : ascii) (p s : string) :
  has_char c p = false ->
  split c (p +:+ String c s) = p :: split c s.
Proof.
  induction p as [|a p IH]; simpl.
  - intros _. now rewrite Ascii.eqb_refl.
  - intros [Ha Hp]%orb_false_iff. rewrite Ha, (IH Hp). reflexivity.
Qed.

(** No piece holds the separator; a piece holds only characters of the
    string. *)
Lemma split_pieces (c : ascii) (s p : string) :
  In p (split c s) ->
  has_char c p = false
  /\ forall c', has_char c' p = true -> has_char c' s = true.
Proof.
  revert p. induction s as [|a s IH]; simpl; intros p Hp.
  - destruct Hp as [<-|[]]. split; [reflexivity | trivial].
  - destruct (Ascii.eqb a c) eqn:Ea.
    + destruct Hp as [<-|Hp].
      * split; [reflexivity | discriminate].
      * destruct (IH p Hp) as [H1 H2]. split; [trivial|].
        intros c' H. rewrite (H2 c' H). apply orb_true_r.
    + destruct (split c s) as [|q qs] eqn:Es.
      * destruct (split_not_nil c s Es).
      * destruct Hp as [<-|Hp].
        -- destruct (IH q (or_introl eq_refl)) as [H1 H2]. simpl. rewrite Ea, H1.
           split; [reflexivity|]. intros c' [H|H]%orb_true_iff.
           ++ now rewrite H.
           ++ rewrite (H2 c' H). apply orb_true_r.
        -- destruct (IH p (or_intror Hp)) as [H1 H2]. split; [trivial|].
           intros c' H. rewrite (H2 c' H). apply orb_true_r.
Qed.

(** Splitting what was joined gives the pieces back when no piece holds
    the separator. *)
Lemma split_join (c : ascii) (l : list string) :
  l <> [] ->
  Forall (fun p => has_char c p = false) l ->
  split c (join (String c EmptyString) l) = l.
Proof.
  intros Hne H. induction H as [|p l Hp Hl IH]; [congruence|].
  destruct l as [|q l]; [now apply split_free|].
  change (join (String c EmptyString) (p :: q :: l))
    with (p +:+ String c (join (String c EmptyString) (q :: l))).
  rewrite (split_app c p _ Hp), IH; [reflexivity | discriminate].
Qed.

(** *** [trim] *)

Lemma ltrim_clean (s : string) : starts_clean s = true -> ltrim s = s.
Proof. destruct s as [|a s]; simpl; [trivial|]. now destruct (is_ws a). Qed.

Lemma starts_clean_ltrim (s : string) : starts_clean (ltrim s) = true.
Proof.
  induction s as [|a s IH]; simpl; [reflexivity|].
  destruct (is_ws a) eqn:E; [exact IH | simpl; now rewrite E].
Qed.

Lemma starts_clean_rtrim (s : string) :
  starts_clean s = true -> starts_clean (rtrim s) = true.
Proof.
  destruct s as [|a s]; simpl; [trivial|].
  intros H. destruct (is_ws a) eqn:E; [discriminate|]. simpl. now rewrite E.
Qed.

Lemma rtrim_idem (s : string) : rtrim (rtrim s) = rtrim s.
Proof.
  induction s as [|a s IH]; simpl; [reflexivity|].
  destruct (is_ws a && is_empty (rtrim s)) eqn:E; simpl; [reflexivity|].
  now rewrite IH, E.
Qed.

Lemma rtrim_app (a b : string) :
  b <> EmptyString -> rtrim b = b -> rtrim (a +:+ b) = a +:+ b.
Proof.
  intros Hne Hb. induction a as [|x a IH]; simpl; [exact Hb|].
  rewrite IH. destruct (a +:+ b) eqn:E.
  - destruct a; simpl in E; [congruence | discriminate].
  - simpl. now rewrite andb_false_r.
Qed.

Lemma trim_fixed (s : string) :
  starts_clean s = true -> rtrim s = s -> trim s = s.
Proof. intros H1 H2. unfold trim. now rewrite (ltrim_clean s H1). Qed.

Lemma trim_starts_clean (s : string) : starts_clean (trim s) = true.
Proof. apply starts_clean_rtrim, starts_clean_ltrim. Qed.

Lemma trim_rtrim (s : string) : rtrim (trim s) = trim s.
Proof. apply rtrim_idem. Qed.

Lemma starts_clean_app (a b : string) :
  a <> EmptyString -> starts_clean a = true -> starts_clean (a +:+ b) = true.
Proof. destruct a; [congruence | trivial]. Qed.

Lemma app_not_empty_l (a b : string) : a <> EmptyString -> a +:+ b <> EmptyString.
Proof. destruct a; simpl; [congruence | discriminate]. Qed.

End StrFacts.

(** ** Canonical keys *)

Section CanonicalKeys.

Import Str Canon StrFacts.

#[local] Arguments String.append !_ _ / : simpl nomatch.
#[local] Arguments Str.drop : simpl never.

Lemma clean_name_trim (y : string) :
  has_char "," y = false -> trim y <> EmptyString -> clean_name (trim y).
Proof.
  intros Hc Hne. repeat split; trivial.
  - apply trim_starts_clean.
  - apply trim_rtrim.
  - now apply has_char_trim.
Qed.

Lemma parseParam_clean (x : string) :
  has_char "," x = false -> Forall clean_name (parseParam x).
Proof.
  intros Hx. apply List.Forall_forall. intros t Ht.
  unfold parseParam in Ht. apply filter_In in Ht as [Ht Hne].
  apply in_map_iff in Ht as [y [<- Hy]].
  apply clean_name_trim.
  - destruct (split_pieces _ _ _ Hy) as [_ H].
    destruct (has_char "," y) eqn:E; [|reflexivity].
    apply H in E. congruence.
  - intros E. rewrite E in Hne. discriminate.
Qed.

Lemma parseParamsFrom_clean (len index : nat) (arr : list string) r :
  Forall (fun p => has_char "," p = false) arr ->
  parseParamsFrom len index arr = OK r ->
  Forall (Forall clean_name) (fst r).
Proof.
  intros H. revert index r.
  induction H as [|param arr Hp _ IH]; intros index r Hr; simpl in Hr.
  - injection Hr as <-. constructor.
  - destruct (starts_with "..." param && negb (index =? len - 1)%nat);
      [discriminate|].
    destruct (parseParamsFrom len (S index) arr) as [pushed|] eqn:E;
      [|discriminate].
    simpl in Hr. injection Hr as <-. cbn [fst]. constructor; [|now apply (IH (S index))].
    apply parseParam_clean.
    destruct (starts_with "..." param); [|trivial].
    destruct (3 <? String.length param)%nat; [now apply has_char_drop | reflexivity].
Qed.

Lemma parseParams_clean (signature : string) (parsed : Signature) :
  parseParams signature = OK parsed ->
  Forall (Forall clean_name) (params parsed).
Proof.
  unfold parseParams. destruct (is_empty (trim signature)).
  - intros H. injection H as <-. constructor.
  - destruct (parseParamsFrom _ 0 _) as [pushed|] eqn:E; [|discriminate].
    simpl. intros H. injection H as <-. simpl.
    eapply parseParamsFrom_clean; [|exact E].
    apply List.Forall_forall. intros p Hp.
    apply in_map_iff in Hp as [y [<- Hy]].
    apply has_char_trim. now destruct (split_pieces _ _ _ Hy).
Qed.

Lemma filterParams_clean (typed : Typed) (ps ps' : list Param) :
  Forall (Forall clean_name) ps ->
  filterParams typed ps = Some ps' ->
  clean_params ps'.
Proof.
  intros H. revert ps'. induction H as [|p ps Hp _ IH]; intros ps' Hf; simpl in Hf.
  - injection Hf as <-. constructor.
  - destruct (List.filter (notIgnore typed) p) as [|t ts] eqn:E; [discriminate|].
    destruct (filterParams typed ps) as [qs|]; [|discriminate].
    simpl in Hf. injection Hf as <-. constructor; [|now apply IH].
    split; [discriminate|]. rewrite <- E.
    apply List.Forall_forall. intros x Hx. apply filter_In in Hx as [Hx _].
    revert x Hx. now apply List.Forall_forall.
Qed.

(** The signature of every def the parser makes has clean params. *)
Lemma normalize_clean (typed : Typed) (key : string) (signature : Signature) :
  normalize typed key = Some signature -> clean_params (params signature).
Proof.
  unfold normalize, filterIgnoredTypes.
  destruct (parseParams key) as [parsed|] eqn:E; [|discriminate].
  destruct (filterParams typed (params parsed)) as [ps|] eqn:Ef; [|discriminate].
  simpl. intros H. injection H as <-. simpl.
  eapply filterParams_clean; [|exact Ef]. now apply parseParams_clean in E.
Qed.

(** The types of a param joined by [|] read as one clean name. *)
Lemma join_names_clean (p : Param) :
  p <> [] -> Forall clean_name p -> clean_name (join "|" p).
Proof.
  intros Hne H. induction H as [|t p Ht Hp IH]; [congruence|].
  destruct p as [|u p]; [exact Ht|].
  change (join "|" (t :: u :: p)) with (t +:+ String "|" (join "|" (u :: p))).
  destruct Ht as [Ht1 [Ht2 [Ht3 Ht4]]].
  destruct (IH ltac:(discriminate)) as [J1 [J2 [J3 J4]]].
  repeat split.
  - now apply app_not_empty_l.
  - now apply starts_clean_app.
  - apply rtrim_app; [discriminate|].
    change (String "|" (join "|" (u :: p)))
      with (String "|" EmptyString +:+ join "|" (u :: p)).
    now apply rtrim_app.
  - rewrite has_char_app, Ht4.
    change (has_char "," (String "|" (join "|" (u :: p))))
      with (Ascii.eqb "|" "," || has_char "," (join "|" (u :: p))).
    now rewrite J4.
Qed.

(** One param as [stringifyParams] prints it. *)
Lemma piece_clean (rest : bool) (p : Param) :
  p <> [] -> Forall clean_name p ->
  let piece := (if rest then "..." else EmptyString) +:+ join "|" p in
  has_char "," piece = false /\ trim piece = piece.
Proof.
  intros Hne H. destruct (join_names_clean p Hne H) as [J1 [J2 [J3 J4]]].
  destruct rest; cbv zeta.
  - split.
    + rewrite has_char_app, J4. reflexivity.
    + apply trim_fixed; [reflexivity|]. now apply rtrim_app.
  - split; [exact J4|]. now apply trim_fixed.
Qed.

Lemma map_fixed {A} (f : A -> A) (l : list A) :
  Forall (fun x => f x = x) l -> map f l = l.
Proof. induction 1 as [|x l Hx _ IH]; simpl; [reflexivity | now rewrite Hx, IH]. Qed.

(** [find]'s normalisation leaves a canonical key as it is. *)
Lemma stringifyParams_fixed (signature : Signature) :
  clean_params (params signature) ->
  join "," (map trim (split "," (stringifyParams signature)))
  = stringifyParams signature.
Proof.
  intros Hc. unfold stringifyParams.
  remember (imap (fun index param => _ +:+ join "|" param) (params signature))
    as pieces eqn:Epieces.
  assert (Hp : Forall (fun piece => has_char "," piece = false /\ trim piece = piece)
                      pieces).
  { apply List.Forall_forall. intros piece Hin. rewrite Epieces in Hin.
    apply list_elem_of_In, elem_of_lookup_imap in Hin as [i [p [-> Hi]]].
    apply list_elem_of_lookup_2, list_elem_of_In in Hi.
    destruct (proj1 (List.Forall_forall _ _) Hc p Hi) as [Hne Hcl].
    now apply piece_clean. }
  clear Epieces. destruct (decide (pieces = [])) as [->|Hne]; [reflexivity|].
  change "," with (String "," EmptyString) at 2.
  rewrite split_join; trivial.
  - rewrite map_fixed; [reflexivity|].
    eapply Forall_impl; [exact Hp|]. now intros x [_ Hx].
  - eapply Forall_impl; [exact Hp|]. now intros x [Hx _].
Qed.

End CanonicalKeys.

(** ** The defs of a typed function and its [signatures] *)

Section Pipeline.

Context {Fn : Type}.
Implicit Types (def : Def Fn) (entry : string * Fn).

Import Canon.

(** What [createTypedFunction] returns when it does not throw. *)
Lemma createTypedFunction_OK (typed : Typed) (name : string)
      (sigs : list (string * Fn)) (f : TypedFunction Fn) :
  createTypedFunction typed name sigs = OK f ->
  exists parsed twins,
    parseDefs typed sigs = OK parsed
    /\ expandDefs typed (sortDefs (createTypesIndexMap (types typed)) parsed)
       = OK twins
    /\ defs f = sortDefs (createTypesIndexMap (types typed)) parsed ++ twins
    /\ storeSignatures (defs f) (∅, None)
       = OK (signatures f, signatures_proto f)
    /\ fn_name f = name.
Proof.
  unfold createTypedFunction. destruct (length sigs =? 0)%nat; [discriminate|].
  destruct (parseDefs typed sigs) as [parsed|] eqn:Ep; [|discriminate]. cbn [bind].
  destruct (expandDefs typed _) as [twins|] eqn:Et; [|discriminate]. cbn [bind].
  destruct (mapM _ _) as [tests0|]; [|discriminate]. cbn [bind].
  destruct (mapM _ _) as [tests1|]; [|discriminate]. cbn [bind].
  destruct (storeSignatures _ _) as [[own proto]|] eqn:Es; [|discriminate].
  cbn [bind]. intros H. injection H as <-.
  cbn [defs signatures signatures_proto fn_name fst snd].
  exists parsed, twins. repeat split; trivial.
Qed.

(** The def made for one property. *)
Lemma parseDef_Some (typed : Typed) entry def :
  parseDef typed entry = OK (Some def) ->
  normalize typed (fst entry) = Some (signature def)
  /\ conversion def = false
  /\ fn def = Original (snd entry).
Proof.
  unfold parseDef, normalize.
  destruct (parseParams (fst entry)) as [parsed|]; [|discriminate]. simpl.
  destruct (filterIgnoredTypes typed parsed) as [sig|]; [|discriminate].
  destruct (compileParams typed sig) as [t|]; [|discriminate]. simpl.
  intros H. injection H as <-. simpl. auto.
Qed.

Lemma parseDef_normalize (typed : Typed) entry r :
  parseDef typed entry = OK r ->
  match normalize typed (fst entry) with
  | Some sig => exists def, r = Some def /\ signature def = sig
  | None => r = None
  end.
Proof.
  unfold parseDef, normalize.
  destruct (parseParams (fst entry)) as [parsed|]; [|discriminate]. simpl.
  destruct (filterIgnoredTypes typed parsed) as [sig|].
  - destruct (compileParams typed sig) as [t|]; [|discriminate]. simpl.
    intros H. injection H as <-. eauto.
  - intros H. now injection H as <-.
Qed.

Lemma parseDefs_In (typed : Typed) (sigs : list (string * Fn)) parsed def :
  parseDefs typed sigs = OK parsed ->
  In def parsed <->
  exists entry, In entry sigs /\ parseDef typed entry = OK (Some def).
Proof.
  revert parsed. induction sigs as [|entry sigs IH]; intros parsed H; simpl in H.
  - injection H as <-. split; [intros [] | intros [e [[] _]]].
  - destruct (parseDef typed entry) as [r|] eqn:Er; [|discriminate]. simpl in H.
    destruct (parseDefs typed sigs) as [ds|]; [|discriminate]. simpl in H.
    injection H as <-. specialize (IH ds eq_refl).
    destruct r as [d|]; simpl; rewrite ?IH; split.
    + intros [<-|[e [He Hd]]]; [exists entry; auto | exists e; auto].
    + intros [e [[<-|He] Hd]]; [left; congruence | right; eauto].
    + intros [e [He Hd]]. exists e; auto.
    + intros [e [[<-|He] Hd]]; [congruence | eauto].
Qed.

Lemma parseDefs_entry (typed : Typed) (sigs : list (string * Fn)) parsed entry :
  parseDefs typed sigs = OK parsed ->
  In entry sigs ->
  exists r, parseDef typed entry = OK r.
Proof.
  revert parsed. induction sigs as [|e sigs IH]; intros parsed H Hin; [destruct Hin|].
  simpl in H. destruct (parseDef typed e) as [r|] eqn:Er; [|discriminate].
  simpl in H. destruct (parseDefs typed sigs) as [ds|]; [|discriminate].
  destruct Hin as [<-|Hin]; [eauto | exact (IH ds eq_refl Hin)].
Qed.

(** Sorting moves defs and neither adds nor drops one. *)
Lemma insertDef_In typesIndexMap def a (sorted : list (Def Fn)) :
  In def (insertDef typesIndexMap a sorted) <-> def = a \/ In def sorted.
Proof.
  induction sorted as [|b sorted IH]; simpl; [intuition|].
  destruct (compareSignatures _ _ _) as [c|]; [|simpl; intuition].
  destruct (0 <? c); simpl; [rewrite IH|]; intuition.
Qed.

Lemma sortDefs_In typesIndexMap def (l : list (Def Fn)) :
  In def (sortDefs typesIndexMap l) <-> In def l.
Proof.
  induction l as [|a l IH]; simpl; [reflexivity|].
  rewrite insertDef_In, IH. intuition.
Qed.

Lemma expandDefs_conversion (typed : Typed) (l twins : list (Def Fn)) def :
  expandDefs typed l = OK twins -> In def twins -> conversion def = true.
Proof.
  revert twins. induction l as [|a l IH]; intros twins H Hin; simpl in H.
  - injection H as <-. destruct Hin.
  - destruct (expandDef typed a) as [r|] eqn:Ea; [|discriminate]. simpl in H.
    destruct (expandDefs typed l) as [ts|]; [|discriminate]. simpl in H.
    injection H as <-.
    assert (Hr : forall d, r = Some d -> conversion d = true).
    { intros d ->. unfold expandDef in Ea.
      destruct (getConversions typed _); [|discriminate].
      destruct (compileParams typed _); [|discriminate]. simpl in Ea.
      destruct (compileArgsConversion typed _ _ _); [|discriminate]. simpl in Ea.
      now injection Ea as <-. }
    destruct r as [d|]; [destruct Hin as [<-|Hin]|]; eauto.
Qed.

(** What an assignment that does not throw leaves. *)
Lemma assignSignature_OK (store store' : Store Fn) (key : string)
      (impl : Impl Fn) :
  assignSignature store key impl = OK store' ->
  (key = "__proto__" /\ store' = (fst store, Some impl))
  \/ (key <> "__proto__" /\ store' = (<[key := impl]> (fst store), snd store)).
Proof.
  unfold assignSignature. destruct (String.eqb_spec key "__proto__") as [->|Hk].
  - intros H. injection H as <-. now left.
  - intros H. right. split; [exact Hk|].
    destruct (fst store !! key), (snd store);
      try (injection H as <-; reflexivity).
    destruct (existsb _ _); [discriminate|]. now injection H as <-.
Qed.

(** The own properties that [storeSignatures] leaves, from the object
    [store] on. *)
Lemma storeSignatures_lookup (l : list (Def Fn)) (store store' : Store Fn)
      (key : string) (impl : Impl Fn) :
  storeSignatures l store = OK store' ->
  fst store' !! key = Some impl ->
  fst store !! key = Some impl
  \/ exists def, In def l /\ conversion def = false
                 /\ stringifyParams (signature def) = key /\ fn def = impl
                 /\ key <> "__proto__".
Proof.
  revert store. induction l as [|a l IH]; intros store H Hk; cbn [storeSignatures] in H.
  - injection H as <-. now left.
  - destruct (conversion a) eqn:Ea.
    + destruct (IH _ H Hk) as [Hs|[def [Hd Hr]]]; [now left|].
      right. exists def. split; [now right | exact Hr].
    + destruct (assignSignature store _ _) as [store1|] eqn:E1; [|discriminate].
      cbn [bind] in H.
      destruct (IH _ H Hk) as [Hs|[def [Hd Hr]]];
        [|right; exists def; split; [now right | exact Hr]].
      destruct (assignSignature_OK _ _ _ _ E1) as [[_ ->]|[Hp ->]];
        cbn [fst] in Hs; [now left|].
      destruct (decide (stringifyParams (signature a) = key)) as [Hkey|Hkey].
      * rewrite Hkey, lookup_insert_eq in Hs. injection Hs as <-.
        right. exists a. repeat split; auto; [now left | congruence].
      * rewrite lookup_insert_ne in Hs by exact Hkey. now left.
Qed.

Lemma storeSignatures_is_Some (l : list (Def Fn)) (store store' : Store Fn)
      (key : string) :
  storeSignatures l store = OK store' ->
  is_Some (fst store !! key)
  \/ (exists def, In def l /\ conversion def = false
                  /\ stringifyParams (signature def) = key
                  /\ key <> "__proto__") ->
  is_Some (fst store' !! key).
Proof.
  revert store. induction l as [|a l IH]; intros store H Hk; cbn [storeSignatures] in H.
  - injection H as <-. destruct Hk as [Hk|[def [[] _]]]. exact Hk.
  - destruct (conversion a) eqn:Ea.
    + apply (IH _ H). destruct Hk as [Hk|[def [[<-|Hd] [Hc Hr]]]]; [now left | congruence|].
      right. eauto.
    + destruct (assignSignature store _ _) as [store1|] eqn:E1; [|discriminate].
      cbn [bind] in H. apply (IH _ H).
      destruct (assignSignature_OK _ _ _ _ E1) as [[Hp ->]|[Hp ->]]; cbn [fst].
      * destruct Hk as [Hk|[def [[<-|Hd] [Hc [Hkey Hne]]]]];
          [now left | congruence | right; eauto].
      * destruct Hk as [Hk|[def [[<-|Hd] [Hc [Hkey Hne]]]]].
        -- left. apply lookup_insert_is_Some'. now right.
        -- left. rewrite Hkey. apply lookup_insert_is_Some'. now left.
        -- right. eauto.
Qed.

(** The prototype that [storeSignatures] leaves. *)
Lemma storeSignatures_proto (l : list (Def Fn)) (store store' : Store Fn)
      (holder : Impl Fn) :
  storeSignatures l store = OK store' ->
  snd store' = Some holder ->
  snd store = Some holder
  \/ exists def, In def l /\ conversion def = false
                 /\ stringifyParams (signature def) = "__proto__"
                 /\ fn def = holder.
Proof.
  revert store. induction l as [|a l IH]; intros store H Hk; cbn [storeSignatures] in H.
  - injection H as <-. now left.
  - destruct (conversion a) eqn:Ea.
    + destruct (IH _ H Hk) as [Hs|[def [Hd Hr]]]; [now left|].
      right. exists def. split; [now right | exact Hr].
    + destruct (assignSignature store _ _) as [store1|] eqn:E1; [|discriminate].
      cbn [bind] in H.
      destruct (IH _ H Hk) as [Hs|[def [Hd Hr]]];
        [|right; exists def; split; [now right | exact Hr]].
      destruct (assignSignature_OK _ _ _ _ E1) as [[Hp ->]|[Hp ->]];
        cbn [snd] in Hs; [|now left].
      injection Hs as <-. right. exists a. repeat split; auto. now left.
Qed.

(** The assignment that throws. *)
Lemma assignSignature_Err (store : Store Fn) (key : string) (impl : Impl Fn)
      (e : CompileError) :
  assignSignature store key impl = Err e ->
  e = ReadOnlyProperty key /\ In key function_read_only
  /\ is_Some (snd store) /\ fst store !! key = None.
Proof.
  unfold assignSignature. destruct (String.eqb key "__proto__"); [discriminate|].
  destruct (fst store !! key); [discriminate|].
  destruct (snd store); [|discriminate].
  destruct (existsb (String.eqb key) function_read_only) eqn:Ex; [|discriminate].
  intros H. injection H as <-. repeat split; eauto.
  apply existsb_exists in Ex as [x [Hx Ex]]. apply String.eqb_eq in Ex.
  now subst.
Qed.

Lemma storeSignatures_Err (l : list (Def Fn)) (store : Store Fn)
      (e : CompileError) :
  storeSignatures l store = Err e ->
  exists def, In def l /\ conversion def = false
              /\ e = ReadOnlyProperty (stringifyParams (signature def))
              /\ In (stringifyParams (signature def)) function_read_only.
Proof.
  revert store. induction l as [|a l IH]; intros store H; cbn [storeSignatures] in H;
    [discriminate|].
  destruct (conversion a) eqn:Ea.
  - destruct (IH _ H) as [def [Hd Hr]]. exists def. split; [now right | exact Hr].
  - destruct (assignSignature store _ _) as [store1|e1] eqn:E1; cbn [bind] in H.
    + destruct (IH _ H) as [def [Hd Hr]]. exists def. split; [now right | exact Hr].
    + injection H as <-. apply assignSignature_Err in E1 as [-> [Hin _]].
      exists a. repeat split; auto. now left.
Qed.

(** No assignment throws as long as the prototype is [Object.prototype]. *)
Lemma storeSignatures_OK (l : list (Def Fn)) (store : Store Fn) :
  snd store = None ->
  (forall def, In def l -> conversion def = false ->
               stringifyParams (signature def) <> "__proto__") ->
  exists own, storeSignatures l store = OK (own, None).
Proof.
  revert store. induction l as [|a l IH]; intros [own proto] Hs Hl;
    cbn [snd] in Hs; subst proto; cbn [storeSignatures].
  - eauto.
  - assert (Hl' : forall def, In def l -> conversion def = false ->
                    stringifyParams (signature def) <> "__proto__")
      by (intros def Hd; apply Hl; now right).
    destruct (conversion a) eqn:Ea; [now apply IH|].
    unfold assignSignature. cbn [fst snd].
    replace (String.eqb (stringifyParams (signature a)) "__proto__") with false
      by (symmetry; apply String.eqb_neq, Hl; [now left | exact Ea]).
    replace (match own !! stringifyParams (signature a) with
             | Some _ | _ =>
                 OK (<[stringifyParams (signature a) := fn a]> own, None)
             end)
      with (OK (<[stringifyParams (signature a) := fn a]> own, @None (Impl Fn)))
      by (now destruct (own !! stringifyParams (signature a))).
    cbn [bind]. now apply IH.
Qed.

(** The defs that are no conversion are the defs made from the properties
    of the signatures object. *)
Lemma original_defs (typed : Typed) (name : string) (sigs : list (string * Fn))
      (f : TypedFunction Fn) def :
  createTypedFunction typed name sigs = OK f ->
  (In def (defs f) /\ conversion def = false)
  <-> exists entry, In entry sigs /\ parseDef typed entry = OK (Some def).
Proof.
  intros H. destruct (createTypedFunction_OK _ _ _ _ H)
    as [parsed [twins [Hp [Ht [Hd _]]]]].
  rewrite Hd, in_app_iff, sortDefs_In, <- (parseDefs_In typed sigs parsed def Hp).
  split.
  - intros [[Hin|Hin] Hc]; [trivial|].
    rewrite (expandDefs_conversion _ _ _ _ Ht Hin) in Hc. discriminate.
  - intros Hin. split; [now left|].
    apply (parseDefs_In typed sigs parsed def Hp) in Hin as [entry [_ He]].
    now apply parseDef_Some in He.
Qed.

(** What is stored under a key of [signatures]. *)
Lemma signatures_lookup (typed : Typed) (name : string) (sigs : list (string * Fn))
      (f : TypedFunction Fn) (key : string) (impl : Impl Fn) :
  createTypedFunction typed name sigs = OK f ->
  signatures f !! key = Some impl ->
  exists entry signature,
    In entry sigs
    /\ normalize typed (fst entry) = Some signature
    /\ stringifyParams signature = key
    /\ impl = Original (snd entry)
    /\ key <> "__proto__".
Proof.
  intros H Hk.
  destruct (createTypedFunction_OK _ _ _ _ H) as [parsed [twins [_ [_ [_ [Hs _]]]]]].
  destruct (storeSignatures_lookup _ _ _ _ _ Hs Hk)
    as [Hk'|[def [Hd [Hc [Hkey [Hfn Hp]]]]]].
  - cbn [fst] in Hk'. rewrite lookup_empty in Hk'. discriminate.
  - destruct (proj1 (original_defs _ _ _ _ def H) (conj Hd Hc)) as [entry [He Hpd]].
    apply parseDef_Some in Hpd as [Hn [_ Hf]].
    exists entry, (signature def). rewrite <- Hfn. auto.
Qed.

(** Every signature of the object passed that survives has its key,
    unless the key is [__proto__]. *)
Lemma signatures_is_Some (typed : Typed) (name : string) (sigs : list (string * Fn))
      (f : TypedFunction Fn) entry signature :
  createTypedFunction typed name sigs = OK f ->
  In entry sigs ->
  normalize typed (fst entry) = Some signature ->
  stringifyParams signature <> "__proto__" ->
  is_Some (signatures f !! stringifyParams signature).
Proof.
  intros H He Hn Hk.
  destruct (createTypedFunction_OK _ _ _ _ H) as [parsed [twins [Hp [_ [_ [Hs _]]]]]].
  apply (storeSignatures_is_Some _ _ _ _ Hs). right.
  destruct (parseDefs_entry _ _ _ _ Hp He) as [r Hr].
  pose proof (parseDef_normalize _ _ _ Hr) as Hm. rewrite Hn in Hm.
  destruct Hm as [def [-> Hsig]]. exists def.
  destruct (proj2 (original_defs _ _ _ _ def H)) as [Hd Hc]; [eauto|].
  rewrite Hsig. auto.
Qed.

(** The prototype of [signatures] is the function given for a signature
    whose canonical text is [__proto__]. *)
Lemma signatures_proto_Some (typed : Typed) (name : string)
      (sigs : list (string * Fn)) (f : TypedFunction Fn) (holder : Impl Fn) :
  createTypedFunction typed name sigs = OK f ->
  signatures_proto f = Some holder ->
  exists def, In def (defs f) /\ conversion def = false
              /\ stringifyParams (signature def) = "__proto__"
              /\ fn def = holder.
Proof.
  intros H Hk.
  destruct (createTypedFunction_OK _ _ _ _ H) as [parsed [twins [_ [_ [_ [Hs _]]]]]].
  destruct (storeSignatures_proto _ _ _ _ Hs Hk) as [Hk'|Hd]; [discriminate|].
  exact Hd.
Qed.

Lemma signatures_own_def (typed : Typed) (name : string)
      (sigs : list (string * Fn)) (f : TypedFunction Fn) (key : string)
      (impl : Impl Fn) :
  createTypedFunction typed name sigs = OK f ->
  signatures f !! key = Some impl ->
  key <> "__proto__"
  /\ exists def, In def (defs f) /\ conversion def = false
                 /\ stringifyParams (signature def) = key
                 /\ fn def = impl.
Proof.
  intros H Hk.
  destruct (createTypedFunction_OK _ _ _ _ H) as [parsed [twins [_ [_ [_ [Hs _]]]]]].
  destruct (storeSignatures_lookup _ _ _ _ _ Hs Hk)
    as [Hk'|[def [Hd [Hc [Hkey [Hfn Hp]]]]]].
  - cbn [fst] in Hk'. rewrite lookup_empty in Hk'. discriminate.
  - split; [exact Hp|]. exists def. auto.
Qed.

(** [find] with a key of [signatures] returns what is stored under it. *)
Lemma find_stored (typed : Typed) (name : string) (sigs : list (string * Fn))
      (f : TypedFunction Fn) (key : string) (impl : Impl Fn) :
  createTypedFunction typed name sigs = OK f ->
  signatures f !! key = Some impl ->
  find (Some (signatures f)) (signatures_proto f) (fn_name f) (ofString key)
  = Found impl.
Proof.
  intros H Hk.
  destruct (signatures_lookup _ _ _ _ _ _ H Hk) as [entry [sig [_ [Hn [<- _]]]]].
  unfold find.
  rewrite (stringifyParams_fixed sig (normalize_clean _ _ _ Hn)), Hk.
  reflexivity.
Qed.

(** [find] returns a function of the typed function where the string,
    split at commas, trimmed and joined again, is one of its keys, or is
    [__proto__] when a function has been made the prototype. *)
Lemma find_Found (typed : Typed) (name : string) (sigs : list (string * Fn))
      (f : TypedFunction Fn) (arr : list string) (impl : Impl Fn) :
  createTypedFunction typed name sigs = OK f ->
  find (Some (signatures f)) (signatures_proto f) (fn_name f) (ofArray arr)
  = Found impl
  <-> signatures f !! Str.join "," arr = Some impl
      \/ (Str.join "," arr = "__proto__" /\ signatures_proto f = Some impl).
Proof.
  intros H. unfold find.
  destruct (signatures f !! Str.join "," arr) as [m|] eqn:Em.
  - destruct (signatures_own_def _ _ _ _ _ _ H Em) as [Hne _]. split.
    + intros E. injection E as <-. now left.
    + intros [E|[E _]]; [congruence | contradiction].
  - destruct (signatures_proto f) as [holder|].
    + destruct (String.eqb_spec (Str.join "," arr) "__proto__") as [Hp|Hp]; split.
      * intros E. injection E as <-. now right.
      * intros [E|[_ E]]; [discriminate | congruence].
      * discriminate.
      * intros [E|[E _]]; [discriminate | contradiction].
    + split.
      * destruct (Keys.inherited _); discriminate.
      * intros [E|[_ E]]; discriminate.
Qed.

End Pipeline.

(** C6 fails on the code.  With a type [__proto__] registered, the
    signature [" __proto__"] survives parsing and the ignore list, its
    canonical text is ["__proto__"], and the typed function dispatches to
    it; but the assignment [fn.signatures["__proto__"] = def.fn] makes no
    own property: [signatures] stays empty, and the function has become
    its prototype. *)
Theorem proto_signature_not_stored :
  let typed := MoreExamples.protoRegistry in
  let f := MoreExamples.protoFn in
  let signature := {| params := [["__proto__"]]; restParam := false |} in
  createTypedFunction typed "f" [(" __proto__", 1%nat)] = OK f
  /\ Canon.normalize typed " __proto__" = Some signature
  /\ stringifyParams signature = "__proto__"
  /\ call typed f [VNumber 5] = Invoked 1%nat [VNumber 5] []
  /\ signatures f = ∅
  /\ signatures_proto f = Some (Original 1%nat).
Proof.
  cbv zeta. repeat split; vm_compute; reflexivity.
Qed.

(** C9: [find] with a key of [signatures] returns the function stored under
    that key.  Whenever [find] returns a function of the typed function for
    a string, the function is stored under the string once split at
    commas, trimmed and joined again (or that text is [__proto__] and the
    function is the prototype that the assignment under this key has given
    to [signatures]); it is the function of a def that is no conversion
    and whose signature has exactly this text. *)
Theorem find_round_trip {Fn} (typed : Typed) (name : string)
        (sigs : list (string * Fn)) (f : TypedFunction Fn) :
  createTypedFunction typed name sigs = OK f ->
  (forall key impl,
      signatures f !! key = Some impl ->
      find (Some (signatures f)) (signatures_proto f) (fn_name f) (ofString key)
      = Found impl)
  /\ (forall s found,
         find (Some (signatures f)) (signatures_proto f) (fn_name f) (ofString s)
         = Found found
         <-> signatures f !! Str.join "," (map Str.trim (Str.split "," s))
             = Some found
             \/ (Str.join "," (map Str.trim (Str.split "," s)) = "__proto__"
                 /\ signatures_proto f = Some found))
  /\ (forall s found,
         find (Some (signatures f)) (signatures_proto f) (fn_name f) (ofString s)
         = Found found ->
         exists def,
           In def (defs f) /\ conversion def = false /\ fn def = found
           /\ stringifyParams (signature def)
              = Str.join "," (map Str.trim (Str.split "," s))).
Proof.
  intros H. split; [|split].
  - intros key impl Hk. exact (find_stored typed name sigs f key impl H Hk).
  - intros s found.
    exact (find_Found typed name sigs f (map Str.trim (Str.split "," s)) found H).
  - intros s found E.
    apply (find_Found typed name sigs f (map Str.trim (Str.split "," s)) found H)
      in E as [E|[Ep E]].
    + destruct (signatures_own_def _ _ _ _ _ _ H E) as [_ [def [Hd [Hc [Hk Hf]]]]].
      exists def. auto.
    + destruct (signatures_proto_Some _ _ _ _ _ H E) as [def [Hd [Hc [Hk Hf]]]].
      exists def. rewrite Ep. auto.
Qed.

(** C9 at work: [find(fn, "...boolean")] on
    [{ "number": f1, "...boolean": f2 }]. *)
Lemma find_round_trip_witness :
  let f := Examples.numberAndRestBooleans in
  find (Some (signatures f)) (signatures_proto f) (fn_name f)
       (ofString "...boolean")
  = Found (Original 2%nat).
Proof.
  cbv zeta.
  apply (proj1 (find_round_trip Examples.withBooleanToNumber "f"
                  [("number", 1%nat); ("...boolean", 2%nat)]
                  Examples.numberAndRestBooleans ltac:(vm_compute; reflexivity))).
  vm_compute. reflexivity.
Defined.

(** ** The fast path against the linear scan *)

Section FastPath.

Context {Fn : Type}.
Implicit Types (def : Def Fn) (defs : list (Def Fn)).

Lemma parseDef_compiled (typed : Typed) (entry : string * Fn) def :
  parseDef typed entry = OK (Some def) -> compiledFrom typed def.
Proof.
  unfold parseDef.
  destruct (parseParams (fst entry)) as [parsed|]; [|discriminate]. simpl.
  destruct (filterIgnoredTypes typed parsed) as [sig|]; [|discriminate].
  destruct (compileParams typed sig) as [t|] eqn:E; [|discriminate]. simpl.
  intros H. injection H as <-. split; [exact E | reflexivity].
Qed.

Lemma expandDef_compiled (typed : Typed) def twin :
  compiledFrom typed def ->
  expandDef typed def = OK (Some twin) -> compiledFrom typed twin.
Proof.
  intros [_ Hr]. unfold expandDef.
  destruct (getConversions typed _) as [conversions|]; [|discriminate].
  destruct (compileParams typed _) as [t|] eqn:E; [|discriminate]. simpl.
  destruct (compileArgsConversion typed _ _ _); [|discriminate]. simpl.
  intros H. injection H as <-. split; [exact E | exact Hr].
Qed.

Lemma expandDefs_compiled (typed : Typed) (l twins : list (Def Fn)) :
  Forall (compiledFrom typed) l ->
  expandDefs typed l = OK twins ->
  Forall (compiledFrom typed) twins.
Proof.
  intros H. revert twins. induction H as [|a l Ha _ IH]; intros twins Ht; simpl in Ht.
  - injection Ht as <-. constructor.
  - destruct (expandDef typed a) as [r|] eqn:Ea; [|discriminate]. simpl in Ht.
    destruct (expandDefs typed l) as [ts|]; [|discriminate]. simpl in Ht.
    injection Ht as <-. specialize (IH ts eq_refl).
    destruct r as [d|]; [|exact IH].
    constructor; [|exact IH]. exact (expandDef_compiled typed a d Ha Ea).
Qed.

Lemma defs_compiled (typed : Typed) (name : string) (sigs : list (string * Fn))
      (f : TypedFunction Fn) :
  createTypedFunction typed name sigs = OK f ->
  Forall (compiledFrom typed) (defs f).
Proof.
  intros H. destruct (createTypedFunction_OK _ _ _ _ H)
    as [parsed [twins [Hp [Ht [Hd _]]]]].
  assert (Hs : Forall (compiledFrom typed)
                      (sortDefs (createTypesIndexMap (types typed)) parsed)).
  { apply List.Forall_forall. intros d Hin. apply sortDefs_In in Hin.
    apply (parseDefs_In typed sigs parsed d Hp) in Hin as [entry [_ He]].
    exact (parseDef_compiled typed entry d He). }
  rewrite Hd. apply Forall_app. split; [exact Hs|].
  exact (expandDefs_compiled typed _ _ Hs Ht).
Qed.

Lemma createTypedFunction_fast (typed : Typed) (name : string)
      (sigs : list (string * Fn)) (f : TypedFunction Fn) :
  createTypedFunction typed name sigs = OK f ->
  exists tests0 tests1,
    mapM (fastTest typed (defs f) 0) (seq 0 6) = OK tests0
    /\ mapM (fastTest typed (defs f) 1) (seq 0 6) = OK tests1
    /\ fast f = map (fastPath (defs f) tests0 tests1) (seq 0 6)
    /\ iStart f = if forallb (okAt (defs f)) (seq 0 6) then 6%nat else 0%nat.
Proof.
  unfold createTypedFunction. destruct (length sigs =? 0)%nat; [discriminate|].
  destruct (parseDefs typed sigs) as [parsed|]; [|discriminate]. cbn [bind].
  destruct (expandDefs typed _) as [twins|]; [|discriminate]. cbn [bind].
  destruct (mapM (fastTest (Fn:=Fn) typed _ 0) _) as [tests0|] eqn:E0;
    [|discriminate]. cbn [bind].
  destruct (mapM (fastTest (Fn:=Fn) typed _ 1) _) as [tests1|] eqn:E1;
    [|discriminate]. cbn [bind].
  destruct (storeSignatures _ _) as [store|]; [|discriminate]. cbn [bind].
  intros H. injection H as <-. cbn [defs fast iStart].
  exists tests0, tests1. repeat split; trivial.
Qed.

Lemma mapM_nth {A B} (f : A -> Res B) (l : list A) (r : list B) (i : nat) (x : A)
      (d : B) :
  mapM f l = OK r -> l !! i = Some x -> f x = OK (nth i r d).
Proof.
  revert r i. induction l as [|a l IH]; intros r i H Hx; [discriminate|].
  simpl in H. destruct (f a) as [b|] eqn:Ef; [|discriminate]. simpl in H.
  destruct (mapM f l) as [bs|]; [|discriminate]. simpl in H. injection H as <-.
  destruct i as [|i]; simpl in *; [congruence | now apply IH].
Qed.

Lemma eqb_of_nat (a b : nat) : (Z.of_nat a =? Z.of_nat b) = (a =? b)%nat.
Proof.
  destruct (Nat.eqb_spec a b) as [->|Hne]; [apply Z.eqb_refl|].
  apply Z.eqb_neq. lia.
Qed.

Lemma okAt_lookup defs k def : defs !! k = Some def -> okAt defs k = qualifies def.
Proof. intros H. unfold okAt. now rewrite H. Qed.

(** The line of the specialised function for a qualifying def tests what
    the def's own predicate tests. *)
Lemma fastPath_qualifying (typed : Typed) defs (tests0 tests1 : list (Value -> bool))
      (k : nat) def (arguments : list Value) :
  compiledFrom typed def ->
  defs !! k = Some def ->
  qualifies def = true ->
  fastTest typed defs 0 k = OK (nth k tests0 notOk) ->
  fastTest typed defs 1 k = OK (nth k tests1 notOk) ->
  let p := fastPath defs tests0 tests1 k in
  (Z.of_nat (length arguments) =? len p)
  && (test0 p (arg arguments 0) && test1 p (arg arguments 1))
  = def_test def arguments
  /\ fast_fn p = fn def
  /\ def_restParam def = false.
Proof.
  intros [Hc Hr] Hk Hq H0 H1. cbv zeta.
  unfold fastPath, fastTest in *. rewrite (okAt_lookup _ _ _ Hk), Hk, Hq in *.
  cbn [len test0 test1 fast_fn].
  unfold qualifies in Hq. apply andb_true_iff in Hq as [Hlen Hrest].
  apply negb_true_iff in Hrest. rewrite Hrest in Hr.
  split; [|auto]. rewrite eqb_of_nat.
  unfold compileParams in Hc. rewrite Hrest in Hc.
  destruct (params (signature def)) as [|p0 [|p1 [|p2 ps]]];
    [| | |discriminate Hlen]; cbn [length].
  - change (compileParam typed ([] !! 0%nat)) with (OK ok) in H0.
    change (compileParam typed ([] !! 1%nat)) with (OK ok) in H1.
    assert (E0 : nth k tests0 notOk = ok) by congruence.
    assert (E1 : nth k tests1 notOk = ok) by congruence.
    assert (Et : def_test def = fun args => (length args =? 0)%nat) by congruence.
    rewrite E0, E1, Et. unfold ok. now rewrite !andb_true_r.
  - change ([p0] !! 0%nat) with (Some p0) in H0.
    change (compileParam typed ([p0] !! 1%nat)) with (OK ok) in H1.
    destruct (compileParam typed (Some p0)) as [t0|]; [|discriminate H0].
    cbn [bind] in Hc.
    assert (E0 : nth k tests0 notOk = t0) by congruence.
    assert (E1 : nth k tests1 notOk = ok) by congruence.
    assert (Et : def_test def
                 = fun args => t0 (arg args 0) && (length args =? 1)%nat)
      by congruence.
    rewrite E0, E1, Et. unfold ok. rewrite andb_true_r. apply andb_comm.
  - change ([p0; p1] !! 0%nat) with (Some p0) in H0.
    change ([p0; p1] !! 1%nat) with (Some p1) in H1.
    destruct (compileParam typed (Some p0)) as [t0|]; [|discriminate H0].
    destruct (compileParam typed (Some p1)) as [t1|]; [|discriminate H1].
    cbn [bind] in Hc.
    assert (E0 : nth k tests0 notOk = t0) by congruence.
    assert (E1 : nth k tests1 notOk = t1) by congruence.
    assert (Et : def_test def
                 = fun args => t0 (arg args 0)
                               && (t1 (arg args 1) && (length args =? 2)%nat))
      by congruence.
    rewrite E0, E1, Et. rewrite andb_comm. now rewrite andb_assoc.
Qed.

Lemma fastPath_other defs (tests0 tests1 : list (Value -> bool)) (k : nat) :
  okAt defs k = false -> len (fastPath defs tests0 tests1 k) = -1.
Proof.
  intros H. unfold fastPath. rewrite H. now destruct (defs !! k).
Qed.

(** The specialised function is a scan of the qualifying defs among the
    first six. *)
Lemma fastFrom_fastDefs (typed : Typed) defs (tests0 tests1 : list (Value -> bool))
      (arguments : list Value) (n a : nat) :
  Forall (compiledFrom typed) defs ->
  (forall k, (k < a + n)%nat ->
             fastTest typed defs 0 k = OK (nth k tests0 notOk)
             /\ fastTest typed defs 1 k = OK (nth k tests1 notOk)) ->
  fastFrom (map (fastPath defs tests0 tests1) (seq a n)) arguments
  = genericFrom (fastDefs (drop a defs) n) arguments.
Proof.
  intros Hc. revert a. induction n as [|n IH]; intros a Ht; [reflexivity|].
  cbn [seq map fastFrom].
  assert (Hrest : forall k, (k < S a + n)%nat ->
                            fastTest typed defs 0 k = OK (nth k tests0 notOk)
                            /\ fastTest typed defs 1 k = OK (nth k tests1 notOk)).
  { intros k Hk. apply Ht. lia. }
  specialize (IH (S a) Hrest).
  destruct (defs !! a) as [def|] eqn:Ea.
  - rewrite (drop_S _ _ _ Ea). cbn [fastDefs].
    destruct (qualifies def) eqn:Eq.
    + destruct (Ht a ltac:(lia)) as [H0 H1].
      assert (Hd : compiledFrom typed def).
      { apply (proj1 (List.Forall_forall _ _) Hc).
        apply list_elem_of_In, list_elem_of_lookup. eauto. }
      destruct (fastPath_qualifying typed defs tests0 tests1 a def arguments
                  Hd Ea Eq H0 H1) as [Htest [Hfn Hr]].
      rewrite Htest, Hfn. cbn [genericFrom]. rewrite Hr.
      destruct (def_test def arguments); [reflexivity | exact IH].
    + rewrite (fastPath_other defs tests0 tests1 a)
        by (now rewrite (okAt_lookup _ _ _ Ea)).
      assert (Hl : (Z.of_nat (length arguments) =? -1) = false)
        by (apply Z.eqb_neq; lia).
      rewrite Hl. exact IH.
  - rewrite (fastPath_other defs tests0 tests1 a)
      by (unfold okAt; now rewrite Ea).
    assert (Hl : (Z.of_nat (length arguments) =? -1) = false)
      by (apply Z.eqb_neq; lia).
    rewrite Hl, IH.
    apply lookup_ge_None in Ea.
    rewrite !drop_ge by lia. now destruct n.
Qed.

Lemma okAt_cons def defs k : okAt (def :: defs) (S k) = okAt defs k.
Proof. reflexivity. Qed.

Lemma fastDefs_none defs n :
  (forall k, (k < n)%nat -> okAt defs k = false) -> fastDefs defs n = [].
Proof.
  revert defs. induction n as [|n IH]; intros [|def defs] H; try reflexivity.
  cbn [fastDefs]. pose proof (H 0%nat ltac:(lia)) as H0.
  unfold okAt in H0. simpl in H0. fold (qualifies def) in H0. rewrite H0.
  apply IH. intros k Hk. rewrite <- (okAt_cons def). apply H. lia.
Qed.

Lemma fastDefs_all defs n :
  (forall k, (k < n)%nat -> okAt defs k = true) -> fastDefs defs n = take n defs.
Proof.
  revert defs. induction n as [|n IH]; intros [|def defs] H; try reflexivity.
  cbn [fastDefs]. pose proof (H 0%nat ltac:(lia)) as H0.
  unfold okAt in H0. simpl in H0. fold (qualifies def) in H0. rewrite H0.
  simpl. f_equal. apply IH. intros k Hk. rewrite <- (okAt_cons def). apply H. lia.
Qed.

(** Without a gap the qualifying defs are the first defs. *)
Lemma fastDefs_prefix defs n :
  (forall k, (S k < n)%nat -> okAt defs (S k) = true -> okAt defs k = true) ->
  exists m, fastDefs defs n = take m defs.
Proof.
  revert defs. induction n as [|n IH]; intros defs H; [now exists 0%nat|].
  destruct defs as [|def defs]; [now exists 0%nat|].
  cbn [fastDefs]. destruct (qualifies def) eqn:Eq.
  - destruct (IH defs) as [m Hm].
    + intros k Hk Hq. change (okAt (def :: defs) (S k) = true).
      apply H; [lia | exact Hq].
    + exists (S m). simpl. now rewrite Hm.
  - exists 0%nat. apply fastDefs_none. intros k Hk.
    assert (Hall : forall j, (j < S n)%nat -> okAt (def :: defs) j = false).
    { induction j as [|j IHj]; intros Hj.
      - unfold okAt. simpl. exact Eq.
      - destruct (okAt (def :: defs) (S j)) eqn:E; [|reflexivity].
        rewrite (H j Hj E) in IHj. discriminate IHj. lia. }
    rewrite <- (okAt_cons def). apply Hall. lia.
Qed.

Lemma genericFrom_app (l1 l2 : list (Def Fn)) (arguments : list Value) :
  genericFrom (l1 ++ l2) arguments
  = match genericFrom l1 arguments with
    | Some outcome => Some outcome
    | None => genericFrom l2 arguments
    end.
Proof.
  induction l1 as [|d l1 IH]; simpl; [reflexivity|].
  now destruct (def_test d arguments).
Qed.

(** The typed function dispatches as the linear scan does when no def that
    fails the fast path's condition comes before one that meets it among
    the first six defs. *)
Lemma call_linearScan (typed typed' : Typed) (name : string)
      (sigs : list (string * Fn)) (f : TypedFunction Fn) (arguments : list Value) :
  createTypedFunction typed name sigs = OK f ->
  noGap (defs f) ->
  call typed' f arguments = linearScan typed' f arguments.
Proof.
  intros H Hgap.
  destruct (createTypedFunction_fast _ _ _ _ H) as [tests0 [tests1 [E0 [E1 [Hf Hi]]]]].
  pose proof (defs_compiled _ _ _ _ H) as Hc.
  unfold call, generic, linearScan. rewrite Hf.
  rewrite (fastFrom_fastDefs typed (defs f) tests0 tests1 arguments 6 0 Hc).
  2: { intros k Hk. split; eapply mapM_nth; eauto; now apply lookup_seq_lt. }
  rewrite drop_0, Hi.
  assert (Hsplit : forall m,
             genericFrom (defs f) arguments
             = match genericFrom (take m (defs f)) arguments with
               | Some outcome => Some outcome
               | None => genericFrom (drop m (defs f)) arguments
               end).
  { intros m. now rewrite <- genericFrom_app, take_drop. }
  destruct (forallb (okAt (defs f)) (seq 0 6)) eqn:Eall.
  - rewrite fastDefs_all.
    + rewrite (Hsplit 6%nat).
      now destruct (genericFrom (take 6 (defs f)) arguments).
    + intros k Hk. apply (proj1 (forallb_forall _ _) Eall). apply in_seq. lia.
  - destruct (fastDefs_prefix (defs f) 6 Hgap) as [m ->].
    rewrite drop_0.
    destruct (genericFrom (take m (defs f)) arguments) as [outcome|] eqn:E;
      [|reflexivity].
    now rewrite (Hsplit m), E.
Qed.

Lemma genericFrom_Some (l : list (Def Fn)) (arguments : list Value) outcome :
  genericFrom l arguments = Some outcome ->
  exists def, In def l /\ def_test def arguments = true
              /\ outcome = dispatchTo def arguments.
Proof.
  induction l as [|d l IH]; simpl; [discriminate|].
  destruct (def_test d arguments) eqn:E.
  - intros H. injection H as <-. exists d. auto.
  - intros H. destruct (IH H) as [def [Hin Hd]]. exists def. auto.
Qed.

Lemma genericFrom_None (l : list (Def Fn)) (arguments : list Value) def :
  genericFrom l arguments = None -> In def l -> def_test def arguments = false.
Proof.
  induction l as [|d l IH]; simpl; [intros _ []|].
  destruct (def_test d arguments) eqn:E; [discriminate|].
  intros H [<-|Hin]; [exact E | now apply IH].
Qed.

(** Exact beats conversion where the fast path leaves no gap: when the
    arguments satisfy an original def, the def the call runs is an original
    def they satisfy. *)
Lemma exact_match_runs_original (typed typed' : Typed) (name : string)
      (sigs : list (string * Fn)) (f : TypedFunction Fn) (arguments : list Value)
      original :
  createTypedFunction typed name sigs = OK f ->
  noGap (defs f) ->
  In original (defs f) -> conversion original = false ->
  def_test original arguments = true ->
  exists def, In def (defs f) /\ conversion def = false
              /\ def_test def arguments = true
              /\ call typed' f arguments = dispatchTo def arguments.
Proof.
  intros H Hgap Hin Hc Ht.
  rewrite (call_linearScan typed typed' name sigs f arguments H Hgap).
  destruct (createTypedFunction_OK _ _ _ _ H) as [parsed [twins [Hp [Hx [Hd _]]]]].
  unfold linearScan. rewrite Hd in *. rewrite genericFrom_app.
  apply in_app_iff in Hin as [Hin|Hin].
  2: { rewrite (expandDefs_conversion _ _ _ _ Hx Hin) in Hc. discriminate. }
  destruct (genericFrom (sortDefs _ parsed) arguments) as [outcome|] eqn:E.
  - destruct (genericFrom_Some _ _ _ E) as [def [Hdef [Htest ->]]].
    exists def. repeat split; trivial.
    + apply in_app_iff. now left.
    + apply sortDefs_In in Hdef.
      apply (parseDefs_In typed sigs parsed def Hp) in Hdef as [entry [_ He]].
      now apply parseDef_Some in He.
  - rewrite (genericFrom_None _ _ _ E Hin) in Ht. discriminate.
Qed.

End FastPath.

(** ** The compiled tests *)

Section CompiledTests.

Lemma findTests_existsb (typed : Typed) (types : list string)
      (tests : list (Value -> bool)) (x : Value) :
  mapM (findTest typed) types = OK tests ->
  existsb (fun t => t x) tests = existsb (fun type => typeTest typed type x) types.
Proof.
  revert tests. induction types as [|type types IH]; intros tests H; simpl in H.
  - now injection H as <-.
  - destruct (findTest typed type) as [t|] eqn:Et; [|discriminate]. cbn [bind] in H.
    destruct (mapM (findTest typed) types) as [ts|]; [|discriminate].
    cbn [bind] in H. injection H as <-. simpl. unfold typeTest at 1.
    now rewrite Et, (IH ts eq_refl).
Qed.

(** The four shapes of [compileParam] compute one thing. *)
Lemma compileParam_accepts (typed : Typed) (param : Param) (t : Value -> bool)
      (x : Value) :
  compileParam typed (Some param) = OK t -> t x = accepts typed param x.
Proof.
  unfold compileParam.
  destruct param as [|type0 [|type1 [|type2 param]]].
  - intros H. now injection H as <-.
  - intros H. simpl. unfold typeTest. rewrite H. now rewrite orb_false_r.
  - destruct (findTest typed type0) as [t0|] eqn:E0; [|discriminate]. cbn [bind].
    destruct (findTest typed type1) as [t1|] eqn:E1; [|discriminate]. cbn [bind].
    intros H. injection H as <-. simpl. unfold typeTest.
    now rewrite E0, E1, orb_false_r.
  - destruct (mapM _ _) as [tests|] eqn:Em; [|discriminate]. cbn [bind].
    intros H. injection H as <-. now apply findTests_existsb.
Qed.

(** The loop over the leading tests. *)
Lemma testsFrom_accepts (typed : Typed) (ps : list Param)
      (tests : list (Value -> bool)) (args : list Value) (i : nat) :
  mapM (fun p => compileParam typed (Some p)) ps = OK tests ->
  testsFrom tests args i = true
  <-> forall k p, ps !! k = Some p -> accepts typed p (arg args (i + k)) = true.
Proof.
  revert tests i. induction ps as [|p ps IH]; intros tests i H; cbn [mapM] in H.
  - injection H as <-. simpl. split; [intros _ k p0 Hk; now rewrite lookup_nil in Hk | trivial].
  - destruct (compileParam typed (Some p)) as [t|] eqn:Et; [|discriminate].
    cbn [bind] in H.
    destruct (mapM _ ps) as [ts|] eqn:Em; [|discriminate]. cbn [bind] in H.
    injection H as <-. simpl. rewrite andb_true_iff, (IH ts (S i) eq_refl).
    rewrite (compileParam_accepts typed p t _ Et). split.
    + intros [H0 Hs] [|k] q Hk; simpl in Hk.
      * injection Hk as <-. now rewrite Nat.add_0_r.
      * rewrite Nat.add_succ_r. now apply Hs.
    + intros Hall. split.
      * specialize (Hall 0%nat p eq_refl). now rewrite Nat.add_0_r in Hall.
      * intros k q Hk. specialize (Hall (S k) q Hk).
        now rewrite Nat.add_succ_r in Hall.
Qed.

Lemma Forall2_positions (typed : Typed) (ps : list Param) (args : list Value) :
  Forall2 (acceptsP typed) ps args
  <-> length args = length ps
      /\ forall k p, ps !! k = Some p -> accepts typed p (arg args k) = true.
Proof.
  revert args. induction ps as [|p ps IH]; intros args.
  - split.
    + intros H. inversion H. split; [reflexivity | intros k q Hk; now rewrite lookup_nil in Hk].
    + intros [Hl _]. destruct args; [constructor | discriminate].
  - split.
    + intros H. inversion H as [|? a ? args' Ha Hrest]; subst.
      apply IH in Hrest as [Hl Hrest]. split; [simpl; now rewrite Hl|].
      intros [|k] q Hk; simpl in Hk.
      * now injection Hk as <-.
      * now apply Hrest.
    + intros [Hl Hall]. destruct args as [|a args]; [discriminate|].
      constructor.
      * exact (Hall 0%nat p eq_refl).
      * apply IH. split; [simpl in Hl; lia|].
        intros k q Hk. exact (Hall (S k) q Hk).
Qed.

End CompiledTests.

(** The compiled test against the reading of the signature. *)
Lemma compiled_test_accepts (typed : Typed) (signature : Signature)
        (t : list Value -> bool) (args : list Value) :
  compileParams typed signature = OK t ->
  t args = true <-> signatureAccepts typed signature args.
Proof.
  unfold compileParams, signatureAccepts.
  destruct (restParam signature).
  - destruct (mapM _ (initial (params signature))) as [tests|] eqn:Em;
      [|discriminate]. cbn [bind].
    destruct (compileParam typed (last (params signature))) as [lastTest|] eqn:El;
      [|discriminate]. cbn [bind].
    intros H. injection H as <-.
    pose proof (mapM_length _ _ _ Em) as Hlen.
    assert (Hlast : forall x,
               lastTest x = true
               <-> match last (params signature) with
                   | Some p => acceptsP typed p x
                   | None => True
                   end).
    { intros x. destruct (last (params signature)) as [p|].
      - unfold acceptsP. now rewrite (compileParam_accepts typed p lastTest x El).
      - injection El as <-. unfold ok. tauto. }
    rewrite !andb_true_iff, (testsFrom_accepts typed _ tests args 0 Em),
      forallb_forall, Nat.leb_le.
    split.
    + intros [Hlead [Htrail Hn]].
      exists (take (length tests) args), (drop (length tests) args).
      split; [now rewrite take_drop|]. split; [|split].
      * apply Forall2_positions. split; [rewrite length_take; lia|].
        intros k p Hk. specialize (Hlead k p Hk). simpl in Hlead.
        unfold arg in *. rewrite <- Hlead.
        assert (Hk' : (k < length tests)%nat)
          by (rewrite Hlen; now apply lookup_lt_Some in Hk).
        rewrite !nth_lookup, lookup_take_lt; [reflexivity | exact Hk'].
      * intros E. apply (f_equal length) in E.
        rewrite length_drop in E. simpl in E. lia.
      * apply List.Forall_forall. intros x Hx. apply Hlast, Htrail, Hx.
    + intros [leading [trailing [-> [Hlead [Hne Htrail]]]]].
      apply Forall2_positions in Hlead as [Hl Hlead].
      assert (Hll : length leading = length tests) by lia.
      split; [|split].
      * intros k p Hk. simpl. specialize (Hlead k p Hk).
        unfold arg in *. rewrite <- Hlead.
        assert (Hk' : (k < length leading)%nat)
          by (rewrite Hl; now apply lookup_lt_Some in Hk).
        now rewrite !nth_lookup, lookup_app_l.
      * intros x Hx. apply Hlast.
        rewrite <- Hll, drop_app_length in Hx.
        revert x Hx. now apply List.Forall_forall.
      * rewrite length_app. destruct trailing; [congruence | simpl; lia].
  - intros H.
    assert (Hgen : exists tests,
               mapM (fun p => compileParam typed (Some p)) (params signature)
               = OK tests
               /\ forall args, t args
                               = testsFrom tests args 0
                                 && (length args =? length tests)%nat).
    { destruct (params signature) as [|p0 [|p1 [|p2 ps]]].
      - injection H as <-. exists []. split; [reflexivity|]. intros a. reflexivity.
      - destruct (compileParam typed (Some p0)) as [t0|] eqn:E0; [|discriminate].
        cbn [bind] in H. injection H as <-. exists [t0]. split.
        * cbn [mapM]. now rewrite E0.
        * intros a. cbn [testsFrom length]. now rewrite andb_true_r.
      - destruct (compileParam typed (Some p0)) as [t0|] eqn:E0; [|discriminate].
        cbn [bind] in H.
        destruct (compileParam typed (Some p1)) as [t1|] eqn:E1; [|discriminate].
        cbn [bind] in H. injection H as <-. exists [t0; t1]. split.
        * cbn [mapM]. rewrite E0. cbn [bind]. now rewrite E1.
        * intros a. cbn [testsFrom length]. now rewrite andb_true_r, andb_assoc.
      - destruct (mapM _ (p0 :: p1 :: p2 :: ps)) as [tests|] eqn:Em; [|discriminate].
        cbn [bind] in H. injection H as <-. exists tests. auto. }
    destruct Hgen as [tests [Em Ht]]. rewrite Ht, andb_true_iff, Nat.eqb_eq.
    rewrite (testsFrom_accepts typed _ tests args 0 Em), Forall2_positions.
    rewrite (mapM_length _ _ _ Em). simpl. tauto.
Qed.

(** X1: the test compiled for a signature holds of an argument list exactly
    when the signature accepts the list: without rest param one argument
    per param, each accepted by its param; with a rest param the leading
    params as before and at least one trailing argument, all accepted by
    the last param. *)
Theorem compileParams_accepts (typed : Typed) (signature : Signature)
        (t : list Value -> bool) (args : list Value) :
  compileParams typed signature = OK t ->
  t args = true <-> signatureAccepts typed signature args.
Proof.
  intros H. split; intros Ha.
  - now apply (compiled_test_accepts typed signature t args H).
  - now apply (compiled_test_accepts typed signature t args H).
Qed.

(** X1 at work: [number, string|boolean] accepts [(1, "a")]. *)
Lemma compileParams_accepts_witness :
  signatureAccepts create MoreExamples.numberThenUnion [VNumber 1; VString "a"].
Proof.
  apply (compileParams_accepts create MoreExamples.numberThenUnion
           MoreExamples.numberThenUnionTest).
  - vm_compute. reflexivity.
  - reflexivity.
Defined.

Section RegisteredTypes.

Context {Fn : Type}.

Lemma mapM_In_OK {A B} (f : A -> Res B) (l : list A) (r : list B) (x : A) :
  mapM f l = OK r -> In x l -> exists y, f x = OK y.
Proof.
  revert r. induction l as [|a l IH]; intros r H Hin; [destruct Hin|].
  cbn [mapM] in H. destruct (f a) as [b|] eqn:Ef; [|discriminate]. cbn [bind] in H.
  destruct (mapM f l) as [bs|]; [|discriminate].
  destruct Hin as [<-|Hin]; [eauto | exact (IH bs eq_refl Hin)].
Qed.

Lemma findTest_registered (typed : Typed) (type : string) (t : Value -> bool) :
  findTest typed type = OK t ->
  exists entry, In entry (types typed) /\ name entry = type /\ test entry = t.
Proof.
  unfold findTest.
  destruct (List.find _ (types typed)) as [entry|] eqn:E; [|discriminate].
  intros H. injection H as <-. apply find_some in E as [Hin Hn].
  apply String.eqb_eq in Hn. eauto.
Qed.

Lemma compileParam_registered (typed : Typed) (param : Param)
      (t : Value -> bool) (type : string) :
  compileParam typed (Some param) = OK t -> In type param ->
  exists t', findTest typed type = OK t'.
Proof.
  unfold compileParam.
  destruct param as [|type0 [|type1 [|type2 param]]].
  - intros _ [].
  - intros H [<-|[]]. eauto.
  - destruct (findTest typed type0) as [t0|] eqn:E0; [|discriminate]. cbn [bind].
    destruct (findTest typed type1) as [t1|] eqn:E1; [|discriminate].
    intros _ [<-|[<-|[]]]; eauto.
  - destruct (mapM _ _) as [tests|] eqn:Em; [|discriminate].
    intros _ Hin. exact (mapM_In_OK _ _ _ _ Em Hin).
Qed.

Lemma initial_last {A} (l : list A) (x : A) :
  In x l -> In x (initial l) \/ last l = Some x.
Proof.
  unfold initial. induction l as [|a l IH]; [intros []|].
  destruct l as [|b l].
  - intros [<-|[]]. now right.
  - intros [<-|Hin].
    + left. now left.
    + destruct (IH Hin) as [H|H].
      * left. simpl in *. rewrite Nat.sub_0_r in H. now right.
      * right. exact H.
Qed.

Lemma compileParams_registered (typed : Typed) (signature : Signature)
      (t : list Value -> bool) (param : Param) (type : string) :
  compileParams typed signature = OK t ->
  In param (params signature) -> In type param ->
  exists t', findTest typed type = OK t'.
Proof.
  unfold compileParams. destruct (restParam signature).
  - destruct (mapM _ (initial (params signature))) as [tests|] eqn:Em;
      [|discriminate]. cbn [bind].
    destruct (compileParam typed (last (params signature))) as [lastTest|] eqn:El;
      [|discriminate].
    intros _ Hp Ht. destruct (initial_last _ _ Hp) as [Hi|Hl].
    + destruct (mapM_In_OK _ _ _ _ Em Hi) as [t0 H0].
      exact (compileParam_registered typed param t0 type H0 Ht).
    + rewrite Hl in El. exact (compileParam_registered typed param _ type El Ht).
  - destruct (params signature) as [|p0 [|p1 [|p2 ps]]].
    + intros _ [].
    + destruct (compileParam typed (Some p0)) as [t0|] eqn:E0; [|discriminate].
      intros _ [<-|[]] Ht. exact (compileParam_registered typed _ t0 type E0 Ht).
    + destruct (compileParam typed (Some p0)) as [t0|] eqn:E0; [|discriminate].
      cbn [bind].
      destruct (compileParam typed (Some p1)) as [t1|] eqn:E1; [|discriminate].
      intros _ [<-|[<-|[]]] Ht.
      * exact (compileParam_registered typed _ t0 type E0 Ht).
      * exact (compileParam_registered typed _ t1 type E1 Ht).
    + destruct (mapM _ (p0 :: p1 :: p2 :: ps)) as [tests|] eqn:Em; [|discriminate].
      intros _ Hp Ht. destruct (mapM_In_OK _ _ _ _ Em Hp) as [t0 H0].
      exact (compileParam_registered typed param t0 type H0 Ht).
Qed.

End RegisteredTypes.



(** ** How the defs are built *)

Section Built.

Context {Fn : Type}.
Implicit Types (def : Def Fn) (sigs : list (string * Fn)).

Lemma parseDef_built (typed : Typed) sigs (entry : string * Fn) def :
  In entry sigs ->
  parseDef typed entry = OK (Some def) -> builtOriginal typed sigs def.
Proof.
  intros Hin. unfold parseDef, builtOriginal, Canon.normalize.
  destruct (parseParams (fst entry)) as [parsed|] eqn:Ep; [|discriminate].
  cbn [bind].
  destruct (filterIgnoredTypes typed parsed) as [sig|] eqn:Ef; [|discriminate].
  destruct (compileParams typed sig) as [t|] eqn:E; [|discriminate]. cbn [bind].
  intros H. injection H as <-. exists (fst entry), (snd entry).
  cbn [signature conversion fn def_restParam preprocess def_test].
  split; [now destruct entry|]. rewrite Ep.
  repeat split; try reflexivity; trivial.
Qed.

Lemma expandDef_built (typed : Typed) sigs def twin :
  builtOriginal typed sigs def ->
  expandDef typed def = OK (Some twin) -> builtTwin typed sigs twin.
Proof.
  intros Hb. unfold expandDef.
  destruct (getConversions typed _) as [conversions|] eqn:Eg; [|discriminate].
  destruct (compileParams typed _) as [t|] eqn:E; [|discriminate]. cbn [bind].
  unfold compileArgsConversion.
  destruct (mapM (compileArgConversion typed) conversions) as [cc|] eqn:Em;
    [|discriminate]. cbn [bind].
  intros H. injection H as <-. exists def, conversions, cc.
  cbn [signature conversion fn def_restParam preprocess def_test].
  repeat split; trivial.
Qed.

Lemma expandDefs_built (typed : Typed) sigs (l twins : list (Def Fn)) :
  Forall (builtOriginal typed sigs) l ->
  expandDefs typed l = OK twins ->
  Forall (builtTwin typed sigs) twins.
Proof.
  intros H. revert twins. induction H as [|a l Ha _ IH]; intros twins Ht;
    cbn [expandDefs] in Ht.
  - injection Ht as <-. constructor.
  - destruct (expandDef typed a) as [r|] eqn:Ea; [|discriminate]. cbn [bind] in Ht.
    destruct (expandDefs typed l) as [ts|]; [|discriminate]. cbn [bind] in Ht.
    injection Ht as <-. specialize (IH ts eq_refl).
    destruct r as [d|]; [|exact IH].
    constructor; [|exact IH]. exact (expandDef_built typed sigs a d Ha Ea).
Qed.

(** The defs of a typed function: the sorted originals, then their twins. *)
Lemma defs_built_sorted (typed : Typed) (fname : string) sigs
      (f : TypedFunction Fn) :
  createTypedFunction typed fname sigs = OK f ->
  exists parsed twins,
    parseDefs typed sigs = OK parsed
    /\ defs f = sortDefs (createTypesIndexMap (types typed)) parsed ++ twins
    /\ Forall (builtOriginal typed sigs) parsed
    /\ Forall (builtTwin typed sigs) twins.
Proof.
  intros H. destruct (createTypedFunction_OK _ _ _ _ H)
    as [parsed [twins [Hp [Ht [Hd _]]]]].
  exists parsed, twins.
  assert (Hb : Forall (builtOriginal typed sigs) parsed).
  { apply List.Forall_forall. intros d Hin.
    apply (parseDefs_In typed sigs parsed d Hp) in Hin as [entry [Hin He]].
    exact (parseDef_built typed sigs entry d Hin He). }
  assert (Hs : Forall (builtOriginal typed sigs)
                      (sortDefs (createTypesIndexMap (types typed)) parsed)).
  { apply List.Forall_forall. intros d Hin. apply sortDefs_In in Hin.
    exact (proj1 (List.Forall_forall _ _) Hb d Hin). }
  split; [exact Hp|]. split; [exact Hd|]. split; [exact Hb|].
  exact (expandDefs_built typed sigs _ _ Hs Ht).
Qed.

Lemma defs_built (typed : Typed) (fname : string) sigs (f : TypedFunction Fn) :
  createTypedFunction typed fname sigs = OK f ->
  exists originals twins,
    defs f = originals ++ twins
    /\ Forall (builtOriginal typed sigs) originals
    /\ Forall (builtTwin typed sigs) twins.
Proof.
  intros H. destruct (defs_built_sorted _ _ _ _ H)
    as [parsed [twins [_ [Hd [Hb Ht]]]]].
  exists (sortDefs (createTypesIndexMap (types typed)) parsed), twins.
  split; [exact Hd|]. split; [|exact Ht].
  apply List.Forall_forall. intros d Hin. apply sortDefs_In in Hin.
  exact (proj1 (List.Forall_forall _ _) Hb d Hin).
Qed.

End Built.

(** ** The conversions chosen for a param *)

Section ChosenConversions.

Lemma get_None {A} (k : string) (l : list (string * A)) :
  Keys.get k l = None <-> ~ In k (map fst l).
Proof.
  induction l as [|[k' v] l IH]; simpl; [tauto|].
  destruct (String.eqb k k') eqn:E.
  - apply String.eqb_eq in E. subst. split; [discriminate | intros H; tauto].
  - apply String.eqb_neq in E. rewrite IH. split.
    + intros H [H1|H1]; [congruence | tauto].
    + tauto.
Qed.

Lemma set_fresh {A} (k : string) (v : A) (l : list (string * A)) :
  Keys.get k l = None -> Keys.set k v l = l ++ [(k, v)].
Proof.
  induction l as [|[k' v'] l IH]; simpl; [reflexivity|].
  destruct (String.eqb k k'); [discriminate|].
  intros H. now rewrite (IH H).
Qed.

Lemma insert_index_Permutation {A} n (e : string * A) l :
  Permutation (Keys.insert_index n e l) ((n, e) :: l).
Proof.
  induction l as [|[m e'] l IH]; simpl; [reflexivity|].
  destruct (n <? m)%N; [reflexivity|].
  rewrite IH. apply perm_swap.
Qed.

(** Enumeration reorders the entries and does no more. *)
Lemma enumerate_Permutation {A} (l : list (string * A)) :
  Permutation (Keys.enumerate l) l.
Proof.
  unfold Keys.enumerate, Keys.named.
  induction l as [|e l IH]; [reflexivity|].
  cbn [Keys.indexed List.filter].
  destruct (Keys.index (fst e)) as [n|].
  - rewrite insert_index_Permutation. cbn [map snd app]. now rewrite IH.
  - rewrite <- Permutation_middle. now rewrite IH.
Qed.

Lemma get_Some_key {A} (k : string) (v : A) (l : list (string * A)) :
  Keys.get k l = Some v -> In k (map fst l).
Proof.
  induction l as [|[k' v'] l IH]; simpl; [discriminate|].
  destruct (String.eqb k k') eqn:E.
  - apply String.eqb_eq in E. now left.
  - intros H. right. now apply IH.
Qed.

Lemma chosen_invariant (param : Param) (l : list Conversion) :
  NoDup (map fst (chosen param l))
  /\ (forall k c, In (k, c) (chosen param l) -> k = from c /\ firstFrom param l c)
  /\ (forall c, In c l -> eligible param c = true ->
                In (from c) (map fst (chosen param l))).
Proof.
  induction l as [|c l IH] using rev_ind.
  - split; [constructor|]. split; [intros k c []|intros c []].
  - destruct IH as [Hnd [Hin Hall]].
    unfold chosen in *. rewrite foldl_app. cbn [foldl].
    set (obj := foldl _ [] l) in *.
    assert (Hcond : negb (includes (from c) param) && includes (to c) param
                    && negb (Keys.truthy (from c) obj)
                    = eligible param c
                      && negb (bool_decide (is_Some (Keys.get (from c) obj)))).
    { unfold eligible, Keys.truthy.
      destruct (negb (includes (from c) param)), (includes (to c) param),
        (bool_decide (is_Some (Keys.get (from c) obj))), (Keys.inherited (from c));
        reflexivity. }
    rewrite Hcond. clear Hcond.
    assert (Hkeep : forall k c0, In (k, c0) obj ->
                                 k = from c0 /\ firstFrom param (l ++ [c]) c0).
    { intros k c0 H0. destruct (Hin k c0 H0) as [Hk [l1 [l2 [E [He Hf]]]]].
      split; [exact Hk|]. exists l1, (l2 ++ [c]).
      split; [rewrite E; now rewrite <- List.app_assoc|]. auto. }
    destruct (eligible param c) eqn:Ee; cbn [andb].
    + destruct (Keys.get (from c) obj) as [c0|] eqn:Eg; cbn [negb].
      * rewrite bool_decide_eq_true_2 by eauto. cbn [negb].
        split; [exact Hnd|]. split; [exact Hkeep|].
        intros c1 [H1|H1]%in_app_iff He1; [now apply Hall|].
        destruct H1 as [<-|[]].
        exact (get_Some_key _ _ _ Eg).
      * rewrite bool_decide_eq_false_2 by (intros [x Hx]; discriminate).
        cbn [negb]. rewrite (set_fresh _ _ _ Eg).
        pose proof (proj1 (get_None _ _) Eg) as Hfresh.
        split; [|split].
        -- rewrite map_app. cbn [map fst]. apply NoDup_app. split; [exact Hnd|].
           split; [|apply NoDup_singleton].
           intros x Hx Hx'. apply list_elem_of_In in Hx.
           apply list_elem_of_In in Hx'. destruct Hx' as [<-|[]]. tauto.
        -- intros k c0 [H0|H0]%in_app_iff; [now apply Hkeep|].
           destruct H0 as [H0|[]]. injection H0 as <- <-.
           split; [reflexivity|]. exists l, []. split; [reflexivity|].
           split; [exact Ee|].
           intros c' Hc' He' Heq. apply Hfresh. rewrite <- Heq. now apply Hall.
        -- intros c1 [H1|H1]%in_app_iff He1; rewrite map_app, in_app_iff.
           ++ left. now apply Hall.
           ++ destruct H1 as [<-|[]]. right. now left.
    + split; [exact Hnd|]. split; [exact Hkeep|].
      intros c1 [H1|H1]%in_app_iff He1; [now apply Hall|].
      destruct H1 as [<-|[]]. congruence.
Qed.

Lemma paramConversions_chosen (typed : Typed) (param : Param) :
  paramConversions typed param
  = map snd (Keys.enumerate (chosen param (conversions typed))).
Proof. reflexivity. Qed.

End ChosenConversions.

(** X3: the conversions chosen for a param have pairwise different sources;
    each is a registered conversion to a type of the param from a type that
    is not in the param and is not the name of a property of
    [Object.prototype], and the first such conversion with its source in
    the registry; and the source of every such registered conversion is the
    source of a chosen one. *)
Theorem paramConversions_first_win (typed : Typed) (param : Param) :
  NoDup (map from (paramConversions typed param))
  /\ (forall c, In c (paramConversions typed param) ->
                firstFrom param (conversions typed) c)
  /\ (forall c, In c (conversions typed) -> eligible param c = true ->
                In (from c) (map from (paramConversions typed param))).
Proof.
  rewrite paramConversions_chosen.
  destruct (chosen_invariant param (conversions typed)) as [Hnd [Hin Hall]].
  set (obj := chosen param (conversions typed)) in *.
  assert (Hkeys : map from (map snd (Keys.enumerate obj))
                  = map fst (Keys.enumerate obj)).
  { rewrite map_map. apply map_ext_in. intros [k c] He.
    apply (proj1 (enumerate_In _ _)) in He. now destruct (Hin k c He) as [-> _]. }
  rewrite Hkeys. split; [|split].
  - assert (P : Permutation (map fst (Keys.enumerate obj)) (map fst obj))
      by apply Permutation_map, enumerate_Permutation.
    now rewrite P.
  - intros c Hc. apply in_map_iff in Hc as [[k c0] [<- He]].
    apply (proj1 (enumerate_In _ _)) in He. now destruct (Hin k c0 He).
  - intros c Hc He. specialize (Hall c Hc He).
    apply in_map_iff in Hall as [e [<- Hi]]. apply in_map_iff. exists e.
    split; [reflexivity|]. now apply enumerate_In.
Qed.

(** ** The wrapper of a conversion def and the rest gather *)

Section Wrapper.

Lemma gather_split (n : nat) (args : list Value) :
  (1 <= n)%nat ->
  gather n args = take (n - 1) args ++ [VArray (drop (n - 1) args)].
Proof.
  intros Hn. unfold gather.
  replace (Z.of_nat n - 1) with (Z.of_nat (n - 1)) by lia.
  now rewrite slice_from, slice_upto.
Qed.

Lemma initial_snoc {A} (l : list A) (x : A) : initial (l ++ [x]) = l.
Proof.
  unfold initial. rewrite length_app. simpl.
  replace (length l + 1 - 1)%nat with (length l) by lia.
  now rewrite take_app_length.
Qed.

Lemma ungather_snoc (leading items : list Value) :
  ungather true (leading ++ [VArray items]) = leading ++ items.
Proof. unfold ungather. now rewrite last_snoc, initial_snoc. Qed.

Lemma convertFrom_imap (cc : list CompiledConversion) (i : nat) (vs : list Value) :
  (i + length vs <= length cc)%nat ->
  exists log,
    convertFrom cc i vs = Some (imap (fun k => convertedBy cc (i + k)) vs, log).
Proof.
  revert i. induction vs as [|v vs IH]; intros i Hl; [now exists []|].
  simpl in Hl. cbn [convertFrom].
  destruct (cc !! i) as [compiled|] eqn:Ec.
  2: { apply lookup_ge_None in Ec. lia. }
  destruct (IH (S i) ltac:(lia)) as [log Hlog]. rewrite Hlog.
  exists (snd (convertArg compiled v) ++ log). cbn [fst snd]. rewrite imap_cons.
  assert (E1 : convertedBy cc (i + 0) v = fst (convertArg compiled v))
    by (unfold convertedBy; now rewrite Nat.add_0_r, Ec).
  rewrite E1. do 3 f_equal.
  apply imap_ext. intros k x _. simpl. now rewrite Nat.add_succ_r.
Qed.

Lemma convertAll_map (compiled : CompiledConversion) (vs : list Value) :
  exists log,
    convertAll compiled vs = (map (fun v => fst (convertArg compiled v)) vs, log).
Proof.
  induction vs as [|v vs [log IH]]; [now exists []|].
  cbn [convertAll]. rewrite IH. eexists. reflexivity.
Qed.

(** The wrapper of a def without rest param. *)
Lemma convertArgs_plain (cc : list CompiledConversion) (args : list Value) :
  (length args <= length cc)%nat ->
  exists log, convertArgs cc false args = Some (imap (convertedBy cc) args, log).
Proof.
  intros Hl. unfold convertArgs. rewrite Nat2Z.id, firstn_all.
  destruct (convertFrom_imap cc 0 args ltac:(lia)) as [log ->].
  exists log. reflexivity.
Qed.

(** The wrapper of a def with rest param, on a gathered argument list. *)
Lemma convertArgs_rest (cc : list CompiledConversion) (leading items : list Value) :
  (length leading < length cc)%nat ->
  exists log,
    convertArgs cc true (leading ++ [VArray items])
    = Some (imap (convertedBy cc) leading
            ++ [VArray (map (convertedBy cc (length leading)) items)], log).
Proof.
  intros Hl. unfold convertArgs.
  rewrite length_app. simpl (length [_]).
  replace (Z.of_nat (length leading + 1) - 1) with (Z.of_nat (length leading))
    by lia.
  rewrite Nat2Z.id, take_app_length.
  destruct (convertFrom_imap cc 0 leading ltac:(lia)) as [log ->].
  assert (Hneg : (Z.of_nat (length leading) <? 0) = false)
    by (apply Z.ltb_ge; lia).
  rewrite Hneg.
  assert (Hlast : (leading ++ [VArray items]) !! length leading
                  = Some (VArray items)).
  { rewrite lookup_app_r by lia. now rewrite Nat.sub_diag. }
  rewrite Hlast.
  destruct (cc !! length leading) as [compiled|] eqn:Ec.
  2: { apply lookup_ge_None in Ec. lia. }
  destruct (convertAll_map compiled items) as [log' ->].
  exists (log ++ log'). cbn [fst snd].
  rewrite (map_ext (convertedBy cc (length leading))
                   (fun v => fst (convertArg compiled v)))
    by (intros v; unfold convertedBy; now rewrite Ec).
  reflexivity.
Qed.

End Wrapper.

(** ** What a call does *)

Section Dispatch.

Context {Fn : Type}.
Implicit Types (def : Def Fn) (sigs : list (string * Fn)).

#[local] Ltac lens := unfold Param in *; lia.

Lemma parseParamsFrom_shape (len index : nat) (arr : list string) r :
  parseParamsFrom len index arr = OK r ->
  length (fst r) = length arr /\ (snd r = true -> arr <> []).
Proof.
  revert index r. induction arr as [|param arr IH]; intros index r H;
    cbn [parseParamsFrom] in H.
  - injection H as <-. split; [reflexivity | discriminate].
  - destruct (Str.starts_with "..." param && negb (index =? len - 1)%nat);
      [discriminate|].
    destruct (parseParamsFrom len (S index) arr) as [pushed|] eqn:E;
      [|discriminate].
    cbn [bind] in H. injection H as <-. destruct (IH _ _ E) as [Hl _].
    cbn [fst snd length]. split; [now rewrite Hl | discriminate].
Qed.

Lemma filterParams_length (typed : Typed) (ps ps' : list Param) :
  filterParams typed ps = Some ps' -> length ps' = length ps.
Proof.
  revert ps'. induction ps as [|p ps IH]; intros ps' H; cbn [filterParams] in H.
  - now injection H as <-.
  - destruct (List.filter (notIgnore typed) p); [discriminate|].
    destruct (filterParams typed ps) as [qs|]; [|discriminate].
    cbn in H. injection H as <-. simpl. now rewrite (IH qs).
Qed.

(** A signature with a rest param has a param. *)
Lemma normalize_rest (typed : Typed) (key : string) (signature : Signature) :
  Canon.normalize typed key = Some signature ->
  restParam signature = true -> params signature <> [].
Proof.
  unfold Canon.normalize, filterIgnoredTypes, parseParams.
  destruct (Str.is_empty (Str.trim key)).
  - cbn. intros H. injection H as <-. discriminate.
  - destruct (parseParamsFrom _ 0 _) as [pushed|] eqn:E; [|discriminate].
    cbn [bind params restParam].
    destruct (filterParams typed (fst pushed)) as [ps|] eqn:Ef; [|discriminate].
    cbn. intros H. injection H as <-. cbn. intros Hr.
    destruct (parseParamsFrom_shape _ _ _ _ E) as [Hl Hne].
    apply filterParams_length in Ef. specialize (Hne Hr).
    destruct ps; [|discriminate]. simpl in Ef. intros _. apply Hne.
    apply length_zero_iff_nil. lia.
Qed.

Lemma getConversions_Some (typed : Typed) (ps : list Param) conversions :
  getConversions typed ps = Some conversions ->
  conversions = map (paramConversions typed) ps.
Proof.
  unfold getConversions. destruct (existsb _ _); [|discriminate].
  now intros H; injection H as <-.
Qed.

Lemma zip_with_map_same {A B C} (g : A -> B -> C) (h : A -> B) (l : list A) :
  zip_with g l (map h l) = map (fun x => g x (h x)) l.
Proof. induction l as [|a l IH]; simpl; [reflexivity | now rewrite IH]. Qed.

Lemma imap_constant {A B} (g : nat -> A -> B) (h : A -> B) (l : list A) :
  (forall k x, l !! k = Some x -> g k x = h x) -> imap g l = map h l.
Proof.
  revert g. induction l as [|a l IH]; intros g H; [reflexivity|].
  cbn [imap map]. rewrite (H 0%nat a eq_refl). f_equal.
  apply IH. intros k x Hk. exact (H (S k) x Hk).
Qed.

Lemma mapM_lookup_l {A B} (f : A -> Res B) (l : list A) (r : list B) (i : nat)
      (x : A) :
  mapM f l = OK r -> l !! i = Some x -> exists y, r !! i = Some y /\ f x = OK y.
Proof.
  revert r i. induction l as [|a l IH]; intros r i H Hx; [discriminate|].
  cbn [mapM] in H. destruct (f a) as [b|] eqn:Ef; [|discriminate]. cbn [bind] in H.
  destruct (mapM f l) as [bs|]; [|discriminate]. cbn [bind] in H. injection H as <-.
  destruct i as [|i]; simpl in *.
  - injection Hx as <-. eauto.
  - now apply IH.
Qed.

Lemma fastDefs_In (l : list (Def Fn)) (n : nat) def :
  In def (fastDefs l n) -> In def l.
Proof.
  revert l. induction n as [|n IH]; intros [|d l]; cbn [fastDefs];
    try (now intros []).
  destruct (qualifies d); [intros [<-|H]|intros H]; simpl; auto.
Qed.

(** A call stops at a def that accepts the arguments, whichever of the
    specialised function and the generic loop finds it, or throws. *)
Lemma call_cases (typed typed' : Typed) (fname : string) sigs
      (f : TypedFunction Fn) (arguments : list Value) :
  createTypedFunction typed fname sigs = OK f ->
  (exists def, In def (defs f) /\ def_test def arguments = true
               /\ call typed' f arguments = dispatchTo def arguments)
  \/ ((forall def, In def (defs f) -> def_test def arguments = false)
      /\ call typed' f arguments
         = Thrown (createError typed' fname arguments (defs f))).
Proof.
  intros H.
  destruct (createTypedFunction_fast _ _ _ _ H) as [tests0 [tests1 [E0 [E1 [Hf Hi]]]]].
  destruct (createTypedFunction_OK _ _ _ _ H) as [_ [_ [_ [_ [_ [_ Hn]]]]]].
  pose proof (defs_compiled _ _ _ _ H) as Hc.
  unfold call, generic. rewrite Hf, Hn.
  rewrite (fastFrom_fastDefs typed (defs f) tests0 tests1 arguments 6 0 Hc).
  2: { intros k Hk. split; eapply mapM_nth; eauto; now apply lookup_seq_lt. }
  rewrite drop_0.
  destruct (genericFrom (fastDefs (defs f) 6) arguments) as [o|] eqn:Efast.
  { left. destruct (genericFrom_Some _ _ _ Efast) as [def [Hin [Ht ->]]].
    exists def. split; [now apply fastDefs_In in Hin | auto]. }
  destruct (genericFrom (drop (iStart f) (defs f)) arguments) as [o|] eqn:Egen.
  { left. destruct (genericFrom_Some _ _ _ Egen) as [def [Hin [Ht ->]]].
    exists def. split; [|auto].
    rewrite <- (take_drop (iStart f) (defs f)). apply in_app_iff. now right. }
  right. split; [|reflexivity]. intros def Hin.
  rewrite Hi in Egen.
  destruct (forallb (okAt (defs f)) (seq 0 6)) eqn:Eall.
  - rewrite fastDefs_all in Efast.
    + rewrite <- (take_drop 6 (defs f)) in Hin.
      apply in_app_iff in Hin as [Hin|Hin];
        [exact (genericFrom_None _ _ _ Efast Hin)
        | exact (genericFrom_None _ _ _ Egen Hin)].
    + intros k Hk. apply (proj1 (forallb_forall _ _) Eall). apply in_seq. lia.
  - rewrite drop_0 in Egen. exact (genericFrom_None _ _ _ Egen Hin).
Qed.

(** An original def that accepts the arguments calls its function, on the
    arguments or on the gathered arguments. *)
Lemma dispatch_original (typed : Typed) sigs def (arguments : list Value) :
  builtOriginal typed sigs def ->
  def_test def arguments = true ->
  exists key g,
    In (key, g) sigs
    /\ Canon.normalize typed key = Some (signature def)
    /\ signatureAccepts typed (signature def) arguments
    /\ dispatchTo def arguments
       = Invoked g (if restParam (signature def)
                    then gather (length (params (signature def))) arguments
                    else arguments) [].
Proof.
  intros [key [g [Hin [Hn [_ [Hfn [Hr [Hp Hc]]]]]]]] Ht.
  exists key, g. split; [exact Hin|]. split; [exact Hn|].
  split; [now apply (compiled_test_accepts typed _ _ arguments Hc)|].
  unfold dispatchTo. rewrite Hr, Hp, Hfn.
  now destruct (restParam (signature def)).
Qed.

(** A conversion def that accepts the arguments calls the function of its
    original on the arguments converted position by position. *)
Lemma dispatch_twin (typed : Typed) sigs def (arguments : list Value) :
  builtTwin typed sigs def ->
  def_test def arguments = true ->
  exists (original : Def Fn) key g cc log args',
    In (key, g) sigs
    /\ Canon.normalize typed key = Some (signature original)
    /\ params (signature def)
       = map (fun p => p ++ map from (paramConversions typed p))
             (params (signature original))
    /\ restParam (signature def) = restParam (signature original)
    /\ mapM (compileArgConversion typed)
            (map (paramConversions typed) (params (signature original))) = OK cc
    /\ signatureAccepts typed (signature def) arguments
    /\ dispatchTo def arguments = Invoked g args' log
    /\ ungather (restParam (signature original)) args'
       = imap (fun k => convertedBy cc (Nat.min k (length cc - 1))) arguments.
Proof.
  intros [original [conversions [cc [Ho [Hg [Hm [Hs [_ [Hfn [Hr [Hp Hc]]]]]]]]]]] Ht.
  destruct Ho as [key [g [Hin [Hn [_ [Hfo [Hro [Hpo _]]]]]]]].
  apply getConversions_Some in Hg. subst conversions.
  assert (Hparams : params (signature def)
                    = map (fun p => p ++ map from (paramConversions typed p))
                          (params (signature original))).
  { rewrite Hs. unfold addConvertableParams. cbn [params].
    exact (zip_with_map_same (fun param cs => param ++ map from cs)
                             (paramConversions typed) _). }
  assert (Hrest : restParam (signature def) = restParam (signature original))
    by (now rewrite Hs).
  pose proof (mapM_length _ _ _ Hm) as Hlen. rewrite length_map in Hlen.
  pose proof (proj1 (compiled_test_accepts typed _ _ arguments Hc) Ht) as Hsa.
  pose proof Hsa as Hacc.
  unfold dispatchTo. rewrite Hr, Hp, Hpo, Hfn, Hfo, !Hro.
  unfold signatureAccepts in Hacc. rewrite Hrest in Hacc.
  destruct (restParam (signature original)) eqn:Erest.
  - destruct Hacc as [leading [trailing [-> [Hlead [Hne Htrail]]]]].
    pose proof (normalize_rest typed key _ Hn Erest) as Hnonempty.
    assert (Hn1 : (1 <= length (params (signature original)))%nat).
    { destruct (params (signature original)); [congruence | simpl; lens]. }
    apply Forall2_length in Hlead. unfold initial in Hlead.
    rewrite length_take, Hparams, length_map in Hlead.
    rewrite Nat.min_l in Hlead by lens.
    assert (Hll : length leading = (length cc - 1)%nat) by lens.
    rewrite (gather_split _ _ Hn1).
    replace (length (params (signature original)) - 1)%nat with (length leading)
      by lens.
    rewrite take_app_length, drop_app_length.
    destruct (convertArgs_rest cc leading trailing ltac:(lens)) as [log Hlog].
    exists original, key, g, cc, log. eexists.
    split; [exact Hin|]. split; [exact Hn|]. split; [exact Hparams|].
    split; [congruence|]. split; [exact Hm|]. split; [exact Hsa|].
    cbn [applyImpl]. rewrite Hlog. cbn [applyImpl fst snd app].
    split; [reflexivity|].
    rewrite Erest, ungather_snoc, imap_app. f_equal.
    + apply imap_ext. intros k x Hk. apply lookup_lt_Some in Hk.
      f_equal. lens.
    + symmetry. apply imap_constant. intros k x Hk.
      apply lookup_lt_Some in Hk.
      assert (Hlt : (0 < length trailing)%nat) by lia.
      f_equal. lens.
  - pose proof (Forall2_length _ _ _ Hacc) as Hl.
    rewrite Hparams, length_map in Hl.
    destruct (convertArgs_plain cc arguments ltac:(lens)) as [log Hlog].
    exists original, key, g, cc, log. eexists.
    split; [exact Hin|]. split; [exact Hn|]. split; [exact Hparams|].
    split; [congruence|]. split; [exact Hm|]. split; [exact Hsa|].
    cbn [applyImpl]. rewrite Hlog. cbn [applyImpl fst snd app].
    split; [reflexivity|]. rewrite Erest. cbn [ungather].
    apply imap_ext. intros k x Hk. apply lookup_lt_Some in Hk. f_equal. lens.
Qed.

End Dispatch.

(** ** Converted arguments have the types of the original signature *)

Section Safety.

Context {Fn : Type}.
Implicit Types (def : Def Fn) (sigs : list (string * Fn)).

#[local] Ltac lens := unfold Param in *; lia.

Lemma paramConversions_In (typed : Typed) (param : Param) (c : Conversion) :
  In c (paramConversions typed param) ->
  In c (conversions typed) /\ eligible param c = true.
Proof.
  rewrite paramConversions_chosen. intros Hc.
  apply in_map_iff in Hc as [[k c0] [Hs He]]. cbn in Hs. subst c0.
  apply (proj1 (enumerate_In _ _)) in He.
  destruct (chosen_invariant param (conversions typed)) as [_ [Hin _]].
  destruct (Hin k c He) as [_ [l1 [l2 [Hl [Hel _]]]]].
  split; [|exact Hel]. rewrite Hl. apply in_app_iff. right. now left.
Qed.

Lemma accepts_In (typed : Typed) (param : Param) (type : string) (x : Value) :
  In type param -> typeTest typed type x = true -> accepts typed param x = true.
Proof.
  intros Hin Ht. unfold accepts. destruct param as [|t0 param]; [reflexivity|].
  apply existsb_exists. eauto.
Qed.

Lemma accepts_app (typed : Typed) (p q : Param) (x : Value) :
  accepts typed (p ++ q) x = true ->
  accepts typed p x = true
  \/ exists type, In type q /\ typeTest typed type x = true.
Proof.
  destruct p as [|t0 p]; [now left|]. unfold accepts.
  change ((t0 :: p) ++ q) with (t0 :: (p ++ q)).
  change (t0 :: (p ++ q)) with ((t0 :: p) ++ q).
  destruct ((t0 :: p) ++ q) eqn:E; [discriminate|]. rewrite <- E.
  rewrite existsb_app. intros H. apply orb_true_iff in H as [H|H]; [now left|].
  right. apply existsb_exists in H as [type [Hin Ht]]. eauto.
Qed.

Lemma mapM_In_l {A B} (f : A -> Res B) (l : list A) (r : list B) (x : A) :
  mapM f l = OK r -> In x l -> exists y, In y r /\ f x = OK y.
Proof.
  intros H Hin. apply (In_nth_error l x) in Hin as [i Hi].
  assert (Hl : l !! i = Some x).
  { clear -Hi. revert i Hi. induction l as [|a l IH]; intros [|i] Hi;
      simpl in *; try discriminate; auto. }
  destruct (mapM_lookup_l f l r i x H Hl) as [y [Hy Hf]].
  exists y. split; [|exact Hf]. clear -Hy. revert i Hy.
  induction r as [|b r IH]; intros [|i] Hy; simpl in *; try discriminate.
  - injection Hy as <-. now left.
  - right. eauto.
Qed.

(** What [convertArg] hands on has a type of the original param. *)
Lemma convertArg_sound (typed : Typed) (param : Param)
      (compiled : CompiledConversion) (x : Value) :
  honest typed ->
  compileArgConversion typed (paramConversions typed param) = OK compiled ->
  accepts typed (param ++ map from (paramConversions typed param)) x = true ->
  accepts typed param (fst (convertArg compiled x)) = true.
Proof.
  intros Hh Hc Ha.
  assert (Hall : forall t c, In (t, c) compiled ->
                   In c (conversions typed) /\ eligible param c = true
                   /\ findTest typed (from c) = OK t).
  { intros t c Hin. destruct (compileArgConversion_In _ _ _ _ _ Hc Hin) as [Hp Hf].
    destruct (paramConversions_In _ _ _ Hp). auto. }
  assert (Hor : accepts typed param x = true
                \/ exists t c, In (t, c) compiled /\ t x = true).
  { apply accepts_app in Ha as [Ha|[type [Hin Ht]]]; [now left|]. right.
    apply in_map_iff in Hin as [c [<- Hin]].
    destruct (mapM_In_l _ _ _ c Hc Hin) as [[t c'] [Hy Hf]].
    destruct (findTest typed (from c)) as [t'|] eqn:Ef; [|discriminate].
    cbn [bind] in Hf. injection Hf as <- <-.
    exists t', c. split; [exact Hy|]. unfold typeTest in Ht. now rewrite Ef in Ht. }
  clear Hc Ha. induction compiled as [|[t c] compiled IH]; cbn [convertArg].
  - destruct Hor as [Ha|[t [c [[] _]]]]. exact Ha.
  - destruct (Hall t c (or_introl eq_refl)) as [Hin [Hel Hf]].
    destruct (t x) eqn:Et; cbn [fst].
    + apply andb_true_iff in Hel as [Hel _].
      apply andb_true_iff in Hel as [_ Hto]. apply includes_In in Hto.
      apply (accepts_In typed param (to c)); [exact Hto|].
      apply Hh; [exact Hin|]. unfold typeTest. now rewrite Hf.
    + apply IH.
      * intros t' c' Hin'. apply Hall. now right.
      * destruct Hor as [Ha|[t' [c' [[He|Hin'] Ht']]]]; [now left| |right; eauto].
        injection He as <- <-. congruence.
Qed.

(** The same at a position of a signature. *)
Lemma position_sound (typed : Typed) (ps : list Param)
      (cc : list CompiledConversion) (k : nat) (param : Param) (x : Value) :
  honest typed ->
  mapM (compileArgConversion typed) (map (paramConversions typed) ps) = OK cc ->
  ps !! k = Some param ->
  acceptsP typed (param ++ map from (paramConversions typed param)) x ->
  acceptsP typed param (convertedBy cc k x).
Proof.
  intros Hh Hm Hk Ha.
  assert (Hl : map (paramConversions typed) ps !! k
               = Some (paramConversions typed param)).
  { clear -Hk. revert k Hk. induction ps as [|p ps IH]; intros [|k] Hk;
      simpl in *; try discriminate; [now injection Hk as <- | auto]. }
  destruct (mapM_lookup_l _ _ _ _ _ Hm Hl) as [compiled [Hc Hf]].
  unfold acceptsP, convertedBy. rewrite Hc.
  now apply (convertArg_sound typed param).
Qed.

Lemma Forall2_map_imap {A B C} (P : A -> C -> Prop) (Q : B -> C -> Prop)
      (h : B -> A) (g : nat -> C -> C) (ps : list B) (args : list C) :
  (forall k p x, ps !! k = Some p -> P (h p) x -> Q p (g k x)) ->
  Forall2 P (map h ps) args -> Forall2 Q ps (imap g args).
Proof.
  revert g args. induction ps as [|p ps IH]; intros g args Hg H;
    inversion H as [|? a ? args' Ha Hrest]; subst; cbn [imap]; constructor.
  - exact (Hg 0%nat p a eq_refl Ha).
  - apply IH; [|exact Hrest]. intros k q x Hk. exact (Hg (S k) q x Hk).
Qed.

Lemma last_map {A B} (h : A -> B) (l : list A) :
  last (map h l) = option_map h (last l).
Proof.
  induction l as [|a [|b l] IH]; [reflexivity | reflexivity |].
  exact IH.
Qed.

Lemma Forall_last_imap {A B C} (P : A -> C -> Prop) (Q : B -> C -> Prop)
      (h : B -> A) (g : nat -> C -> C) (ps : list B) (trailing : list C) :
  (forall k p x, last ps = Some p -> P (h p) x -> Q p (g k x)) ->
  Forall (fun x => match last (map h ps) with Some p => P p x | None => True end)
         trailing ->
  Forall (fun x => match last ps with Some p => Q p x | None => True end)
         (imap g trailing).
Proof.
  intros Hg. rewrite last_map. destruct (last ps) as [p|]; cbn [option_map].
  - intros H. apply Forall_lookup. intros i y Hy.
    rewrite list_lookup_imap in Hy.
    destruct (trailing !! i) as [x|] eqn:Ex; [|discriminate].
    cbn in Hy. injection Hy as <-. apply Hg; [reflexivity|].
    exact (proj1 (Forall_lookup _ _) H i x Ex).
  - intros _. now apply Forall_forall.
Qed.

(** The arguments a conversion def accepts are, once converted, arguments
    its original accepts. *)
Lemma twin_sound (typed : Typed) (original twin : Signature)
      (cc : list CompiledConversion) (arguments : list Value) :
  honest typed ->
  params twin = map (fun p => p ++ map from (paramConversions typed p))
                    (params original) ->
  restParam twin = restParam original ->
  (restParam original = true -> params original <> []) ->
  mapM (compileArgConversion typed)
       (map (paramConversions typed) (params original)) = OK cc ->
  signatureAccepts typed twin arguments ->
  signatureAccepts typed original
    (imap (fun k => convertedBy cc (Nat.min k (length cc - 1))) arguments).
Proof.
  intros Hh Hp Hr Hne Hm. unfold signatureAccepts. rewrite Hr, Hp.
  pose proof (mapM_length _ _ _ Hm) as Hlen. rewrite length_map in Hlen.
  set (h := fun p => p ++ map from (paramConversions typed p)).
  destruct (restParam original) eqn:Erest.
  - specialize (Hne eq_refl).
    intros [leading [trailing [-> [Hlead [Hnt Htrail]]]]].
    unfold initial in *. rewrite length_map, firstn_map in Hlead.
    pose proof (Forall2_length _ _ _ Hlead) as Hll.
    rewrite length_map, length_take in Hll.
    assert (Hn1 : (1 <= length (params original))%nat).
    { destruct (params original); [congruence | simpl; lia]. }
    rewrite imap_app. eexists _, _. split; [reflexivity|]. split; [|split].
    + apply (Forall2_map_imap (acceptsP typed) (acceptsP typed) h); [|exact Hlead].
      intros k p x Hk Ha. apply lookup_take_Some in Hk as [Hk Hlt].
      replace (Nat.min k (length cc - 1)) with k by lens.
      now apply (position_sound typed (params original)).
    + intros E. apply (f_equal length) in E. rewrite length_imap in E.
      destruct trailing; [congruence | discriminate].
    + apply (Forall_last_imap (acceptsP typed) (acceptsP typed) h);
        [|exact Htrail].
      intros k p x El Ha. rewrite last_lookup in El.
      replace (Nat.min (length leading + k) (length cc - 1))
        with (pred (length (params original))) by lens.
      now apply (position_sound typed (params original)).
  - intros H. pose proof (Forall2_length _ _ _ H) as Hll.
    rewrite length_map in Hll.
    apply (Forall2_map_imap (acceptsP typed) (acceptsP typed) h); [|exact H].
    intros k p x Hk Ha. pose proof (lookup_lt_Some _ _ _ Hk) as Hlt.
    replace (Nat.min k (length cc - 1)) with k by lens.
    now apply (position_sound typed (params original)).
Qed.

Lemma ungather_gather (n : nat) (arguments : list Value) :
  (1 <= n)%nat -> ungather true (gather n arguments) = arguments.
Proof.
  intros Hn. rewrite (gather_split _ _ Hn), ungather_snoc. apply take_drop.
Qed.

End Safety.



(** X5: with conversions that turn a value of their source type into a
    value of their target type, the function a call invokes is given
    arguments of its own signature: the signature under which it stands in
    the signatures map accepts them, a gathered rest array spread again. *)
Theorem call_type_safe {Fn} (typed typed' : Typed) (fname : string)
        (sigs : list (string * Fn)) (f : TypedFunction Fn)
        (arguments args' : list Value) (g : Fn) (log : list ConvertCall) :
  createTypedFunction typed fname sigs = OK f ->
  honest typed ->
  call typed' f arguments = Invoked g args' log ->
  exists key signature,
    In (key, g) sigs
    /\ Canon.normalize typed key = Some signature
    /\ signatureAccepts typed signature (ungather (restParam signature) args').
Proof.
  intros H Hh Hcall.
  destruct (call_cases typed typed' fname sigs f arguments H)
    as [[def [Hin [Ht Hc]]]|[_ Hc]]; [|congruence].
  destruct (defs_built _ _ _ _ H) as [originals [twins [Hd [Ho Htw]]]].
  rewrite Hd in Hin. apply in_app_iff in Hin as [Hin|Hin].
  - pose proof (proj1 (List.Forall_forall _ _) Ho def Hin) as Hb.
    destruct (dispatch_original typed sigs def arguments Hb Ht)
      as [key [g0 [Hs [Hn [Ha Hdisp]]]]].
    rewrite Hc, Hdisp in Hcall. injection Hcall as -> <- _.
    exists key, (signature def). split; [exact Hs|]. split; [exact Hn|].
    destruct (restParam (signature def)) eqn:Er; [|exact Ha].
    rewrite ungather_gather; [exact Ha|].
    pose proof (normalize_rest typed key _ Hn Er) as Hne.
    destruct (params (signature def)); [congruence | simpl; lia].
  - pose proof (proj1 (List.Forall_forall _ _) Htw def Hin) as Hb.
    destruct (dispatch_twin typed sigs def arguments Hb Ht)
      as [original [key [g0 [cc [log0 [args0 [Hs [Hn [Hp [Hr [Hm [Ha [Hdisp Hu]]]]]]]]]]]]].
    rewrite Hc, Hdisp in Hcall. injection Hcall as -> -> _.
    exists key, (signature original). split; [exact Hs|]. split; [exact Hn|].
    rewrite Hu.
    exact (twin_sound typed (signature original) (signature def) cc arguments
             Hh Hp Hr (normalize_rest typed key _ Hn) Hm Ha).
Qed.

(** X5 at work: [{ "number": f1, "string": f2 }] with [boolean -> number]
    registered, called on [true]; the boolean reaches [f1] as a number. *)
Lemma call_type_safe_witness :
  let typed := Examples.withBooleanToNumber in
  exists key signature,
    In (key, 1%nat) [("number", 1%nat); ("string", 2%nat)]
    /\ Canon.normalize typed key = Some signature
    /\ signatureAccepts typed signature
         (ungather (restParam signature) [VNumber 1]).
Proof.
  cbv zeta.
  apply (call_type_safe Examples.withBooleanToNumber Examples.withBooleanToNumber
           "f" [("number", 1%nat); ("string", 2%nat)] Examples.numberOrStringFn
           [VBoolean true] [VNumber 1] 1%nat
           [(Examples.booleanToNumber, VBoolean true)]).
  - vm_compute. reflexivity.
  - intros c x [<-|[]] _.
    destruct x as [| |[|]| | | | | | | | |]; vm_compute; reflexivity.
  - vm_compute. reflexivity.
Defined.

(** ** The order in which the defs are tried *)

Section Sorting.

Context {Fn : Type}.
Implicit Types (def : Def Fn) (sigs : list (string * Fn)).
Variable typesIndexMap : gmap string Z.

Lemma compareParamsFrom_indices (ps1 ps2 : list Param) (ks1 ks2 : list Z)
      (otherwise : Z) :
  indices typesIndexMap ps1 ks1 -> indices typesIndexMap ps2 ks2 ->
  compareParamsFrom ps1 ps2 typesIndexMap (Some otherwise)
  = Some (compareIndices ks1 ks2 otherwise).
Proof.
  intros H1. revert ps2 ks2.
  induction H1 as [|p1 k1 ps1 ks1 Hk1 _ IH]; intros ps2 ks2 H2.
  - now destruct H2.
  - destruct H2 as [|p2 k2 ps2 ks2 Hk2 H2]; [reflexivity|].
    cbn [compareParamsFrom compareIndices]. unfold compareParams.
    rewrite Hk1, Hk2. cbn [jsSub].
    destruct (k1 - k2) eqn:E; cbn [Z.eqb]; [now apply IH | reflexivity..].
Qed.

Lemma compareSignatures_rank (s1 s2 : Signature) (ks1 ks2 : list Z) :
  indices typesIndexMap (params s1) ks1 ->
  indices typesIndexMap (params s2) ks2 ->
  compareSignatures s1 s2 typesIndexMap
  = Some (rank (restParam s1) ks1 (restParam s2) ks2).
Proof.
  intros H1 H2. unfold compareSignatures, rank.
  destruct (negb (_ =? 0)); [reflexivity|].
  rewrite (Forall2_length _ _ _ H1), (Forall2_length _ _ _ H2).
  now apply compareParamsFrom_indices.
Qed.

Lemma compareIndices_opp (ks1 ks2 : list Z) (otherwise : Z) :
  compareIndices ks2 ks1 (- otherwise) = - compareIndices ks1 ks2 otherwise.
Proof.
  revert ks2. induction ks1 as [|k1 ks1 IH]; intros [|k2 ks2];
    cbn [compareIndices]; try reflexivity.
  destruct (k1 - k2 =? 0) eqn:E.
  - apply Z.eqb_eq in E. replace (k2 - k1 =? 0) with true
      by (symmetry; apply Z.eqb_eq; lia). apply IH.
  - apply Z.eqb_neq in E. replace (k2 - k1 =? 0) with false
      by (symmetry; apply Z.eqb_neq; lia). lia.
Qed.

Lemma rank_same (r : bool) (ks1 ks2 : list Z) :
  rank r ks1 r ks2
  = compareIndices ks1 ks2 (Z.of_nat (length ks1) - Z.of_nat (length ks2)).
Proof. unfold rank. now rewrite Z.sub_diag. Qed.

Lemma rank_opp (r1 r2 : bool) (ks1 ks2 : list Z) :
  rank r2 ks2 r1 ks1 = - rank r1 ks1 r2 ks2.
Proof.
  destruct r1, r2; rewrite ?rank_same; try reflexivity;
    rewrite <- compareIndices_opp; f_equal; lia.
Qed.

Lemma compareIndices_trans (ks1 ks2 ks3 : list Z) :
  compareIndices ks1 ks2 (Z.of_nat (length ks1) - Z.of_nat (length ks2)) <= 0 ->
  compareIndices ks2 ks3 (Z.of_nat (length ks2) - Z.of_nat (length ks3)) <= 0 ->
  compareIndices ks1 ks3 (Z.of_nat (length ks1) - Z.of_nat (length ks3)) <= 0.
Proof.
  assert (Hstep : forall k1 k2 l1 l2,
             compareIndices (k1 :: l1) (k2 :: l2)
               (Z.of_nat (length (k1 :: l1)) - Z.of_nat (length (k2 :: l2)))
             = if k1 - k2 =? 0
               then compareIndices l1 l2
                      (Z.of_nat (length l1) - Z.of_nat (length l2))
               else k1 - k2).
  { intros. cbn [compareIndices]. destruct (k1 - k2 =? 0); [|reflexivity].
    f_equal. cbn [length]. lia. }
  revert ks2 ks3. induction ks1 as [|k1 ks1 IH]; intros ks2 ks3.
  - intros _ _. cbn [compareIndices length]. lia.
  - destruct ks2 as [|k2 ks2].
    + cbn [compareIndices length]. lia.
    + destruct ks3 as [|k3 ks3].
      * intros _. cbn [compareIndices length]. lia.
      * rewrite !Hstep.
        destruct (k1 - k2 =? 0) eqn:E12; destruct (k2 - k3 =? 0) eqn:E23;
          destruct (k1 - k3 =? 0) eqn:E13;
          rewrite ?Z.eqb_eq, ?Z.eqb_neq in *; try lia.
        apply IH.
Qed.

Lemma rank_trans (r1 r2 r3 : bool) (ks1 ks2 ks3 : list Z) :
  rank r1 ks1 r2 ks2 <= 0 -> rank r2 ks2 r3 ks3 <= 0 ->
  rank r1 ks1 r3 ks3 <= 0.
Proof.
  destruct r1, r2, r3; rewrite ?rank_same;
    try apply compareIndices_trans;
    change (rank true ks1 false ks2) with 1;
    change (rank true ks2 false ks3) with 1;
    change (rank true ks1 false ks3) with 1;
    change (rank false ks1 true ks3) with (-1); lia.
Qed.

Lemma rank_rest (r1 r2 : bool) (ks1 ks2 : list Z) :
  rank r1 ks1 r2 ks2 <= 0 -> r1 = true -> r2 = true.
Proof.
  destruct r1, r2; intros H E; try reflexivity; try discriminate.
  change (rank true ks1 false ks2) with 1 in H. lia.
Qed.

Lemma inOrder_trans (d1 d2 d3 : Def Fn) :
  ranked typesIndexMap d1 -> ranked typesIndexMap d2 ->
  ranked typesIndexMap d3 ->
  inOrder typesIndexMap d1 d2 -> inOrder typesIndexMap d2 d3 ->
  inOrder typesIndexMap d1 d3.
Proof.
  intros [ks1 H1] [ks2 H2] [ks3 H3] [c [Hc Hle]] [c' [Hc' Hle']].
  rewrite (compareSignatures_rank _ _ _ _ H1 H2) in Hc.
  rewrite (compareSignatures_rank _ _ _ _ H2 H3) in Hc'.
  injection Hc as <-. injection Hc' as <-.
  exists (rank (restParam (signature d1)) ks1 (restParam (signature d3)) ks3).
  split; [now apply compareSignatures_rank|].
  exact (rank_trans _ _ _ _ _ _ Hle Hle').
Qed.

Lemma insertDef_sorted a (sorted : list (Def Fn)) :
  ranked typesIndexMap a -> Forall (ranked typesIndexMap) sorted ->
  ForallOrdPairs (inOrder typesIndexMap) sorted ->
  ForallOrdPairs (inOrder typesIndexMap) (insertDef typesIndexMap a sorted).
Proof.
  intros Ha Hr Hs. induction Hs as [|b sorted Hb Hs IH]; cbn [insertDef].
  - constructor; constructor.
  - pose proof (Forall_inv Hr) as Hrb. pose proof (Forall_inv_tail Hr) as Hrs.
    destruct Ha as [ka Hka]. destruct Hrb as [kb Hkb].
    rewrite (compareSignatures_rank _ _ _ _ Hka Hkb).
    destruct (0 <? rank _ ka _ kb) eqn:E.
    + apply Z.ltb_lt in E. constructor; [|exact (IH Hrs)].
      apply List.Forall_forall. intros x Hx. apply insertDef_In in Hx as [->|Hx].
      * exists (rank (restParam (signature b)) kb (restParam (signature a)) ka).
        split; [now apply compareSignatures_rank|]. rewrite rank_opp. lia.
      * exact (proj1 (List.Forall_forall _ _) Hb x Hx).
    + apply Z.ltb_ge in E.
      assert (Hab : inOrder typesIndexMap a b).
      { exists (rank (restParam (signature a)) ka (restParam (signature b)) kb).
        split; [now apply compareSignatures_rank | exact E]. }
      constructor; [|constructor; assumption].
      constructor; [exact Hab|].
      apply List.Forall_forall. intros x Hx.
      apply (inOrder_trans a b x); trivial.
      * now exists ka.
      * now exists kb.
      * exact (proj1 (List.Forall_forall _ _) Hrs x Hx).
      * exact (proj1 (List.Forall_forall _ _) Hb x Hx).
Qed.

Lemma sortDefs_sorted (l : list (Def Fn)) :
  Forall (ranked typesIndexMap) l ->
  ForallOrdPairs (inOrder typesIndexMap) (sortDefs typesIndexMap l).
Proof.
  intros H. induction H as [|a l Ha Hl IH]; cbn [sortDefs foldr].
  - constructor.
  - apply insertDef_sorted; [exact Ha | | exact IH].
    apply List.Forall_forall. intros x Hx. apply sortDefs_In in Hx.
    exact (proj1 (List.Forall_forall _ _) Hl x Hx).
Qed.

Lemma insertDef_Permutation a (sorted : list (Def Fn)) :
  Permutation (insertDef typesIndexMap a sorted) (a :: sorted).
Proof.
  induction sorted as [|b sorted IH]; cbn [insertDef]; [reflexivity|].
  destruct (compareSignatures _ _ _) as [c|]; [|reflexivity].
  destruct (0 <? c); [|reflexivity].
  rewrite IH. apply perm_swap.
Qed.

Lemma sortDefs_Permutation (l : list (Def Fn)) :
  Permutation (sortDefs typesIndexMap l) l.
Proof.
  induction l as [|a l IH]; cbn [sortDefs foldr]; [reflexivity|].
  rewrite insertDef_Permutation. now constructor.
Qed.

Lemma lookup_In {A} (l : list A) (i : nat) (x : A) : l !! i = Some x -> In x l.
Proof.
  revert i. induction l as [|b l IH]; intros [|i] Hi; simpl in *;
    try discriminate; [injection Hi as <-; now left | eauto].
Qed.

Lemma ordered_lookup {A} (R : A -> A -> Prop) (l : list A) :
  ForallOrdPairs R l ->
  forall i j x y, (i < j)%nat -> l !! i = Some x -> l !! j = Some y -> R x y.
Proof.
  intros H. induction H as [|a l Ha Hs IH]; intros i j x y Hij Hi Hj.
  - now rewrite lookup_nil in Hi.
  - destruct j as [|j]; [lia|]. cbn in Hj. destruct i as [|i]; cbn in Hi.
    + injection Hi as <-. apply (proj1 (List.Forall_forall _ _) Ha).
      exact (lookup_In _ _ _ Hj).
    + apply (IH i j); [lia | assumption..].
Qed.

End Sorting.

Section Ranked.

Context {Fn : Type}.
Implicit Types (def : Def Fn) (sigs : list (string * Fn)).

Lemma foldl_index_Some (l : list (nat * TypeDef)) (acc : gmap string Z)
      (k : string) :
  k <> "__proto__" ->
  is_Some (acc !! k) \/ In k (map (fun it => name (snd it)) l) ->
  is_Some (foldl (fun m it =>
                    if String.eqb (name (snd it)) "__proto__" then m
                    else <[name (snd it) := Z.of_nat (fst it)]> m) acc l
           !! k).
Proof.
  intros Hk. revert acc. induction l as [|a l IH]; intros acc H; cbn [foldl].
  - destruct H as [H|[]]. exact H.
  - apply IH. destruct H as [H|[H|H]].
    + left. destruct (String.eqb_spec (name (snd a)) "__proto__"); [exact H|].
      apply lookup_insert_is_Some'. now right.
    + left. destruct (String.eqb_spec (name (snd a)) "__proto__"); [congruence|].
      apply lookup_insert_is_Some'. now left.
    + now right.
Qed.

Lemma imap_names {A} (g : nat -> A) (l : list TypeDef) :
  map (fun it => name (snd it)) (imap (fun i x => (g i, x)) l) = map name l.
Proof.
  revert g. induction l as [|a l IH]; intros g; [reflexivity|].
  cbn [imap map snd]. f_equal. exact (IH (fun i => g (S i))).
Qed.

Lemma createTypesIndexMap_Some (l : list TypeDef) (entry : TypeDef) :
  In entry l -> name entry <> "__proto__" ->
  is_Some (createTypesIndexMap l !! name entry).
Proof.
  intros Hin Hne. unfold createTypesIndexMap.
  apply lookup_insert_is_Some'. right. apply lookup_insert_is_Some'. right.
  apply foldl_index_Some; [exact Hne|]. right.
  change (imap pair l) with (imap (fun i x => (i, x)) l).
  rewrite (imap_names (fun i => i)). now apply in_map.
Qed.

Lemma getLowestTypeIndex_Some (m : gmap string Z) (param : Param) :
  param <> [] -> (forall type, In type param -> is_Some (m !! type)) ->
  is_Some (getLowestTypeIndex param m).
Proof.
  destruct param as [|type0 param]; [congruence|]. intros _ H.
  cbn [getLowestTypeIndex].
  assert (H0 : is_Some (m !! type0)) by (apply H; now left).
  assert (Hp : forall type, In type param -> is_Some (m !! type))
    by (intros type Hin; apply H; now right).
  clear H. revert H0. generalize (m !! type0).
  induction param as [|type param IH]; intros acc Hacc; cbn [foldl]; [exact Hacc|].
  apply IH.
  - intros t Ht. apply Hp. now right.
  - destruct Hacc as [x ->]. destruct (Hp type (or_introl eq_refl)) as [y ->].
    cbn. eauto.
Qed.

Lemma filterParams_nonempty (typed : Typed) (ps ps' : list Param) :
  filterParams typed ps = Some ps' -> Forall (fun p => p <> []) ps'.
Proof.
  revert ps'. induction ps as [|p ps IH]; intros ps' H; cbn [filterParams] in H.
  - injection H as <-. constructor.
  - destruct (List.filter (notIgnore typed) p) as [|t q] eqn:E; [discriminate|].
    destruct (filterParams typed ps) as [qs|]; [|discriminate].
    cbn in H. injection H as <-. constructor; [discriminate | now apply IH].
Qed.

Lemma normalize_nonempty (typed : Typed) (key : string) (signature : Signature) :
  Canon.normalize typed key = Some signature ->
  Forall (fun p => p <> []) (params signature).
Proof.
  unfold Canon.normalize, filterIgnoredTypes.
  destruct (parseParams key) as [parsed|]; [|discriminate].
  destruct (filterParams typed (params parsed)) as [ps|] eqn:Ef; [|discriminate].
  cbn. intros H. injection H as <-. cbn [params].
  exact (filterParams_nonempty _ _ _ Ef).
Qed.

Lemma Forall_Some_Forall2 {A B} (g : A -> option B) (l : list A) :
  Forall (fun x => is_Some (g x)) l ->
  exists ks, Forall2 (fun x k => g x = Some k) l ks.
Proof.
  induction 1 as [|x l [k Hk] _ [ks IH]].
  - exists []. constructor.
  - exists (k :: ks). now constructor.
Qed.

(** Every param of an original def has a lowest type index. *)
Lemma built_ranked (typed : Typed) sigs def :
  (forall entry, In entry (types typed) -> name entry <> "__proto__") ->
  builtOriginal typed sigs def ->
  ranked (createTypesIndexMap (types typed)) def.
Proof.
  intros Hproto [key [g [_ [Hn [_ [_ [_ [_ Hc]]]]]]]].
  apply Forall_Some_Forall2. apply List.Forall_forall. intros p Hp.
  apply getLowestTypeIndex_Some.
  - exact (proj1 (List.Forall_forall _ _) (normalize_nonempty _ _ _ Hn) p Hp).
  - intros type Ht.
    destruct (compileParams_registered typed _ _ p type Hc Hp Ht) as [t' Hf].
    destruct (findTest_registered _ _ _ Hf) as [entry [Hin [<- _]]].
    apply createTypesIndexMap_Some; [exact Hin | exact (Hproto entry Hin)].
Qed.

End Ranked.

(** X6: the defs of a typed function are its original defs followed by the
    conversion defs; when no registered type is named "__proto__" (such a
    name gets no index in the map of [createTypesIndexMap]), the original
    defs are sorted: [compareSignatures] puts no def after one that follows
    it, so a def with a rest param is followed by defs with a rest param
    only. *)
Theorem defs_order {Fn} (typed : Typed) (fname : string)
        (sigs : list (string * Fn)) (f : TypedFunction Fn) :
  (forall entry, In entry (types typed) -> name entry <> "__proto__") ->
  createTypedFunction typed fname sigs = OK f ->
  exists originals twins,
    defs f = originals ++ twins
    /\ Forall (fun def => conversion def = false) originals
    /\ Forall (fun def => conversion def = true) twins
    /\ forall i j d1 d2,
         (i < j)%nat -> originals !! i = Some d1 -> originals !! j = Some d2 ->
         notAfter (createTypesIndexMap (types typed)) (signature d1) (signature d2)
         /\ (def_restParam d1 = true -> def_restParam d2 = true).
Proof.
  intros Hproto H.
  destruct (defs_built_sorted _ _ _ _ H) as [parsed [twins [_ [Hd [Hb Ht]]]]].
  set (m := createTypesIndexMap (types typed)) in *.
  exists (sortDefs m parsed), twins. split; [exact Hd|].
  assert (Hr : Forall (ranked m) parsed).
  { apply List.Forall_forall. intros d Hin.
    exact (built_ranked typed sigs d Hproto
             (proj1 (List.Forall_forall _ _) Hb d Hin)). }
  assert (Hs : forall d, In d (sortDefs m parsed) -> builtOriginal typed sigs d).
  { intros d Hin. apply sortDefs_In in Hin.
    exact (proj1 (List.Forall_forall _ _) Hb d Hin). }
  split; [|split].
  - apply List.Forall_forall. intros d Hin.
    now destruct (Hs d Hin) as [key [g [_ [_ [Hc _]]]]].
  - apply List.Forall_forall. intros d Hin.
    now destruct (proj1 (List.Forall_forall _ _) Ht d Hin)
      as [o [cs [cc [_ [_ [_ [_ [Hc _]]]]]]]].
  - intros i j d1 d2 Hij Hi Hj.
    pose proof (ordered_lookup _ _ (sortDefs_sorted m parsed Hr) i j d1 d2 Hij Hi Hj)
      as Ho.
    split; [exact Ho|].
    assert (H1 : In d1 (sortDefs m parsed)).
    { eapply lookup_In; eauto. }
    assert (H2 : In d2 (sortDefs m parsed)).
    { eapply lookup_In; eauto. }
    destruct (Hs d1 H1) as [_ [_ [_ [_ [_ [_ [Hr1 _]]]]]]].
    destruct (Hs d2 H2) as [_ [_ [_ [_ [_ [_ [Hr2 _]]]]]]].
    rewrite Hr1, Hr2.
    destruct (proj1 (List.Forall_forall _ _) Hr d1 (proj1 (sortDefs_In _ _ _) H1))
      as [ks1 Hk1].
    destruct (proj1 (List.Forall_forall _ _) Hr d2 (proj1 (sortDefs_In _ _ _) H2))
      as [ks2 Hk2].
    destruct Ho as [c [Hc Hle]].
    rewrite (compareSignatures_rank m _ _ _ _ Hk1 Hk2) in Hc. injection Hc as <-.
    exact (rank_rest _ _ _ _ Hle).
Qed.

(** X6 at work: [{ "...boolean": f2, "number": f1 }]; the def of "number"
    comes first. *)
Lemma defs_order_witness :
  let typed := Examples.withBooleanToNumber in
  let f := MoreExamples.restFirst in
  exists originals twins,
    defs f = originals ++ twins
    /\ Forall (fun def => conversion def = false) originals
    /\ Forall (fun def => conversion def = true) twins
    /\ forall i j d1 d2,
         (i < j)%nat -> originals !! i = Some d1 -> originals !! j = Some d2 ->
         notAfter (createTypesIndexMap (types typed)) (signature d1) (signature d2)
         /\ (def_restParam d1 = true -> def_restParam d2 = true).
Proof.
  cbv zeta.
  apply (defs_order Examples.withBooleanToNumber "f"
           [("...boolean", 2%nat); ("number", 1%nat)]).
  - intros entry Hin. cbn in Hin.
    repeat (destruct Hin as [<-|Hin]; [cbn; discriminate|]). destruct Hin.
  - vm_compute. reflexivity.
Defined.

(** ** What a wrongType error reports *)

Section WrongType.

Context {Fn : Type}.
Implicit Types (def : Def Fn) (sigs : list (string * Fn)).

Lemma set_NoDup {A} (k : string) (v : A) (l : list (string * A)) :
  NoDup (map fst l) -> NoDup (map fst (Keys.set k v l)).
Proof.
  induction l as [|[k' v'] l IH]; cbn [Keys.set map fst]; intros H.
  - apply NoDup_singleton.
  - apply NoDup_cons in H as [Hk Hl].
    destruct (String.eqb k k') eqn:E; cbn [map fst].
    + apply String.eqb_eq in E. subst. now apply NoDup_cons.
    + apply String.eqb_neq in E. apply NoDup_cons. split; [|now apply IH].
      rewrite list_elem_of_In, set_keys. rewrite list_elem_of_In in Hk.
      intros [->|Hin]; [congruence | tauto].
Qed.

Lemma assign_NoDup {A} (k : string) (v : A) (l : list (string * A)) :
  NoDup (map fst l) -> NoDup (map fst (Keys.assign k v l)).
Proof.
  unfold Keys.assign. destruct (String.eqb k "__proto__"); [trivial|].
  apply set_NoDup.
Qed.

Lemma uniq_NoDup (arr : list string) : NoDup (uniq arr).
Proof.
  unfold uniq.
  assert (P : Permutation
                (map fst (Keys.enumerate
                            (foldl (fun entries k => Keys.assign k true entries)
                                   [] arr)))
                (map fst (foldl (fun entries k => Keys.assign k true entries)
                                [] arr)))
    by apply Permutation_map, enumerate_Permutation.
  rewrite P. clear P. generalize (@NoDup_nil_2 string).
  change (@nil string) with (map fst (@nil (string * bool))).
  generalize (@nil (string * bool)).
  induction arr as [|a arr IH]; intros acc Hacc; cbn [foldl]; [exact Hacc|].
  apply IH. now apply assign_NoDup.
Qed.

(** The error of the loop "test for wrong type": it is raised at a
    position where none of the defs still matching takes the actual type. *)
Lemma narrow_inl (_name : string) (actualTypes : list string) (index : nat)
      (matchingDefs : list (Def Fn)) (err : TypeError) :
  narrow _name actualTypes index matchingDefs = inl err ->
  exists k actualType candidates,
    actualTypes !! k = Some actualType
    /\ (forall def, In def candidates -> In def matchingDefs)
    /\ nextMatchingDefs candidates (index + k) actualType = []
    /\ mergeExpectedParams candidates (index + k) <> []
    /\ err = wrongTypeError _name (index + k) actualType
                            (mergeExpectedParams candidates (index + k)).
Proof.
  revert index matchingDefs.
  induction actualTypes as [|actualType actualTypes IH]; intros index matchingDefs;
    cbn [narrow]; [discriminate|].
  destruct (nextMatchingDefs matchingDefs index actualType) as [|d next] eqn:En.
  - destruct (0 <? length (mergeExpectedParams matchingDefs index))%nat eqn:El.
    + intros H. injection H as <-. exists 0%nat, actualType, matchingDefs.
      rewrite Nat.add_0_r. repeat split; trivial.
      apply Nat.ltb_lt in El. intros E. rewrite E in El. simpl in El. lia.
    + intros H. destruct (IH _ _ H) as [k [a [c [Hk [Hc [Hn [Hm He]]]]]]].
      exists (S k), a, c. rewrite Nat.add_succ_r. repeat split; trivial.
  - intros H. destruct (IH _ _ H) as [k [a [c [Hk [Hc [Hn [Hm He]]]]]]].
    exists (S k), a, c. rewrite Nat.add_succ_r. repeat split; trivial.
    intros def Hd. specialize (Hc def Hd). rewrite <- En in Hc.
    unfold nextMatchingDefs in Hc. now apply filter_In in Hc.
Qed.

(** A def of a typed function has an expected param at every position. *)
Lemma defs_rest_param (typed : Typed) (fname : string) sigs
      (f : TypedFunction Fn) def :
  createTypedFunction typed fname sigs = OK f ->
  In def (defs f) ->
  restParam (signature def) = true -> params (signature def) <> [].
Proof.
  intros H Hin. destruct (defs_built _ _ _ _ H) as [originals [twins [Hd [Ho Ht]]]].
  rewrite Hd in Hin. apply in_app_iff in Hin as [Hin|Hin].
  - destruct (proj1 (List.Forall_forall _ _) Ho def Hin)
      as [key [g [_ [Hn _]]]].
    exact (normalize_rest typed key _ Hn).
  - destruct (proj1 (List.Forall_forall _ _) Ht def Hin)
      as [original [conversions [cc [Hb [Hg [_ [Hs _]]]]]]].
    destruct Hb as [key [g [_ [Hn _]]]].
    apply getConversions_Some in Hg. subst conversions.
    rewrite Hs. cbn [addConvertableParams restParam params]. intros Hr.
    pose proof (normalize_rest typed key _ Hn Hr) as Hne.
    destruct (params (signature original)); [congruence | discriminate].
Qed.

Lemma getExpectedParam_Some (signature : Signature) (index : nat) :
  (restParam signature = true -> params signature <> []) ->
  exists p, getExpectedParam signature index = Some p.
Proof.
  intros H. unfold getExpectedParam.
  destruct (index <? length (params signature))%nat eqn:E.
  - apply Nat.ltb_lt in E. now apply lookup_lt_is_Some_2.
  - destruct (restParam signature); [|eauto].
    destruct (last (params signature)) as [p|] eqn:El; [eauto|].
    apply last_None in El. now destruct (H eq_refl).
Qed.

End WrongType.

(** X7: a wrongType error of a typed function names a position of the call
    and the type found there, and lists expected types without repetition
    among which are neither that type nor [any]; each of them is a type
    that a def of the function expects at that position. *)
Theorem wrongType_excludes_actual {Fn} (typed typed' : Typed) (fname : string)
        (sigs : list (string * Fn)) (f : TypedFunction Fn)
        (arguments : list Value) (fn_ : string) (index : nat)
        (actual : string) (expected : list string) :
  createTypedFunction typed fname sigs = OK f ->
  data (createError typed' fname arguments (defs f))
  = wrongType fn_ index actual expected ->
  actualTypesOf typed' arguments !! index = Some actual
  /\ expected <> []
  /\ NoDup expected
  /\ ~ In actual expected
  /\ ~ In "any" expected
  /\ forall type, In type expected ->
       exists def p, In def (defs f)
                     /\ getExpectedParam (signature def) index = Some p
                     /\ In type p.
Proof.
  intros H. unfold createError.
  set (_name := if Str.is_empty fname then "unnamed" else fname).
  destruct (narrow _name (actualTypesOf typed' arguments) 0 (defs f))
    as [err|matchingDefs] eqn:En.
  2: { destruct (ltExt _ _); [discriminate|].
       destruct (gtExt _ _); discriminate. }
  destruct (narrow_inl _ _ _ _ _ En) as [k [a [c [Hk [Hc [Hn [Hm ->]]]]]]].
  cbn [Nat.add] in *. cbn [data wrongTypeError]. intros Hw. injection Hw as _ <- <- <-.
  assert (Hin : forall type, In type (mergeExpectedParams c k) ->
                  exists def p, In def (defs f)
                                /\ In def c
                                /\ getExpectedParam (signature def) k = Some p
                                /\ In type p).
  { intros type Ht. apply (mergeExpectedParams_union _ _ _ _ Hn) in Ht as [Ht _].
    apply expectedParams_In in Ht as [def [Hd Hx]].
    destruct (getExpectedParam_Some (signature def) k
                (defs_rest_param typed fname sigs f def H (Hc def Hd))) as [p Hp].
    rewrite Hp in Hx. exists def, p. auto. }
  split; [exact Hk|]. split; [exact Hm|]. split; [|split; [|split]].
  - unfold mergeExpectedParams.
    destruct (includes "any" _); [apply NoDup_singleton | apply uniq_NoDup].
  - intros Ha. destruct (Hin _ Ha) as [def [p [_ [Hd [Hp Hx]]]]].
    pose proof (nextMatchingDefs_nil _ _ _ _ Hn Hd) as Hf.
    rewrite Hp in Hf. cbn [isCorrectType] in Hf.
    apply includes_In in Hx. rewrite Hx in Hf. discriminate.
  - intros Ha. destruct (Hin _ Ha) as [def [p [_ [Hd [Hp Hx]]]]].
    pose proof (nextMatchingDefs_nil _ _ _ _ Hn Hd) as Hf.
    rewrite Hp in Hf. cbn [isCorrectType] in Hf.
    apply includes_In in Hx. rewrite Hx, orb_true_r in Hf. discriminate.
  - intros type Ht. destruct (Hin _ Ht) as [def [p [Hd [_ [Hp Hx]]]]]. eauto.
Qed.

(** X7 at work: [{ "number": f1, "string": f2 }] called on a regular
    expression. *)
Lemma wrongType_excludes_actual_witness :
  let typed := Examples.withBooleanToNumber in
  let f := Examples.numberOrStringFn in
  let expected := ["number"; "string"; "boolean"] in
  actualTypesOf typed [VRegExp "a+"] !! 0%nat = Some "RegExp"
  /\ expected <> []
  /\ NoDup expected
  /\ ~ In "RegExp" expected
  /\ ~ In "any" expected
  /\ forall type, In type expected ->
       exists def p, In def (defs f)
                     /\ getExpectedParam (signature def) 0 = Some p
                     /\ In type p.
Proof.
  cbv zeta.
  apply (wrongType_excludes_actual Examples.withBooleanToNumber
           Examples.withBooleanToNumber "f"
           [("number", 1%nat); ("string", 2%nat)] Examples.numberOrStringFn
           [VRegExp "a+"] "f").
  - vm_compute. reflexivity.
  - vm_compute. reflexivity.
Defined.

(** ** The order in which a call tests the defs *)

(** X8: a call tests the defs in the order [testOrder] and runs the first
    def whose test accepts the arguments; when none does it throws the
    error built from all defs. *)
Theorem call_order {Fn} (typed typed' : Typed) (fname : string)
        (sigs : list (string * Fn)) (f : TypedFunction Fn)
        (arguments : list Value) :
  createTypedFunction typed fname sigs = OK f ->
  call typed' f arguments
  = match List.find (fun def => def_test def arguments) (testOrder (defs f)) with
    | Some def => dispatchTo def arguments
    | None => Thrown (createError typed' fname arguments (defs f))
    end.
Proof.
  intros H.
  destruct (createTypedFunction_fast _ _ _ _ H) as [tests0 [tests1 [E0 [E1 [Hf Hi]]]]].
  destruct (createTypedFunction_OK _ _ _ _ H) as [_ [_ [_ [_ [_ [_ Hn]]]]]].
  pose proof (defs_compiled _ _ _ _ H) as Hc.
  assert (Hfind : forall (l : list (Def Fn)) (otherwise : Outcome Fn),
             match List.find (fun def => def_test def arguments) l with
             | Some def => dispatchTo def arguments
             | None => otherwise
             end
             = match genericFrom l arguments with
               | Some outcome => outcome
               | None => otherwise
               end).
  { intros l otherwise. induction l as [|d l IH]; [reflexivity|].
    cbn [genericFrom List.find].
    destruct (def_test d arguments); [reflexivity | exact IH]. }
  rewrite Hfind. unfold call, generic, testOrder. rewrite Hf, Hn.
  rewrite (fastFrom_fastDefs typed (defs f) tests0 tests1 arguments 6 0 Hc).
  2: { intros k Hk. split; eapply mapM_nth; eauto; now apply lookup_seq_lt. }
  rewrite drop_0, Hi, genericFrom_app.
  destruct (genericFrom (fastDefs (defs f) 6) arguments); [reflexivity|].
  destruct (forallb (okAt (defs f)) (seq 0 6)); [|rewrite drop_0]; reflexivity.
Qed.

(** X8 at work: [{ "number": f1, "...boolean": f2 }] with
    [boolean -> number] registered, called on [true]: the conversion def of
    [number] is tested before the def of [...boolean]. *)
Lemma call_order_witness :
  let typed := Examples.withBooleanToNumber in
  let f := Examples.numberAndRestBooleans in
  let arguments := [VBoolean true] in
  call typed f arguments
  = match List.find (fun def => def_test def arguments) (testOrder (defs f)) with
    | Some def => dispatchTo def arguments
    | None => Thrown (createError typed "f" arguments (defs f))
    end.
Proof.
  cbv zeta.
  apply (call_order Examples.withBooleanToNumber Examples.withBooleanToNumber "f"
           [("number", 1%nat); ("...boolean", 2%nat)]).
  vm_compute. reflexivity.
Defined.

(** X9: when among the first six defs none with more than two params or
    with a rest param comes before one with at most two params and no rest
    param, a call does what a single pass over the defs does. *)
Theorem call_is_linear_scan {Fn} (typed typed' : Typed) (fname : string)
        (sigs : list (string * Fn)) (f : TypedFunction Fn)
        (arguments : list Value) :
  createTypedFunction typed fname sigs = OK f ->
  noGap (defs f) ->
  call typed' f arguments = linearScan typed' f arguments.
Proof. apply call_linearScan. Qed.

(** X9 at work: [{ "number": f1, "string": f2 }] with [boolean -> number]
    registered. *)
Lemma call_is_linear_scan_witness :
  let typed := Examples.withBooleanToNumber in
  let f := Examples.numberOrStringFn in
  call typed f [VString "a"] = linearScan typed f [VString "a"].
Proof.
  cbv zeta.
  apply (call_is_linear_scan Examples.withBooleanToNumber
           Examples.withBooleanToNumber "f" [("number", 1%nat); ("string", 2%nat)]).
  - vm_compute. reflexivity.
  - intros k Hk.
    do 5 (destruct k as [|k];
          [vm_compute; intros; (reflexivity || discriminate)|]).
    lia.
Defined.

(** ** Printing a signature and parsing it back *)

Section RoundTrip.

Import Str Canon StrFacts.

#[local] Arguments String.append !_ _ / : simpl nomatch.

Lemma prefix_app_sep (p t s : string) (c : ascii) :
  has_char c p = false ->
  String.prefix p (t +:+ String c s) = String.prefix p t.
Proof.
  revert p. induction t as [|b t IH]; intros [|a p] Hp; try reflexivity.
  - cbn in Hp. apply orb_false_iff in Hp as [Ha _]. cbn.
    destruct (ascii_dec a c) as [->|]; [|reflexivity].
    now rewrite Ascii.eqb_refl in Ha.
  - cbn in Hp. apply orb_false_iff in Hp as [_ Hp]. cbn.
    destruct (ascii_dec a b); [now apply IH | reflexivity].
Qed.

Lemma filter_all {A} (g : A -> bool) (l : list A) :
  Forall (fun x => g x = true) l -> List.filter g l = l.
Proof.
  induction 1 as [|x l Hx _ IH]; cbn [List.filter]; [reflexivity|].
  now rewrite Hx, IH.
Qed.

Lemma plain_clean (p : Param) : Forall plain_name p -> Forall clean_name p.
Proof. intros H. eapply Forall_impl; [exact H|]. now intros t [Ht _]. Qed.

(** [parseParam] reads the types of a printed param back. *)
Lemma parseParam_join (p : Param) :
  p <> [] -> Forall plain_name p -> parseParam (join "|" p) = p.
Proof.
  intros Hne H. unfold parseParam.
  change "|"%string with (String "|" EmptyString).
  rewrite split_join; trivial.
  - rewrite map_fixed.
    + apply filter_all. eapply Forall_impl; [exact H|].
      intros t [[Ht _] _]. now destruct t.
    + eapply Forall_impl; [exact H|].
      intros t [[_ [H1 [H2 _]]] _]. now apply trim_fixed.
  - eapply Forall_impl; [exact H|]. now intros t [_ Ht].
Qed.

Lemma starts_with_join (p : Param) (t : string) :
  head p = Some t -> starts_with "..." t = false ->
  starts_with "..." (join "|" p) = false.
Proof.
  destruct p as [|t0 [|u p]]; cbn [head]; intros Ht Hs; try discriminate;
    injection Ht as ->; [exact Hs|].
  change (join "|" (t :: u :: p)) with (t +:+ String "|" (join "|" (u :: p))).
  unfold starts_with in *. now rewrite prefix_app_sep.
Qed.

Lemma parseParamsFrom_pieces (rest : bool) (n : nat) (ps : list Param)
      (index : nat) :
  (index + length ps = n)%nat ->
  Forall (fun p => p <> [] /\ Forall plain_name p) ps ->
  (forall k p t, ps !! k = Some p -> head p = Some t ->
                 rest && (index + k =? n - 1)%nat = false ->
                 starts_with "..." t = false) ->
  parseParamsFrom n index
    (imap (fun k p => (if rest && (index + k =? n - 1)%nat
                       then "..." else EmptyString) +:+ join "|" p) ps)
  = OK (ps, rest && negb (length ps =? 0)%nat).
Proof.
  intros Hn H. revert index Hn.
  induction H as [|p ps [Hne Hp] _ IH]; intros index Hn Hhead.
  - cbn. now rewrite andb_false_r.
  - cbn [imap parseParamsFrom]. rewrite Nat.add_0_r.
    set (flag := rest && (index =? n - 1)%nat).
    destruct (join_names_clean p Hne (plain_clean p Hp)) as [J1 _].
    assert (Hs : starts_with "..." ((if flag then "..." else EmptyString)
                                    +:+ join "|" p) = flag).
    { destruct flag eqn:Ef.
      - cbn. repeat (destruct (ascii_dec _ _); [|congruence]).
        now destruct (join "|" p).
      - destruct p as [|t p]; [congruence|].
        apply (starts_with_join (t :: p) t eq_refl).
        apply (Hhead 0%nat (t :: p) t eq_refl eq_refl).
        now rewrite Nat.add_0_r. }
    rewrite Hs.
    assert (Hlast : flag && negb (index =? n - 1)%nat = false).
    { unfold flag. now destruct rest, (index =? n - 1)%nat. }
    rewrite Hlast.
    assert (Hparsed : parseParam
                        (if flag
                         then (if (3 <? String.length
                                          ((if flag then "..." else EmptyString)
                                           +:+ join "|" p))%nat
                               then Str.drop 3 ((if flag then "..." else EmptyString)
                                                +:+ join "|" p)
                               else "any")
                         else (if flag then "..." else EmptyString) +:+ join "|" p)
                      = p).
    { destruct flag; [|now apply parseParam_join].
      cbn [String.append String.length Str.drop].
      destruct (join "|" p) eqn:Ej; [congruence|]. rewrite <- Ej.
      replace (3 <? S (S (S (String.length (join "|" p)))))%nat with true.
      - now apply parseParam_join.
      - symmetry. apply Nat.ltb_lt. rewrite Ej. cbn. lia. }
    rewrite Hparsed.
    rewrite (imap_ext _ (fun k p0 => (if rest && (S index + k =? n - 1)%nat
                                      then "..." else EmptyString)
                                     +:+ join "|" p0)).
    2: { intros k x _. unfold compose. now rewrite Nat.add_succ_r. }
    rewrite IH.
    + cbn [bind fst snd]. change (length (p :: ps) =? 0)%nat with false.
      cbn [negb]. rewrite andb_true_r. f_equal. f_equal.
      unfold flag. destruct rest; [|reflexivity]. cbn [andb].
      destruct (_ =? 0)%nat eqn:El; [|apply orb_true_r].
      cbn [negb]. rewrite orb_false_r.
      apply Nat.eqb_eq in El. cbn in Hn. unfold Param in *.
      apply Nat.eqb_eq. lia.
    + cbn in Hn. lia.
    + intros k q t Hk Ht Hf. apply (Hhead (S k) q t Hk Ht).
      now rewrite Nat.add_succ_r.
Qed.

Lemma trim_not_empty (s : string) :
  s <> EmptyString -> starts_clean s = true -> is_empty (trim s) = false.
Proof.
  intros Hne Hs. unfold trim. rewrite (ltrim_clean s Hs).
  destruct s as [|a s]; [congruence|]. cbn in Hs. cbn.
  apply negb_true_iff in Hs. now rewrite Hs.
Qed.

End RoundTrip.

(** X10: parsing the canonical string of a signature gives the signature
    back, for a signature whose params are non-empty lists of type names as
    the parser leaves them, none holding [|], in which only the rest param
    may start with [...], and which has a rest param only if it has a
    param. *)
Theorem parse_stringify (signature : Signature) :
  printable signature ->
  parseParams (stringifyParams signature) = OK signature.
Proof.
  intros [Hp [Hrest Hhead]]. unfold parseParams.
  destruct signature as [ps rest]. cbn [params restParam] in *.
  destruct ps as [|p0 ps0] eqn:Eps.
  { now rewrite (Hrest eq_refl). }
  rewrite <- Eps in *. clear Hrest.
  assert (Hne : ps <> []) by (rewrite Eps; discriminate).
  unfold stringifyParams. cbn [params restParam].
  set (pieces := imap (fun index param =>
                         (if rest && (index =? length ps - 1)%nat
                          then "..." else EmptyString) +:+ Str.join "|" param) ps).
  assert (Hclean : Canon.clean_params ps).
  { eapply Forall_impl; [exact Hp|]. intros p [H1 H2]. split; [exact H1|].
    eapply Forall_impl; [exact H2|]. now intros t [Ht _]. }
  assert (Hpieces : Forall (fun piece => Str.has_char "," piece = false
                                         /\ Str.trim piece = piece) pieces).
  { apply List.Forall_forall. intros piece Hin. unfold pieces in Hin.
    apply list_elem_of_In, elem_of_lookup_imap in Hin as [i [p [-> Hi]]].
    apply list_elem_of_lookup_2, list_elem_of_In in Hi.
    destruct (proj1 (List.Forall_forall _ _) Hclean p Hi) as [H1 H2].
    now apply piece_clean. }
  assert (Hlen : length pieces = length ps) by apply length_imap.
  assert (Hpne : pieces <> []).
  { intros E. rewrite E in Hlen. destruct ps; [congruence | discriminate]. }
  assert (Hempty : Str.is_empty (Str.trim (Str.join "," pieces)) = false).
  { assert (Hin0 : In p0 ps) by (rewrite Eps; now left).
    destruct (proj1 (List.Forall_forall _ _) Hclean p0 Hin0) as [H1 H2].
    unfold pieces. rewrite Eps. cbn [imap].
    pose proof (join_names_clean p0 H1 H2) as [J1 [J2 _]].
    set (first := (if rest && (0 =? length (p0 :: ps0) - 1)%nat
                   then "..." else EmptyString) +:+ Str.join "|" p0).
    assert (Hf : first <> EmptyString /\ Canon.starts_clean first = true).
    { unfold first. destruct (rest && _); [split; [discriminate | reflexivity]|].
      now split. }
    match goal with |- context [first :: ?l] => destruct l as [|q qs] end.
    - now apply trim_not_empty.
    - change (Str.join "," (first :: q :: qs))
        with (first +:+ ("," +:+ Str.join "," (q :: qs))).
      apply trim_not_empty; [now apply StrFacts.app_not_empty_l|].
      now apply StrFacts.starts_clean_app. }
  rewrite Hempty.
  change ","%string with (String "," EmptyString) at 1 2.
  rewrite StrFacts.split_join; trivial.
  2: { eapply Forall_impl; [exact Hpieces|]. now intros x [Hx _]. }
  rewrite map_fixed.
  2: { eapply Forall_impl; [exact Hpieces|]. now intros x [_ Hx]. }
  rewrite Hlen. unfold pieces.
  pose proof (parseParamsFrom_pieces rest (length ps) ps 0 eq_refl Hp Hhead)
    as Hparse.
  cbn [Nat.add] in Hparse. rewrite Hparse.
  cbn [bind fst snd]. f_equal. f_equal.
  destruct ps; [congruence|]. cbn. apply andb_true_r.
Qed.

(** X10 at work: [number, ...string|boolean]. *)
Lemma parse_stringify_witness :
  let signature := {| params := [["number"]; ["string"; "boolean"]];
                      restParam := true |} in
  parseParams (stringifyParams signature) = OK signature.
Proof.
  cbv zeta. apply parse_stringify. split; [|split].
  - repeat constructor; try discriminate; vm_compute; reflexivity.
  - discriminate.
  - intros [|[|index]] p t Hp Ht Hf; cbn in Hp; try discriminate;
      injection Hp as <-; injection Ht as <-; vm_compute; reflexivity.
Defined.

(** ** Ignored types *)

Section IgnoredTypes.

Variable typed : Typed.

Lemma notIgnore_In (type : string) :
  notIgnore typed type = false <-> In type (ignore typed).
Proof.
  unfold notIgnore. rewrite negb_false_iff. apply includes_In.
Qed.

Lemma filter_nil_iff {A} (g : A -> bool) (l : list A) :
  List.filter g l = [] <-> forall x, In x l -> g x = false.
Proof.
  induction l as [|a l IH]; cbn [List.filter].
  - split; [intros _ x [] | reflexivity].
  - destruct (g a) eqn:E.
    + split; [discriminate|]. intros H. specialize (H a (or_introl eq_refl)).
      congruence.
    + rewrite IH. split.
      * intros H x [<-|Hx]; auto.
      * intros H x Hx. apply H. now right.
Qed.

Lemma filterParams_None (ps : list Param) :
  filterParams typed ps = None
  <-> exists p, In p ps /\ List.filter (notIgnore typed) p = [].
Proof.
  induction ps as [|p ps IH]; cbn [filterParams].
  - split; [discriminate | intros [p [[] _]]].
  - destruct (List.filter (notIgnore typed) p) as [|t q] eqn:E.
    + split; [|reflexivity]. intros _. exists p. split; [now left | exact E].
    + destruct (filterParams typed ps) as [qs|] eqn:Ef; cbn.
      * split; [discriminate|]. intros [p' [[<-|Hin] Hp']]; [congruence|].
        assert (Hn : Some qs = None) by (apply (proj2 IH); eauto).
        discriminate.
      * split; [|reflexivity]. intros _.
        destruct (proj1 IH eq_refl) as [p' [Hin Hp']]. exists p'.
        split; [now right | exact Hp'].
Qed.

Lemma filterParams_Some (ps ps' : list Param) :
  filterParams typed ps = Some ps' ->
  ps' = map (List.filter (notIgnore typed)) ps.
Proof.
  revert ps'. induction ps as [|p ps IH]; intros ps' H; cbn [filterParams] in H.
  - now injection H as <-.
  - destruct (List.filter (notIgnore typed) p) as [|t q] eqn:E; [discriminate|].
    destruct (filterParams typed ps) as [qs|]; [|discriminate].
    cbn in H. injection H as <-. cbn [map]. now rewrite E, (IH qs eq_refl).
Qed.

End IgnoredTypes.

(** X11: [filterIgnoredTypes] drops a signature exactly when all types of
    one of its params are on the ignore list (a param without types
    included); otherwise it keeps the rest flag and, in each param, the
    types that are not ignored, in their order, so that no ignored type is
    left. *)
Theorem filterIgnoredTypes_spec (typed : Typed) (signature : Signature) :
  (filterIgnoredTypes typed signature = None
   <-> exists p, In p (params signature)
                 /\ forall type, In type p -> In type (ignore typed))
  /\ forall filtered,
       filterIgnoredTypes typed signature = Some filtered ->
       restParam filtered = restParam signature
       /\ params filtered
          = map (List.filter (notIgnore typed)) (params signature)
       /\ forall p type, In p (params filtered) -> In type p ->
                         ~ In type (ignore typed).
Proof.
  unfold filterIgnoredTypes. split.
  - destruct (filterParams typed (params signature)) as [ps|] eqn:E; cbn.
    + split; [discriminate|]. intros [p [Hin Hp]]. exfalso.
      assert (Hn : filterParams typed (params signature) = None).
      { apply filterParams_None. exists p. split; [exact Hin|].
        apply filter_nil_iff. intros x Hx. apply notIgnore_In. now apply Hp. }
      congruence.
    + split; [|reflexivity]. intros _.
      destruct (proj1 (filterParams_None typed _) E) as [p [Hin Hp]].
      exists p. split; [exact Hin|]. intros type Ht. apply notIgnore_In.
      exact (proj1 (filter_nil_iff _ _) Hp type Ht).
  - intros filtered H.
    destruct (filterParams typed (params signature)) as [ps|] eqn:E;
      [|discriminate].
    cbn in H. injection H as <-. cbn [params restParam].
    apply filterParams_Some in E. subst ps.
    split; [reflexivity|]. split; [reflexivity|].
    intros p type Hp Ht Hi. apply in_map_iff in Hp as [q [<- _]].
    apply filter_In in Ht as [_ Hn]. apply notIgnore_In in Hi. congruence.
Qed.

(** ** [typed.convert] *)

Section Convert.

Lemma find_name_unique (l : list TypeDef) (entry : TypeDef) :
  NoDup (map name l) -> In entry l ->
  List.find (fun e => String.eqb (name e) (name entry)) l = Some entry.
Proof.
  induction l as [|a l IH]; intros Hnd Hin; [destruct Hin|].
  cbn [map] in Hnd. apply NoDup_cons in Hnd as [Ha Hl]. cbn [List.find].
  destruct Hin as [->|Hin].
  - now rewrite String.eqb_refl.
  - destruct (String.eqb (name a) (name entry)) eqn:E; [|now apply IH].
    apply String.eqb_eq in E. exfalso. apply Ha. rewrite E.
    apply list_elem_of_In. now apply in_map.
Qed.

(** With one entry per name, a value passes the test of its type. *)
Lemma findType_typeTest (typed : Typed) (value : Value) (type : string) :
  NoDup (map name (types typed)) ->
  TypedApi.findType typed value = Some type ->
  typeTest typed type value = true.
Proof.
  intros Hnd. unfold TypedApi.findType.
  destruct (List.find _ (types typed)) as [entry|] eqn:E; [|discriminate].
  intros H. injection H as <-. apply find_some in E as [Hin Ht].
  unfold typeTest, findTest.
  now rewrite (find_name_unique _ _ Hnd Hin).
Qed.

End Convert.

(** X12: in a registry reached from [create()] through [addType] and
    [addConversion], the type found for a value is the first built-in type
    whose test it passes: [null] counts as an [Object], a symbol or a
    bigint has the type [any], and no value has the type [null] or a type
    that was added. *)
Theorem findType_builtin (typed : Typed) (value : Value) :
  reachable typed ->
  TypedApi.findType typed value = Some (builtinType value).
Proof.
  intros [more Hm]%reachable_types. unfold TypedApi.findType. rewrite Hm.
  assert (H : exists entry,
             List.find (fun entry => test entry value) _types = Some entry
             /\ name entry = builtinType value).
  { destruct value; cbn; eauto. }
  destruct H as [entry [He Hn]].
  now rewrite (find_app_Some _ _ more _ He), Hn.
Qed.

(** X12 at work: [null] after a type [null2] was added. *)
Lemma findType_builtin_witness :
  let typed := addType {| name := "null2";
                          test := fun x => match x with VNull => true | _ => false end |}
                       create in
  TypedApi.findType typed VNull = Some "Object".
Proof.
  cbv zeta. apply (findType_builtin _ VNull). apply reach_addType, reach_create.
Defined.

(** X13: a conversion that [typed.convert] carries out stays the same when
    more types and conversions are registered: the first type whose test
    the value passes and the first conversion between the two types win. *)
Theorem convert_grown (typed : Typed) (value result : Value) (type : string)
        (moreTypes : list TypeDef) (moreConversions : list Conversion) :
  TypedApi.convert typed value type = inr result ->
  TypedApi.convert (grown typed moreTypes moreConversions) value type
  = inr result.
Proof.
  unfold TypedApi.convert, TypedApi.findType, grown. cbn [types conversions].
  destruct (List.find _ (types typed)) as [entry|] eqn:E; [|discriminate].
  rewrite (find_app_Some _ _ moreTypes _ E).
  destruct (String.eqb type (name entry)); [trivial|].
  destruct (List.find _ (conversions typed)) as [conversion|] eqn:Ec;
    [|discriminate].
  now rewrite (find_app_Some _ _ moreConversions _ Ec).
Qed.

(** X13 at work: [true] converted to a number, before and after a second
    conversion from boolean to number is registered. *)
Lemma convert_grown_witness :
  let second := {| from := "boolean"; to := "number";
                   convert := fun _ => VNumber 7 |} in
  TypedApi.convert (grown Examples.withBooleanToNumber [] [second])
                   (VBoolean true) "number"
  = inr (VNumber 1).
Proof.
  cbv zeta. apply convert_grown. vm_compute. reflexivity.
Defined.

(** X14: when no two registered types share a name and every conversion
    turns a value of its source type into a value of its target type, what
    [typed.convert] returns passes the test of the requested type. *)
Theorem convert_sound (typed : Typed) (value result : Value) (type : string) :
  NoDup (map name (types typed)) ->
  honest typed ->
  TypedApi.convert typed value type = inr result ->
  typeTest typed type result = true.
Proof.
  intros Hnd Hh. unfold TypedApi.convert.
  destruct (TypedApi.findType typed value) as [from_|] eqn:Ef; [|discriminate].
  pose proof (findType_typeTest typed value from_ Hnd Ef) as Hv.
  destruct (String.eqb type from_) eqn:E.
  - apply String.eqb_eq in E. subst. intros H. now injection H as <-.
  - destruct (List.find _ (conversions typed)) as [conversion|] eqn:Ec;
      [|discriminate].
    intros H. injection H as <-. apply find_some in Ec as [Hin Hc].
    apply andb_true_iff in Hc as [H1 H2].
    apply String.eqb_eq in H1, H2. subst. now apply Hh.
Qed.

(** X14 at work: [true] converted to a number. *)
Lemma convert_sound_witness :
  typeTest Examples.withBooleanToNumber "number" (VNumber 1) = true.
Proof.
  apply (convert_sound Examples.withBooleanToNumber (VBoolean true)).
  - apply (bool_decide_unpack _). vm_compute. exact I.
  - intros c x [<-|[]] _.
    destruct x as [| |[|]| | | | | | | | |]; vm_compute; reflexivity.
  - vm_compute. reflexivity.
Defined.

(** ** [getName] *)

Section Names.

Lemma getNameFrom_spec (name : string) (fns : list FnInfo) :
  match getNameFrom name fns with
  | inr n =>
      (name <> EmptyString -> n = name)
      /\ (forall fn, In fn fns -> has_signatures fn = true ->
                     info_name fn = EmptyString \/ info_name fn = n)
      /\ (n <> EmptyString -> n = name \/ typedNamed fns n)
  | inl (NamesDoNotMatch expected actual) =>
      expected <> EmptyString /\ actual <> EmptyString /\ expected <> actual
      /\ (expected = name \/ typedNamed fns expected)
      /\ typedNamed fns actual
  end.
Proof.
  revert name. induction fns as [|fn fns IH]; intros name; cbn [getNameFrom].
  - split; [trivial|]. split; [intros fn []|]. now left.
  - assert (Hlift : forall n, typedNamed fns n -> typedNamed (fn :: fns) n).
    { intros n [g [Hg Hs]]. exists g. split; [now right | exact Hs]. }
    destruct (has_signatures fn) eqn:Es; cbn [andb].
    2: { specialize (IH name). destruct (getNameFrom name fns) as [[e a]|n].
         - destruct IH as [H1 [H2 [H3 [H4 H5]]]]. repeat split; trivial.
           + destruct H4; [now left | right; auto].
           + auto.
         - destruct IH as [H1 [H2 H3]]. split; [exact H1|]. split.
           + intros g [<-|Hg] Hsig; [congruence | auto].
           + intros Hn. destruct (H3 Hn); [now left | right; auto]. }
    destruct (String.eqb (info_name fn) EmptyString) eqn:En; cbn [negb].
    { apply String.eqb_eq in En. specialize (IH name).
      destruct (getNameFrom name fns) as [[e a]|n].
      - destruct IH as [H1 [H2 [H3 [H4 H5]]]]. repeat split; trivial.
        + destruct H4; [now left | right; auto].
        + auto.
      - destruct IH as [H1 [H2 H3]]. split; [exact H1|]. split.
        + intros g [<-|Hg] Hsig; [now left | auto].
        + intros Hn. destruct (H3 Hn); [now left | right; auto]. }
    apply String.eqb_neq in En.
    assert (Hfn : typedNamed (fn :: fns) (info_name fn)).
    { exists fn. split; [now left | auto]. }
    destruct (String.eqb name EmptyString) eqn:E0.
    { apply String.eqb_eq in E0. subst name. specialize (IH (info_name fn)).
      destruct (getNameFrom (info_name fn) fns) as [[e a]|n].
      - destruct IH as [H1 [H2 [H3 [H4 H5]]]]. repeat split; trivial.
        + right. destruct H4 as [->|H4]; auto.
        + auto.
      - destruct IH as [H1 [H2 H3]]. specialize (H1 En). subst n.
        split; [congruence|]. split.
        + intros g [<-|Hg] Hsig; [now right | auto].
        + intros _. now right. }
    apply String.eqb_neq in E0.
    destruct (String.eqb name (info_name fn)) eqn:Ee; cbn [negb].
    2: { apply String.eqb_neq in Ee. repeat split; trivial. now left. }
    apply String.eqb_eq in Ee. specialize (IH name).
    destruct (getNameFrom name fns) as [[e a]|n].
    + destruct IH as [H1 [H2 [H3 [H4 H5]]]]. repeat split; trivial.
      * destruct H4; [now left | right; auto].
      * auto.
    + destruct IH as [H1 [H2 H3]]. split; [exact H1|]. split.
      * intros g [<-|Hg] Hsig; [right; rewrite (H1 E0); now symmetry | auto].
      * intros Hn. destruct (H3 Hn); [now left | right; auto].
Qed.

End Names.

(** X15: [getName] returns the one name that the typed functions with a
    name share, the empty name when none of them has one; it throws when
    two of them have different names, and reports two such names. *)
Theorem getName_spec (fns : list FnInfo) :
  match getName fns with
  | inr n =>
      (forall fn, In fn fns -> has_signatures fn = true ->
                  info_name fn = EmptyString \/ info_name fn = n)
      /\ (n <> EmptyString ->
          exists fn, In fn fns /\ has_signatures fn = true /\ info_name fn = n)
  | inl (NamesDoNotMatch expected actual) =>
      expected <> EmptyString /\ actual <> EmptyString /\ expected <> actual
      /\ (exists fn, In fn fns /\ has_signatures fn = true
                     /\ info_name fn = expected)
      /\ (exists fn, In fn fns /\ has_signatures fn = true
                     /\ info_name fn = actual)
  end.
Proof.
  unfold getName. pose proof (getNameFrom_spec EmptyString fns) as H.
  destruct (getNameFrom EmptyString fns) as [[e a]|n].
  - destruct H as [H1 [H2 [H3 [[H4|H4] H5]]]]; [congruence|].
    repeat split; trivial.
  - destruct H as [_ [H2 H3]]. split; [exact H2|].
    intros Hn. destruct (H3 Hn) as [H|H]; [congruence | exact H].
Qed.

(** ** When the compiler succeeds *)

Section Compiles.

Context {Fn : Type}.
Implicit Types (def : Def Fn) (sigs : list (string * Fn)).

Lemma find_In_Some {A} (g : A -> bool) (l : list A) (x : A) :
  In x l -> g x = true -> exists y, List.find g l = Some y.
Proof.
  induction l as [|a l IH]; intros Hin Hg; [destruct Hin|]. cbn [List.find].
  destruct (g a) eqn:E; [eauto|].
  destruct Hin as [->|Hin]; [congruence | now apply IH].
Qed.

Lemma registered_existsb (typed : Typed) (type : string) :
  existsb (fun e => String.eqb (name e) type) (types typed) = true ->
  registered typed type.
Proof.
  intros H. apply existsb_exists in H as [entry [Hin He]].
  exists entry. split; [exact Hin | now apply String.eqb_eq].
Qed.

Lemma findTest_OK (typed : Typed) (type : string) :
  registered typed type -> exists t, findTest typed type = OK t.
Proof.
  intros [entry [Hin Hn]]. unfold findTest.
  destruct (find_In_Some (fun e => String.eqb (name e) type) _ entry Hin)
    as [y Hy]; [now apply String.eqb_eq|].
  rewrite Hy. eauto.
Qed.

Lemma mapM_OK {A B} (g : A -> Res B) (l : list A) :
  (forall x, In x l -> exists y, g x = OK y) -> exists r, mapM g l = OK r.
Proof.
  induction l as [|a l IH]; intros H; cbn [mapM]; [eauto|].
  destruct (H a (or_introl eq_refl)) as [b ->]. cbn [bind].
  destruct IH as [bs ->]; [intros x Hx; apply H; now right|].
  cbn [bind]. eauto.
Qed.

Lemma compileParam_OK (typed : Typed) (param : option Param) :
  (forall p type, param = Some p -> In type p -> registered typed type) ->
  exists t, compileParam typed param = OK t.
Proof.
  intros H. destruct param as [p|]; [|cbn; eauto].
  specialize (H p). unfold compileParam.
  destruct p as [|type0 [|type1 [|type2 p]]].
  - eauto.
  - apply findTest_OK, (H type0 eq_refl). now left.
  - destruct (findTest_OK typed type0) as [t0 ->];
      [apply (H type0 eq_refl); now left|].
    destruct (findTest_OK typed type1) as [t1 ->];
      [apply (H type1 eq_refl); right; now left|].
    cbn [bind]. eauto.
  - destruct (mapM_OK (findTest typed) (type0 :: type1 :: type2 :: p)) as [ts Hts].
    { intros x Hx. apply findTest_OK. now apply (H x eq_refl). }
    rewrite Hts. cbn [bind]. eauto.
Qed.

Lemma compileParams_OK (typed : Typed) (signature : Signature) :
  (forall p type, In p (params signature) -> In type p ->
                  registered typed type) ->
  exists t, compileParams typed signature = OK t.
Proof.
  intros H.
  assert (Hp : forall p, In p (params signature) ->
                 exists t, compileParam typed (Some p) = OK t).
  { intros p Hin. apply compileParam_OK. intros q type Hq Ht.
    injection Hq as <-. eauto. }
  unfold compileParams. destruct (restParam signature).
  - destruct (mapM_OK (fun p => compileParam typed (Some p))
                      (initial (params signature))) as [tests ->].
    { intros p Hin. apply Hp. unfold initial in Hin.
      rewrite <- (take_drop (length (params signature) - 1) (params signature)).
      apply in_app_iff. now left. }
    cbn [bind].
    destruct (compileParam_OK typed (last (params signature))) as [t ->].
    { intros p type Hl Ht. apply (H p type); [|exact Ht].
      apply list_elem_of_In. now apply last_Some_elem_of. }
    cbn [bind]. eauto.
  - destruct (params signature) as [|p0 [|p1 [|p2 ps]]] eqn:E.
    + eauto.
    + destruct (Hp p0 (or_introl eq_refl)) as [t0 ->]. cbn [bind]. eauto.
    + destruct (Hp p0 (or_introl eq_refl)) as [t0 ->].
      destruct (Hp p1 (or_intror (or_introl eq_refl))) as [t1 ->].
      cbn [bind]. eauto.
    + destruct (mapM_OK (fun p => compileParam typed (Some p))
                        (p0 :: p1 :: p2 :: ps)) as [tests ->]; [exact Hp|].
      cbn [bind]. eauto.
Qed.

(** A signature that compiles has params that compile one by one. *)
Lemma compiled_param_OK (typed : Typed) (signature : Signature)
      (t : list Value -> bool) (param : option Param) :
  compileParams typed signature = OK t ->
  (forall p, param = Some p -> In p (params signature)) ->
  exists t', compileParam typed param = OK t'.
Proof.
  intros Hc Hin. apply compileParam_OK. intros p type Hp Ht.
  destruct (compileParams_registered typed signature t p type Hc (Hin p Hp) Ht)
    as [t' Hf].
  destruct (findTest_registered _ _ _ Hf) as [entry [He [Hn _]]].
  exists entry. auto.
Qed.

Variable typed : Typed.
Variable sigs : list (string * Fn).

Hypothesis parses :
  forall key g, In (key, g) sigs -> exists parsed, parseParams key = OK parsed.
Hypothesis types_registered :
  forall key g signature p type,
    In (key, g) sigs -> Canon.normalize typed key = Some signature ->
    In p (params signature) -> In type p -> registered typed type.
Hypothesis sources_registered :
  forall conversion, In conversion (conversions typed) ->
                     registered typed (from conversion).
Hypothesis no_proto :
  forall key g signature,
    In (key, g) sigs -> Canon.normalize typed key = Some signature ->
    stringifyParams signature <> "__proto__".

Lemma parseDef_OK (entry : string * Fn) :
  In entry sigs -> exists r, parseDef typed entry = OK r.
Proof.
  destruct entry as [key g]. intros Hin. unfold parseDef. cbn [fst snd].
  destruct (parses key g Hin) as [parsed Hp]. rewrite Hp. cbn [bind].
  destruct (filterIgnoredTypes typed parsed) as [signature|] eqn:Ef; [|eauto].
  destruct (compileParams_OK typed signature) as [t ->]; [|cbn [bind]; eauto].
  intros p type. apply (types_registered key g).
  - exact Hin.
  - unfold Canon.normalize. now rewrite Hp.
Qed.

Lemma parseDefs_OK (l : list (string * Fn)) :
  (forall entry, In entry l -> In entry sigs) ->
  exists parsed, parseDefs typed l = OK parsed.
Proof.
  induction l as [|entry l IH]; intros H; cbn [parseDefs]; [eauto|].
  destruct (parseDef_OK entry (H entry (or_introl eq_refl))) as [r ->].
  cbn [bind]. destruct IH as [parsed ->]; [intros e He; apply H; now right|].
  cbn [bind]. eauto.
Qed.

Lemma expandDef_OK def :
  builtOriginal typed sigs def -> exists r, expandDef typed def = OK r.
Proof.
  intros [key [g [Hin [Hn _]]]]. unfold expandDef.
  destruct (getConversions typed (params (signature def))) as [conversions|] eqn:Eg;
    [|eauto].
  apply getConversions_Some in Eg. subst conversions.
  destruct (compileParams_OK typed
              (addConvertableParams (signature def)
                 (map (paramConversions typed) (params (signature def)))))
    as [t ->].
  { cbn [addConvertableParams params]. intros p type Hp Ht.
    rewrite (zip_with_map_same (fun param cs => param ++ map from cs)
               (paramConversions typed)) in Hp.
    apply in_map_iff in Hp as [q [<- Hq]].
    apply in_app_iff in Ht as [Ht|Ht].
    - exact (types_registered key g _ q type Hin Hn Hq Ht).
    - apply in_map_iff in Ht as [c [<- Hc]].
      apply sources_registered. now apply (paramConversions_In typed q). }
  cbn [bind]. unfold compileArgsConversion.
  destruct (mapM_OK (compileArgConversion typed)
                    (map (paramConversions typed) (params (signature def))))
    as [cc ->].
  { intros cs Hcs. apply in_map_iff in Hcs as [q [<- Hq]].
    unfold compileArgConversion. apply mapM_OK. intros c Hc.
    destruct (findTest_OK typed (from c)) as [t' ->]; [|cbn [bind]; eauto].
    apply sources_registered. now apply (paramConversions_In typed q). }
  cbn [bind]. eauto.
Qed.

Lemma expandDefs_OK (l : list (Def Fn)) :
  Forall (builtOriginal typed sigs) l -> exists twins, expandDefs typed l = OK twins.
Proof.
  induction 1 as [|def l Hd _ [twins IH]]; cbn [expandDefs]; [eauto|].
  destruct (expandDef_OK def Hd) as [r ->]. cbn [bind]. rewrite IH.
  cbn [bind]. eauto.
Qed.

Lemma fastTest_OK (l : list (Def Fn)) (j k : nat) :
  Forall (compiledFrom typed) l -> exists t, fastTest typed l j k = OK t.
Proof.
  intros H. unfold fastTest. destruct (l !! k) as [def|] eqn:E; [|eauto].
  destruct (okAt l k); [|eauto].
  destruct (proj1 (List.Forall_forall _ _) H def (lookup_In _ _ _ E)) as [Hc _].
  apply (compiled_param_OK typed (signature def) (def_test def)); [exact Hc|].
  intros p Hp. exact (lookup_In _ _ _ Hp).
Qed.

Lemma createTypedFunction_total (fname : string) :
  sigs <> [] -> exists f, createTypedFunction typed fname sigs = OK f.
Proof.
  intros Hne. unfold createTypedFunction.
  destruct (length sigs =? 0)%nat eqn:El.
  { apply Nat.eqb_eq, length_zero_iff_nil in El. congruence. }
  destruct (parseDefs_OK sigs (fun e H => H)) as [parsed Hp]. rewrite Hp.
  cbn [bind].
  assert (Hb : Forall (builtOriginal typed sigs)
                      (sortDefs (createTypesIndexMap (types typed)) parsed)).
  { apply List.Forall_forall. intros d Hin. apply sortDefs_In in Hin.
    apply (parseDefs_In typed sigs parsed d Hp) in Hin as [entry [Hin He]].
    exact (parseDef_built typed sigs entry d Hin He). }
  destruct (expandDefs_OK _ Hb) as [twins Ht]. rewrite Ht. cbn [bind].
  assert (Hc : Forall (compiledFrom typed)
                      (sortDefs (createTypesIndexMap (types typed)) parsed ++ twins)).
  { assert (Hs : Forall (compiledFrom typed)
                        (sortDefs (createTypesIndexMap (types typed)) parsed)).
    { apply List.Forall_forall. intros d Hin. apply sortDefs_In in Hin.
      apply (parseDefs_In typed sigs parsed d Hp) in Hin as [entry [_ He]].
      exact (parseDef_compiled typed entry d He). }
    apply Forall_app. split; [exact Hs|].
    exact (expandDefs_compiled typed _ _ Hs Ht). }
  destruct (mapM_OK (fastTest typed
                       (sortDefs (createTypesIndexMap (types typed)) parsed ++ twins)
                       0) (seq 0 6)) as [tests0 ->];
    [intros k _; now apply fastTest_OK|].
  cbn [bind].
  destruct (mapM_OK (fastTest typed
                       (sortDefs (createTypesIndexMap (types typed)) parsed ++ twins)
                       1) (seq 0 6)) as [tests1 ->];
    [intros k _; now apply fastTest_OK|].
  cbn [bind].
  destruct (storeSignatures_OK
              (sortDefs (createTypesIndexMap (types typed)) parsed ++ twins)
              (∅, None) eq_refl) as [own ->]; [|cbn [bind]; eauto].
  intros d Hin Hd. apply in_app_iff in Hin as [Hin|Hin].
  - apply sortDefs_In in Hin.
    apply (parseDefs_In typed sigs parsed d Hp) in Hin as [[key g] [Hin He]].
    apply parseDef_Some in He as [Hn _]. exact (no_proto key g _ Hin Hn).
  - rewrite (expandDefs_conversion _ _ _ _ Ht Hin) in Hd. discriminate.
Qed.

End Compiles.

(** X16: the compiler succeeds on a signatures map that is not empty, in
    which a rest param stands only at the end of a signature, and in which
    every type of a signature that the ignore list leaves in is registered,
    provided the source type of every registered conversion is registered
    and no signature has the text [__proto__], under which the assignment
    to [fn.signatures] replaces the prototype and a later assignment can
    throw. *)
Theorem createTypedFunction_succeeds {Fn} (typed : Typed) (fname : string)
        (sigs : list (string * Fn)) :
  sigs <> [] ->
  (forall key g, In (key, g) sigs -> exists parsed, parseParams key = OK parsed) ->
  (forall key g signature p type,
      In (key, g) sigs -> Canon.normalize typed key = Some signature ->
      In p (params signature) -> In type p -> registered typed type) ->
  (forall conversion, In conversion (conversions typed) ->
                      registered typed (from conversion)) ->
  (forall key g signature,
      In (key, g) sigs -> Canon.normalize typed key = Some signature ->
      stringifyParams signature <> "__proto__") ->
  exists f, createTypedFunction typed fname sigs = OK f.
Proof.
  intros Hne Hp Ht Hs Hk. now apply createTypedFunction_total.
Qed.

(** X16 at work: [{ "number": f1, "...boolean": f2 }] with
    [boolean -> number] registered. *)
Lemma createTypedFunction_succeeds_witness :
  exists f, createTypedFunction Examples.withBooleanToNumber "f"
              [("number", 1%nat); ("...boolean", 2%nat)] = OK f.
Proof.
  apply createTypedFunction_succeeds.
  - discriminate.
  - intros key g [H|[H|[]]]; injection H as <- <-; eexists;
      vm_compute; reflexivity.
  - intros key g signature p type [H|[H|[]]] Hn Hp Ht; injection H as <- <-;
      vm_compute in Hn; injection Hn as <-;
      destruct Hp as [<-|[]]; destruct Ht as [<-|[]];
      apply registered_existsb; vm_compute; reflexivity.
  - intros conversion [<-|[]]. apply registered_existsb. vm_compute. reflexivity.
  - intros key g signature [H|[H|[]]] Hn; injection H as <- <-;
      vm_compute in Hn; injection Hn as <-; discriminate.
Defined.

(** ** When the compiler throws *)

Section CompileErrors.

Context {Fn : Type}.
Implicit Types (def : Def Fn) (sigs : list (string * Fn)).

Variable typed : Typed.

Lemma findTest_Err (type : string) (e : CompileError) :
  findTest typed type = Err e -> unknownType typed e.
Proof.
  unfold findTest.
  destruct (List.find _ (types typed)) as [entry|] eqn:E; [discriminate|].
  intros H. injection H as <-. exists type. split; [|reflexivity].
  intros [entry [Hin Hn]].
  pose proof (find_none _ _ E entry Hin) as Hf. cbn in Hf.
  apply String.eqb_neq in Hf. congruence.
Qed.

Lemma mapM_Err {A B} (g : A -> Res B) (l : list A) (e : CompileError) :
  mapM g l = Err e -> exists x, In x l /\ g x = Err e.
Proof.
  induction l as [|a l IH]; cbn [mapM]; [discriminate|].
  destruct (g a) as [b|e'] eqn:Ea.
  - cbn [bind]. destruct (mapM g l) as [bs|e'']; [discriminate|].
    cbn [bind]. intros H. injection H as <-.
    destruct (IH eq_refl) as [x [Hx Hg]]. exists x. split; [now right | exact Hg].
  - cbn [bind]. intros H. injection H as <-. exists a. split; [now left | exact Ea].
Qed.

Lemma compileParam_Err (param : option Param) (e : CompileError) :
  compileParam typed param = Err e -> unknownType typed e.
Proof.
  unfold compileParam. destruct param as [[|type0 [|type1 [|type2 p]]]|];
    try discriminate.
  - apply findTest_Err.
  - destruct (findTest typed type0) as [t0|e0] eqn:E0.
    + cbn [bind]. destruct (findTest typed type1) as [t1|e1] eqn:E1;
        [discriminate|].
      cbn [bind]. intros H. injection H as <-. exact (findTest_Err _ _ E1).
    + cbn [bind]. intros H. injection H as <-. exact (findTest_Err _ _ E0).
  - destruct (mapM (findTest typed) _) as [ts|e'] eqn:Em; [discriminate|].
    cbn [bind]. intros H. injection H as <-.
    destruct (mapM_Err _ _ _ Em) as [x [_ Hx]]. exact (findTest_Err _ _ Hx).
Qed.

Lemma compileParams_Err (signature : Signature) (e : CompileError) :
  compileParams typed signature = Err e -> unknownType typed e.
Proof.
  assert (Hm : forall l e', mapM (fun p => compileParam typed (Some p)) l = Err e' ->
                            unknownType typed e').
  { intros l e' H. destruct (mapM_Err _ _ _ H) as [x [_ Hx]].
    exact (compileParam_Err _ _ Hx). }
  unfold compileParams. destruct (restParam signature).
  - destruct (mapM _ (initial (params signature))) as [tests|e'] eqn:Em.
    + cbn [bind].
      destruct (compileParam typed (last (params signature))) as [t|e''] eqn:El;
        [discriminate|].
      cbn [bind]. intros H. injection H as <-. exact (compileParam_Err _ _ El).
    + cbn [bind]. intros H. injection H as <-. exact (Hm _ _ Em).
  - destruct (params signature) as [|p0 [|p1 [|p2 ps]]]; [discriminate| | |].
    + destruct (compileParam typed (Some p0)) as [t0|e0] eqn:E0; [discriminate|].
      cbn [bind]. intros H. injection H as <-. exact (compileParam_Err _ _ E0).
    + destruct (compileParam typed (Some p0)) as [t0|e0] eqn:E0.
      * cbn [bind].
        destruct (compileParam typed (Some p1)) as [t1|e1] eqn:E1; [discriminate|].
        cbn [bind]. intros H. injection H as <-. exact (compileParam_Err _ _ E1).
      * cbn [bind]. intros H. injection H as <-. exact (compileParam_Err _ _ E0).
    + destruct (mapM _ (p0 :: p1 :: p2 :: ps)) as [tests|e'] eqn:Em;
        [discriminate|].
      cbn [bind]. intros H. injection H as <-. exact (Hm _ _ Em).
Qed.

(** The exception of [parseParams]: a piece that starts with [...] and is
    not the last. *)
Lemma parseParamsFrom_Err (len index : nat) (arr : list string)
      (e : CompileError) :
  parseParamsFrom len index arr = Err e ->
  exists k param,
    arr !! k = Some param /\ e = UnexpectedRest param
    /\ Str.starts_with "..." param = true /\ (index + k)%nat <> (len - 1)%nat.
Proof.
  revert index. induction arr as [|param arr IH]; intros index;
    cbn [parseParamsFrom]; [discriminate|].
  destruct (Str.starts_with "..." param && negb (index =? len - 1)%nat) eqn:E.
  - intros H. injection H as <-. apply andb_true_iff in E as [E1 E2].
    apply negb_true_iff, Nat.eqb_neq in E2.
    exists 0%nat, param. rewrite Nat.add_0_r. auto.
  - destruct (parseParamsFrom len (S index) arr) as [pushed|e'] eqn:Ep;
      [discriminate|].
    cbn [bind]. intros H. injection H as <-.
    destruct (IH _ Ep) as [k [q [Hk [He [Hs Hi]]]]].
    exists (S k), q. rewrite Nat.add_succ_r. auto.
Qed.

Lemma parseParams_Err (key : string) (e : CompileError) :
  parseParams key = Err e ->
  exists k param,
    map Str.trim (Str.split "," key) !! k = Some param
    /\ e = UnexpectedRest param
    /\ Str.starts_with "..." param = true
    /\ (S k < length (Str.split "," key))%nat.
Proof.
  unfold parseParams. destruct (Str.is_empty (Str.trim key)); [discriminate|].
  destruct (parseParamsFrom _ 0 _) as [pushed|e'] eqn:E; [discriminate|].
  cbn [bind]. intros H. injection H as <-.
  destruct (parseParamsFrom_Err _ _ _ _ E) as [k [param [Hk [He [Hs Hi]]]]].
  exists k, param. repeat split; trivial.
  apply lookup_lt_Some in Hk. rewrite length_map in Hk. cbn in Hi. lia.
Qed.

Lemma expandDef_Err def (e : CompileError) :
  expandDef typed def = Err e -> unknownType typed e.
Proof.
  unfold expandDef.
  destruct (getConversions typed _) as [conversions|]; [|discriminate].
  destruct (compileParams typed _) as [t|e'] eqn:Ec.
  - cbn [bind]. unfold compileArgsConversion.
    destruct (mapM (compileArgConversion typed) conversions) as [cc|e''] eqn:Em;
      [discriminate|].
    cbn [bind]. intros H. injection H as <-.
    destruct (mapM_Err _ _ _ Em) as [cs [_ Hcs]]. unfold compileArgConversion in Hcs.
    destruct (mapM_Err _ _ _ Hcs) as [c [_ Hc]].
    destruct (findTest typed (from c)) as [t'|e3] eqn:Ef; [discriminate|].
    cbn [bind] in Hc. injection Hc as <-. exact (findTest_Err _ _ Ef).
  - cbn [bind]. intros H. injection H as <-. exact (compileParams_Err _ _ Ec).
Qed.

Lemma expandDefs_Err (l : list (Def Fn)) (e : CompileError) :
  expandDefs typed l = Err e -> unknownType typed e.
Proof.
  induction l as [|def l IH]; cbn [expandDefs]; [discriminate|].
  destruct (expandDef typed def) as [r|e'] eqn:Ed.
  - cbn [bind]. destruct (expandDefs typed l) as [twins|e'']; [discriminate|].
    cbn [bind]. intros H. injection H as <-. now apply IH.
  - cbn [bind]. intros H. injection H as <-. exact (expandDef_Err _ _ Ed).
Qed.

Lemma fastTest_Err (l : list (Def Fn)) (j k : nat) (e : CompileError) :
  fastTest typed l j k = Err e -> unknownType typed e.
Proof.
  unfold fastTest. destruct (l !! k) as [def|]; [|discriminate].
  destruct (okAt l k); [|discriminate]. apply compileParam_Err.
Qed.

Lemma parseDefs_Err (l : list (string * Fn)) (e : CompileError) :
  parseDefs typed l = Err e ->
  unknownType typed e
  \/ exists key g k param,
       In (key, g) l
       /\ map Str.trim (Str.split "," key) !! k = Some param
       /\ e = UnexpectedRest param
       /\ Str.starts_with "..." param = true
       /\ (S k < length (Str.split "," key))%nat.
Proof.
  induction l as [|[key g] l IH]; cbn [parseDefs]; [discriminate|].
  destruct (parseDef typed (key, g)) as [r|e'] eqn:Ed.
  - cbn [bind]. destruct (parseDefs typed l) as [ds|e'']; [discriminate|].
    cbn [bind]. intros H. injection H as <-.
    destruct (IH eq_refl) as [Hu|[key' [g' [k [param [Hin Hrest]]]]]];
      [now left|].
    right. exists key', g', k, param. split; [now right | exact Hrest].
  - cbn [bind]. intros H. injection H as <-. unfold parseDef in Ed.
    cbn [fst snd] in Ed.
    destruct (parseParams key) as [parsed|e''] eqn:Ep.
    + cbn [bind] in Ed.
      destruct (filterIgnoredTypes typed parsed) as [signature|]; [|discriminate].
      destruct (compileParams typed signature) as [t|e3] eqn:Ec; [discriminate|].
      cbn [bind] in Ed. injection Ed as <-. left.
      exact (compileParams_Err _ _ Ec).
    + cbn [bind] in Ed. injection Ed as <-. right.
      destruct (parseParams_Err _ _ Ep) as [k [param Hrest]].
      exists key, g, k, param. split; [now left | exact Hrest].
Qed.

Lemma createTypedFunction_Err (fname : string) sigs (e : CompileError) :
  createTypedFunction typed fname sigs = Err e ->
  (e = NoSignatures /\ sigs = [])
  \/ unknownType typed e
  \/ (exists key g k param,
         In (key, g) sigs
         /\ map Str.trim (Str.split "," key) !! k = Some param
         /\ e = UnexpectedRest param
         /\ Str.starts_with "..." param = true
         /\ (S k < length (Str.split "," key))%nat)
  \/ exists key, e = ReadOnlyProperty key.
Proof.
  unfold createTypedFunction. destruct (length sigs =? 0)%nat eqn:El.
  { intros H. injection H as <-. left. split; [reflexivity|].
    now apply Nat.eqb_eq, length_zero_iff_nil in El. }
  destruct (parseDefs typed sigs) as [parsed|e'] eqn:Ep.
  2: { cbn [bind]. intros H. injection H as <-. right.
       destruct (parseDefs_Err _ _ Ep) as [Hu|Hr]; [now left | right; now left]. }
  cbn [bind]. destruct (expandDefs typed _) as [twins|e'] eqn:Et.
  2: { cbn [bind]. intros H. injection H as <-. right. left.
       exact (expandDefs_Err _ _ Et). }
  cbn [bind]. destruct (mapM (fastTest typed _ 0) _) as [tests0|e'] eqn:E0.
  2: { cbn [bind]. intros H. injection H as <-. right. left.
       destruct (mapM_Err _ _ _ E0) as [k [_ Hk]]. exact (fastTest_Err _ _ _ _ Hk). }
  cbn [bind]. destruct (mapM (fastTest typed _ 1) _) as [tests1|e'] eqn:E1.
  2: { cbn [bind]. intros H. injection H as <-. right. left.
       destruct (mapM_Err _ _ _ E1) as [k [_ Hk]]. exact (fastTest_Err _ _ _ _ Hk). }
  cbn [bind]. destruct (storeSignatures _ _) as [store|e'] eqn:Es;
    [discriminate|].
  cbn [bind]. intros H. injection H as <-. right. right. right.
  destruct (storeSignatures_Err _ _ _ Es) as [def [_ [_ [-> _]]]]. eauto.
Qed.

End CompileErrors.

(** X17: the three exceptions of the compiler.  It throws "No signatures
    provided" exactly on an empty signatures map; an "Unexpected rest
    parameter" names a piece of one of the keys, trimmed, that starts with
    [...] and is not the last piece of its key; an "Unknown type" names a
    type that is not registered, with the first registered name that
    equals it up to case as the hint. *)
Theorem createTypedFunction_throws {Fn} (typed : Typed) (fname : string)
        (sigs : list (string * Fn)) :
  (createTypedFunction typed fname sigs = Err NoSignatures <-> sigs = [])
  /\ (forall param,
        createTypedFunction typed fname sigs = Err (UnexpectedRest param) ->
        exists key g k,
          In (key, g) sigs
          /\ map Str.trim (Str.split "," key) !! k = Some param
          /\ Str.starts_with "..." param = true
          /\ (S k < length (Str.split "," key))%nat)
  /\ (forall type hint,
        createTypedFunction typed fname sigs = Err (UnknownType type hint) ->
        ~ registered typed type
        /\ hint = name <$> List.find
                             (fun entry =>
                                String.eqb (Str.toLowerCase (name entry))
                                           (Str.toLowerCase type))
                             (types typed)).
Proof.
  split; [|split].
  - split.
    + intros H.
      destruct (createTypedFunction_Err typed fname sigs _ H)
        as [[_ Hs]|[[type [_ Hu]]|[[key [g [k [param [_ [_ [Hu _]]]]]]]|[key Hu]]]];
        [exact Hs | discriminate..].
    + intros ->. reflexivity.
  - intros param H.
    destruct (createTypedFunction_Err typed fname sigs _ H)
      as [[Hu _]|[[type [_ Hu]]|[[key [g [k [q [Hin [Hk [Hu [Hs Hl]]]]]]]]|[key Hu]]]];
      try discriminate.
    injection Hu as ->. exists key, g, k. auto.
  - intros type hint H.
    destruct (createTypedFunction_Err typed fname sigs _ H)
      as [[Hu _]|[[type' [Hn Hu]]|[[key [g [k [q [_ [_ [Hu _]]]]]]]|[key Hu]]]];
      try discriminate.
    injection Hu as -> ->. auto.
Qed.

(** X17 at work: [{ "...number, string": f1 }]. *)
Lemma createTypedFunction_throws_witness :
  exists key g k,
    In (key, g) [("...number, string", 1%nat)]
    /\ map Str.trim (Str.split "," key) !! k = Some "...number"
    /\ Str.starts_with "..." "...number" = true
    /\ (S k < length (Str.split "," key))%nat.
Proof.
  apply (proj1 (proj2 (createTypedFunction_throws create "f"
                         [("...number, string", 1%nat)])) "...number").
  vm_compute. reflexivity.
Defined.

(** ** The rest gather, the conversion defs and the comparison *)

Section More.

Context {Fn : Type}.
Implicit Types (def : Def Fn) (sigs : list (string * Fn)).

Lemma accepts_app_l (typed : Typed) (p q : Param) (x : Value) :
  p <> [] -> accepts typed p x = true -> accepts typed (p ++ q) x = true.
Proof.
  destruct p as [|t p]; [congruence|]. intros _. unfold accepts.
  change ((t :: p) ++ q) with (t :: (p ++ q)).
  change (t :: (p ++ q)) with ((t :: p) ++ q).
  rewrite existsb_app. intros ->. reflexivity.
Qed.

Lemma Forall2_map_l {A B C} (P : A -> C -> Prop) (Q : B -> C -> Prop)
      (h : B -> A) (ps : list B) (args : list C) :
  (forall p x, In p ps -> Q p x -> P (h p) x) ->
  Forall2 Q ps args -> Forall2 P (map h ps) args.
Proof.
  intros H F. induction F as [|p x ps args Hpx _ IH]; cbn [map]; constructor.
  - apply H; [now left | exact Hpx].
  - apply IH. intros q y Hq. apply H. now right.
Qed.

Lemma Forall_last_map {A B C} (P : A -> C -> Prop) (Q : B -> C -> Prop)
      (h : B -> A) (ps : list B) (trailing : list C) :
  (forall p x, last ps = Some p -> Q p x -> P (h p) x) ->
  Forall (fun x => match last ps with Some p => Q p x | None => True end)
         trailing ->
  Forall (fun x => match last (map h ps) with Some p => P p x | None => True end)
         trailing.
Proof.
  intros H. rewrite last_map. destruct (last ps) as [p|]; cbn [option_map].
  - intros F. eapply Forall_impl; [exact F|]. intros x. now apply H.
  - trivial.
Qed.

(** What the signature of an original accepts, the signature of its
    conversion def accepts. *)
Lemma twin_accepts (typed : Typed) (original twin : Signature)
      (arguments : list Value) :
  Forall (fun p => p <> []) (params original) ->
  params twin = map (fun p => p ++ map from (paramConversions typed p))
                    (params original) ->
  restParam twin = restParam original ->
  signatureAccepts typed original arguments ->
  signatureAccepts typed twin arguments.
Proof.
  intros Hne Hp Hr. unfold signatureAccepts. rewrite Hr, Hp.
  set (h := fun p => p ++ map from (paramConversions typed p)).
  assert (Hstep : forall p x, In p (params original) ->
                    acceptsP typed p x -> acceptsP typed (h p) x).
  { intros p x Hin Ha. apply accepts_app_l; [|exact Ha].
    exact (proj1 (List.Forall_forall _ _) Hne p Hin). }
  destruct (restParam original).
  - intros [leading [trailing [-> [Hl [Hnt Ht]]]]].
    exists leading, trailing. split; [reflexivity|]. split; [|split; [exact Hnt|]].
    + unfold initial. rewrite length_map, firstn_map.
      apply (Forall2_map_l (acceptsP typed) (acceptsP typed) h); [|exact Hl].
      intros p x Hin. apply Hstep.
      rewrite <- (take_drop (length (params original) - 1) (params original)).
      apply in_app_iff. now left.
    + apply (Forall_last_map (acceptsP typed) (acceptsP typed) h); [|exact Ht].
      intros p x El. apply Hstep.
      apply list_elem_of_In. now apply last_Some_elem_of.
  - apply (Forall2_map_l (acceptsP typed) (acceptsP typed) h). exact Hstep.
Qed.

End More.

(** X18: the preprocessing of a rest def leaves the arguments before the
    rest param in place and gathers all others in one array, which gives
    as many arguments as the signature has params; spreading that array
    gives the arguments of the call back. *)
Theorem createRestParamPreProcess_gathers (signature : Signature)
        (arguments : list Value) :
  params signature <> [] ->
  let n := length (params signature) in
  createRestParamPreProcess signature arguments
  = take (n - 1) arguments ++ [VArray (drop (n - 1) arguments)]
  /\ ((n - 1 <= length arguments)%nat ->
      length (createRestParamPreProcess signature arguments) = n)
  /\ ungather true (createRestParamPreProcess signature arguments) = arguments.
Proof.
  intros Hne n.
  assert (Hn : (1 <= n)%nat).
  { unfold n. destruct (params signature); [congruence | simpl; lia]. }
  change (createRestParamPreProcess signature arguments) with (gather n arguments).
  rewrite (gather_split n arguments Hn). split; [reflexivity|]. split.
  - intros Hl. rewrite length_app, length_take. cbn [length]. lia.
  - rewrite ungather_snoc. apply take_drop.
Qed.

(** X18 at work: [number, ...string] on three arguments. *)
Lemma createRestParamPreProcess_gathers_witness :
  let signature := {| params := [["number"]; ["string"]]; restParam := true |} in
  let arguments := [VNumber 1; VString "a"; VString "b"] in
  createRestParamPreProcess signature arguments
  = take 1 arguments ++ [VArray (drop 1 arguments)]
  /\ ((1 <= length arguments)%nat ->
      length (createRestParamPreProcess signature arguments) = 2%nat)
  /\ ungather true (createRestParamPreProcess signature arguments) = arguments.
Proof.
  cbv zeta.
  apply (createRestParamPreProcess_gathers
           {| params := [["number"]; ["string"]]; restParam := true |}).
  discriminate.
Defined.

(** X19: every conversion def of a typed function stems from an original
    def of it, and its test accepts all arguments that the test of that
    original accepts. *)
Theorem conversion_def_accepts_more {Fn} (typed : Typed) (fname : string)
        (sigs : list (string * Fn)) (f : TypedFunction Fn) (twin : Def Fn) :
  createTypedFunction typed fname sigs = OK f ->
  In twin (defs f) -> conversion twin = true ->
  exists original,
    In original (defs f) /\ conversion original = false
    /\ def_restParam twin = def_restParam original
    /\ forall arguments, def_test original arguments = true ->
                         def_test twin arguments = true.
Proof.
  intros H Hin Hc.
  destruct (createTypedFunction_OK _ _ _ _ H) as [parsed [twins [Hp [Ht [Hd _]]]]].
  set (sorted := sortDefs (createTypesIndexMap (types typed)) parsed) in *.
  assert (Hb : forall d, In d sorted -> builtOriginal typed sigs d).
  { intros d Hs. apply sortDefs_In in Hs.
    apply (parseDefs_In typed sigs parsed d Hp) in Hs as [entry [Hs He]].
    exact (parseDef_built typed sigs entry d Hs He). }
  rewrite Hd in Hin. apply in_app_iff in Hin as [Hin|Hin].
  { destruct (Hb twin Hin) as [key [g [_ [_ [Hf _]]]]]. congruence. }
  assert (Hex : forall l ts, expandDefs typed l = OK ts -> In twin ts ->
                  exists original, In original l
                                   /\ expandDef typed original = OK (Some twin)).
  { induction l as [|a l IH]; intros ts He Hts; cbn [expandDefs] in He.
    - injection He as <-. destruct Hts.
    - destruct (expandDef typed a) as [r|] eqn:Ea; [|discriminate].
      cbn [bind] in He.
      destruct (expandDefs typed l) as [ts'|] eqn:El; [|discriminate].
      cbn [bind] in He. injection He as <-.
      destruct r as [d|].
      + destruct Hts as [<-|Hts].
        * exists a. split; [now left | exact Ea].
        * destruct (IH ts' eq_refl Hts) as [o [Ho Heo]]. exists o.
          split; [now right | exact Heo].
      + destruct (IH ts' eq_refl Hts) as [o [Ho Heo]]. exists o.
        split; [now right | exact Heo]. }
  destruct (Hex sorted twins Ht Hin) as [original [Ho He]].
  exists original. split; [rewrite Hd; apply in_app_iff; now left|].
  pose proof (Hb original Ho) as Hbo.
  destruct Hbo as [key [g [Hs [Hn [Hco [Hfo [Hro [Hpo Hto]]]]]]]].
  split; [exact Hco|].
  assert (Hbo : builtOriginal typed sigs original).
  { exists key, g. repeat split; trivial. }
  destruct (expandDef_built typed sigs original twin Hbo He)
    as [o' [conversions [cc [_ [_ [_ [_ [_ [_ [_ [_ Htt]]]]]]]]]]].
  unfold expandDef in He.
  destruct (getConversions typed (params (signature original)))
    as [cs|] eqn:Eg; [|discriminate].
  destruct (compileParams typed _) as [t|] eqn:Ec; [|discriminate].
  cbn [bind] in He.
  destruct (compileArgsConversion typed _ _ _) as [impl|]; [|discriminate].
  cbn [bind] in He. injection He as <-.
  cbn [def_restParam def_test signature] in *.
  split; [reflexivity|]. intros arguments Ha.
  apply (compiled_test_accepts typed _ _ arguments Ec).
  apply (compiled_test_accepts typed _ _ arguments Hto) in Ha.
  apply getConversions_Some in Eg. subst cs.
  apply (twin_accepts typed (signature original)); trivial.
  - exact (normalize_nonempty typed key _ Hn).
  - cbn [addConvertableParams params].
    exact (zip_with_map_same (fun param cs => param ++ map from cs)
                             (paramConversions typed) _).
Qed.

(** X19 at work: the conversion def [number|boolean] of
    [{ "number": f1, "string": f2 }]. *)
Lemma conversion_def_accepts_more_witness :
  let f := Examples.numberOrStringFn in
  let twin := MoreExamples.numberOrBooleanDef in
  exists original,
    In original (defs f) /\ conversion original = false
    /\ def_restParam twin = def_restParam original
    /\ forall arguments, def_test original arguments = true ->
                         def_test twin arguments = true.
Proof.
  cbv zeta.
  apply (conversion_def_accepts_more Examples.withBooleanToNumber "f"
           [("number", 1%nat); ("string", 2%nat)]).
  - vm_compute. reflexivity.
  - vm_compute. right. right. left. reflexivity.
  - vm_compute. reflexivity.
Defined.

(** X20: on signatures whose params all have a lowest type index,
    [compareSignatures] is a consistent comparison: it always gives a
    number, swapping the signatures negates it, and it is transitive. *)
Theorem compareSignatures_consistent (typesIndexMap : gmap string Z)
        (s1 s2 s3 : Signature) (ks1 ks2 ks3 : list Z) :
  indices typesIndexMap (params s1) ks1 ->
  indices typesIndexMap (params s2) ks2 ->
  indices typesIndexMap (params s3) ks3 ->
  exists c12 c23 c13,
    compareSignatures s1 s2 typesIndexMap = Some c12
    /\ compareSignatures s2 s3 typesIndexMap = Some c23
    /\ compareSignatures s1 s3 typesIndexMap = Some c13
    /\ compareSignatures s2 s1 typesIndexMap = Some (- c12)
    /\ (c12 <= 0 -> c23 <= 0 -> c13 <= 0).
Proof.
  intros H1 H2 H3.
  rewrite (compareSignatures_rank _ s1 s2 ks1 ks2 H1 H2),
          (compareSignatures_rank _ s2 s3 ks2 ks3 H2 H3),
          (compareSignatures_rank _ s1 s3 ks1 ks3 H1 H3),
          (compareSignatures_rank _ s2 s1 ks2 ks1 H2 H1).
  eexists _, _, _. repeat split.
  - now rewrite rank_opp.
  - apply rank_trans.
Qed.

(** X20 at work: [number], [string] and [...number] in the registry of
    [create()]. *)
Lemma compareSignatures_consistent_witness :
  let m := createTypesIndexMap _types in
  let s1 := {| params := [["number"]]; restParam := false |} in
  let s2 := {| params := [["string"]]; restParam := false |} in
  let s3 := {| params := [["number"]]; restParam := true |} in
  exists c12 c23 c13,
    compareSignatures s1 s2 m = Some c12
    /\ compareSignatures s2 s3 m = Some c23
    /\ compareSignatures s1 s3 m = Some c13
    /\ compareSignatures s2 s1 m = Some (- c12)
    /\ (c12 <= 0 -> c23 <= 0 -> c13 <= 0).
Proof.
  cbv zeta.
  apply (compareSignatures_consistent _ _ _ _ [0] [1] [0]);
    repeat constructor.
Defined.

(** ** The index of a type in the order of signatures *)

Section TypesIndexMap.

(** An entry pushes its position under its name, unless the name is
    [__proto__]. *)
Lemma typesIndexMap_snoc (l : list TypeDef) (entry : TypeDef) :
  foldl (fun m it => if String.eqb (name (snd it)) "__proto__" then m
                     else <[name (snd it) := Z.of_nat (fst it)]> m)
        (∅ : gmap string Z) (imap pair (l ++ [entry]))
  = let m := foldl (fun m it => if String.eqb (name (snd it)) "__proto__" then m
                                else <[name (snd it) := Z.of_nat (fst it)]> m)
                   ∅ (imap pair l) in
    if String.eqb (name entry) "__proto__" then m
    else <[name entry := Z.of_nat (length l)]> m.
Proof.
  rewrite imap_app, foldl_app. cbn [imap foldl fst snd].
  now rewrite Nat.add_0_r.
Qed.

Lemma typesIndexMap_lookup (l : list TypeDef) (type : string) (k : Z) :
  foldl (fun m it => if String.eqb (name (snd it)) "__proto__" then m
                     else <[name (snd it) := Z.of_nat (fst it)]> m)
        (∅ : gmap string Z) (imap pair l) !! type = Some k ->
  exists i entry,
    k = Z.of_nat i /\ l !! i = Some entry /\ name entry = type
    /\ forall j entry', l !! j = Some entry' -> name entry' = type ->
                        (j <= i)%nat.
Proof.
  revert k. induction l as [|entry l IH] using rev_ind; intros k.
  - cbn. now rewrite lookup_empty.
  - rewrite typesIndexMap_snoc. cbv zeta. intros H.
    assert (Hold : forall i e,
               k = Z.of_nat i -> l !! i = Some e -> name e = type ->
               (forall j entry', l !! j = Some entry' -> name entry' = type ->
                                 (j <= i)%nat) ->
               name entry <> type ->
               exists i entry0,
                 k = Z.of_nat i /\ (l ++ [entry]) !! i = Some entry0
                 /\ name entry0 = type
                 /\ forall j entry', (l ++ [entry]) !! j = Some entry' ->
                                     name entry' = type -> (j <= i)%nat).
    { intros i e Hi Hl He Hmax Hn. exists i, e. split; [exact Hi|].
      split; [rewrite lookup_app_l; [exact Hl | now apply lookup_lt_Some in Hl]|].
      split; [exact He|]. intros j e' Hj He'.
      destruct (decide (j < length l)%nat) as [Hlt|Hge].
      * rewrite lookup_app_l in Hj by exact Hlt. now apply (Hmax j e').
      * rewrite lookup_app_r in Hj by lia.
        destruct (j - length l)%nat; cbn in Hj; [|discriminate].
        injection Hj as <-. congruence. }
    destruct (String.eqb_spec (name entry) "__proto__") as [Hp|Hp].
    + destruct (IH k H) as [i [e [Hi [Hl [He Hmax]]]]].
      apply (Hold i e Hi Hl He Hmax). intros Hn.
      (* the name [__proto__] has no entry in the map *)
      assert (Hnone : forall (l0 : list (nat * TypeDef)) (acc : gmap string Z),
                 acc !! "__proto__" = None ->
                 foldl (fun m it => if String.eqb (name (snd it)) "__proto__"
                                    then m
                                    else <[name (snd it) := Z.of_nat (fst it)]> m)
                       acc l0 !! "__proto__" = None).
      { induction l0 as [|a l0 IH0]; intros acc Hacc; cbn [foldl]; [exact Hacc|].
        apply IH0. destruct (String.eqb_spec (name (snd a)) "__proto__");
          [exact Hacc|]. now rewrite lookup_insert_ne. }
      rewrite <- Hn, Hp, Hnone in H by apply lookup_empty. discriminate.
    + apply lookup_insert_Some in H as [[Hn Hk]|[Hn Hk]].
      * exists (length l), entry. split; [now symmetry|].
        split; [now rewrite lookup_app_r, Nat.sub_diag by lia|].
        split; [exact Hn|]. intros j e' Hj _.
        apply lookup_lt_Some in Hj. rewrite length_app in Hj. cbn in Hj. lia.
      * destruct (IH k Hk) as [i [e [Hi [Hl [He Hmax]]]]].
        now apply (Hold i e Hi Hl He Hmax).
Qed.

End TypesIndexMap.

(** X21: in the map that orders the signatures, [Object] and [any] come
    after every registered type, whatever their place in [typed.types];
    any other name in the map has the position of its entry in
    [typed.types], the last one when the name is registered more than
    once. *)
Theorem createTypesIndexMap_order (l : list TypeDef) :
  createTypesIndexMap l !! "Object" = Some (Z.of_nat (length l))
  /\ createTypesIndexMap l !! "any" = Some (Z.of_nat (length l) + 1)
  /\ forall type k,
       type <> "Object" -> type <> "any" ->
       createTypesIndexMap l !! type = Some k ->
       exists i entry,
         k = Z.of_nat i /\ l !! i = Some entry /\ name entry = type
         /\ (i < length l)%nat
         /\ forall j entry', l !! j = Some entry' -> name entry' = type ->
                             (j <= i)%nat.
Proof.
  unfold createTypesIndexMap. split; [|split].
  - rewrite lookup_insert_ne by discriminate. apply lookup_insert_eq.
  - apply lookup_insert_eq.
  - intros type k Ho Ha H.
    rewrite !lookup_insert_ne in H by congruence.
    destruct (typesIndexMap_lookup l type k H) as [i [e [Hi [Hl [He Hmax]]]]].
    exists i, e. repeat split; trivial. now apply lookup_lt_Some in Hl.
Qed.

(** ** The errors of a typed function with one def *)

Section SingleDef.

Context {Fn : Type}.
Variable def : Def Fn.
Variable _name : string.

Hypothesis no_rest : restParam (signature def) = false.
Hypothesis params_listed :
  Forall (fun p => exists type, In type p /\ type <> "__proto__")
         (params (signature def)).

Lemma includes_uniq (x : string) (l : list string) :
  x <> "__proto__" -> includes x (uniq l) = includes x l.
Proof.
  intros Hx. destruct (includes x l) eqn:E.
  - apply (proj2 (includes_In _ _)), (proj2 (uniq_In _ _)). split; [|exact Hx].
    exact (proj1 (includes_In _ _) E).
  - destruct (includes x (uniq l)) eqn:E'; [|reflexivity].
    apply (proj1 (includes_In _ _)), (proj1 (uniq_In _ _)) in E'.
    destruct E' as [E' _]. apply (proj2 (includes_In _ _)) in E'.
    congruence.
Qed.

Lemma getExpectedParam_inside (index : nat) (p : Param) :
  params (signature def) !! index = Some p ->
  getExpectedParam (signature def) index = Some p.
Proof.
  intros H. unfold getExpectedParam.
  pose proof (lookup_lt_Some _ _ _ H) as Hlt.
  apply Nat.ltb_lt in Hlt. now rewrite Hlt.
Qed.

Lemma getExpectedParam_beyond (index : nat) :
  (length (params (signature def)) <= index)%nat ->
  getExpectedParam (signature def) index = Some [].
Proof.
  intros H. unfold getExpectedParam. apply Nat.ltb_ge in H.
  now rewrite H, no_rest.
Qed.

Lemma mergeExpectedParams_single (index : nat) (p : Param) :
  getExpectedParam (signature def) index = Some p ->
  mergeExpectedParams [def] index
  = if includes "any" p then ["any"] else uniq p.
Proof.
  intros H. unfold mergeExpectedParams, expectedParams. cbn [map concat].
  rewrite H, app_nil_r, includes_uniq; [reflexivity | discriminate].
Qed.

(** Arguments that all have the type of their param pass the loop "test
    for wrong type"; arguments beyond the params pass it as well. *)
Lemma narrow_match (actualTypes : list string) (index : nat) :
  (forall j a p, actualTypes !! j = Some a ->
                 params (signature def) !! (index + j)%nat = Some p ->
                 isCorrectType (Some p) a = true) ->
  narrow _name actualTypes index [def] = inr [def].
Proof.
  revert index. induction actualTypes as [|a actualTypes IH]; intros index H;
    cbn [narrow]; [reflexivity|].
  assert (Hnext : forall j a' p, actualTypes !! j = Some a' ->
                    params (signature def) !! (S index + j)%nat = Some p ->
                    isCorrectType (Some p) a' = true).
  { intros j a' p Hj Hp. apply (H (S j) a' p Hj). now rewrite Nat.add_succ_r. }
  unfold nextMatchingDefs. cbn [List.filter].
  destruct (params (signature def) !! index) as [p|] eqn:Ep.
  - rewrite (getExpectedParam_inside index p Ep).
    rewrite (H 0%nat a p eq_refl); [|now rewrite Nat.add_0_r].
    now apply IH.
  - apply lookup_ge_None in Ep.
    rewrite (getExpectedParam_beyond index Ep). cbn [isCorrectType includes existsb orb].
    rewrite (mergeExpectedParams_single index [] (getExpectedParam_beyond index Ep)).
    cbn. now apply IH.
Qed.

(** The first argument that has not the type of its param stops it. *)
Lemma narrow_wrong (i : nat) (actualTypes : list string) (index : nat)
      (a : string) (p : Param) :
  (forall j a' p', (j < i)%nat -> actualTypes !! j = Some a' ->
                   params (signature def) !! (index + j)%nat = Some p' ->
                   isCorrectType (Some p') a' = true) ->
  actualTypes !! i = Some a ->
  params (signature def) !! (index + i)%nat = Some p ->
  isCorrectType (Some p) a = false ->
  narrow _name actualTypes index [def]
  = inl (wrongTypeError _name (index + i) a (uniq p)).
Proof.
  revert actualTypes index.
  induction i as [|i IH]; intros [|a0 actualTypes] index H Ha Hp Hc;
    try (now rewrite lookup_nil in Ha);
    cbn [narrow]; unfold nextMatchingDefs; cbn [List.filter].
  - cbn in Ha. injection Ha as ->. rewrite Nat.add_0_r in *.
    rewrite (getExpectedParam_inside index p Hp), Hc.
    rewrite (mergeExpectedParams_single index p (getExpectedParam_inside index p Hp)).
    cbn [isCorrectType] in Hc. apply orb_false_iff in Hc as [_ Hany].
    rewrite Hany.
    assert (Hlen : (0 <? length (uniq p))%nat = true).
    { apply Nat.ltb_lt.
      destruct (proj1 (List.Forall_forall _ _) params_listed p
                  (lookup_In _ _ _ Hp)) as [t [Ht Hne]].
      assert (Hin : In t (uniq p)) by (apply uniq_In; now split).
      destruct (uniq p); [destruct Hin | simpl; lia]. }
    now rewrite Hlen.
  - cbn in Ha.
    assert (Hlt : (index < length (params (signature def)))%nat).
    { apply lookup_lt_Some in Hp. lia. }
    destruct (lookup_lt_is_Some_2 _ _ Hlt) as [p0 Hp0].
    rewrite (getExpectedParam_inside index p0 Hp0).
    rewrite (H 0%nat a0 p0 ltac:(lia) eq_refl); [|now rewrite Nat.add_0_r].
    rewrite Nat.add_succ_r in *. apply (IH actualTypes (S index)); trivial.
    intros j a' p' Hj Ha' Hp'. apply (H (S j) a' p'); [lia | exact Ha'|].
    now rewrite Nat.add_succ_r.
Qed.

End SingleDef.

(** X22: the error of a typed function with one def that has no rest
    param and whose params each list a type other than "__proto__" (a name
    that [uniq] drops).  The first argument that has not a type of its param gives a
    wrongType error with the types of that param; when every argument has a
    type of its param, fewer arguments than params give tooFewArgs with the
    types of the first missing param, more arguments than params give
    tooManyArgs with the number of params, and as many give mismatch. *)
Theorem single_def_errors {Fn} (typed : Typed) (name : string)
        (arguments : list Value) (def : Def Fn) :
  restParam (signature def) = false ->
  Forall (fun p => exists type, In type p /\ type <> "__proto__")
         (params (signature def)) ->
  let actualTypes := actualTypesOf typed arguments in
  let ps := params (signature def) in
  let _name := if Str.is_empty name then "unnamed" else name in
  let error := createError typed name arguments [def] in
  let matches := fun j => forall a p, actualTypes !! j = Some a -> ps !! j = Some p ->
                                      isCorrectType (Some p) a = true in
  (forall i a p,
      (forall j, (j < i)%nat -> matches j) ->
      actualTypes !! i = Some a -> ps !! i = Some p ->
      isCorrectType (Some p) a = false ->
      data error = wrongType _name i a (uniq p))
  /\ ((forall j, matches j) ->
      ((length arguments < length ps)%nat ->
       exists p, ps !! length arguments = Some p
                 /\ data error
                    = tooFewArgs _name (length arguments)
                                 (if includes "any" p then ["any"] else uniq p))
      /\ ((length ps < length arguments)%nat ->
          data error = tooManyArgs _name (length arguments) (Finite (length ps)))
      /\ (length arguments = length ps -> data error = mismatch actualTypes)).
Proof.
  intros Hrest Hne actualTypes ps _name error matches.
  assert (Hlen : length actualTypes = length arguments) by apply length_map.
  split.
  - intros i a p Hm Ha Hp Hc. unfold error, createError. fold actualTypes _name.
    rewrite (narrow_wrong def _name Hne i actualTypes 0 a p); trivial.
    intros j a' p' Hj Ha' Hp'. now apply (Hm j Hj).
  - intros Hm.
    assert (Hn : narrow _name actualTypes 0 [def] = inr [def]).
    { apply (narrow_match def _name Hrest). intros j a p Ha Hp.
      now apply (Hm j). }
    unfold error, createError. fold actualTypes _name. rewrite Hn.
    unfold lengthsOf. cbn [map foldr]. rewrite Hrest. fold ps.
    cbn [extMin extMax ltExt gtExt]. rewrite Hlen.
    split; [|split].
    + intros Hlt. destruct (lookup_lt_is_Some_2 ps _ Hlt) as [p Hp].
      exists p. split; [exact Hp|].
      apply Nat.ltb_lt in Hlt. rewrite Hlt. cbn [data].
      now rewrite (mergeExpectedParams_single def (length arguments) p
                     (getExpectedParam_inside def (length arguments) p Hp)).
    + intros Hgt.
      replace (length arguments <? length ps)%nat with false
        by (symmetry; apply Nat.ltb_ge; lia).
      apply Nat.ltb_lt in Hgt. now rewrite Hgt.
    + intros Heq. rewrite Heq, Nat.ltb_irrefl. reflexivity.
Qed.

(** X22 at work: the def of [{ "number": f1 }] called on a string. *)
Lemma single_def_errors_witness :
  let def := MoreExamples.numberDef in
  data (createError create "f" [VString "a"] [def])
  = wrongType "f" 0 "string" (uniq ["number"]).
Proof.
  cbv zeta.
  assert (Hl : Forall (fun p : Param =>
                         exists type, In type p /\ type <> "__proto__")
                      (params (signature MoreExamples.numberDef))).
  { constructor; [|constructor].
    exists "number". split; [now left | discriminate]. }
  pose proof (single_def_errors create "f" [VString "a"] MoreExamples.numberDef
                eq_refl Hl) as H.
  cbv zeta in H. destruct H as [H _].
  apply (H 0%nat "string" ["number"]).
  - intros j Hj. lia.
  - reflexivity.
  - reflexivity.
  - reflexivity.
Defined.

(** ** The built-in types *)

(** X23: in a registry reached from [create()] through [addType] and
    [addConversion], the name of a built-in type keeps its built-in test,
    also when a type of the same name is added; so a param that holds
    [any] accepts every value. *)
Theorem builtin_tests_win (typed : Typed) :
  reachable typed ->
  (forall entry, In entry _types -> findTest typed (name entry) = OK (test entry))
  /\ (forall param x, In "any" param -> accepts typed param x = true).
Proof.
  intros [more Hm]%reachable_types.
  assert (H : forall entry, In entry _types ->
                findTest typed (name entry) = OK (test entry)).
  { intros entry Hin. unfold findTest. rewrite Hm.
    assert (Hf : List.find (fun e => String.eqb (name e) (name entry)) _types
                 = Some entry).
    { unfold _types in *. cbn [In] in Hin.
      repeat (destruct Hin as [<-|Hin]; [reflexivity|]). destruct Hin. }
    now rewrite (find_app_Some _ _ more _ Hf). }
  split; [exact H|].
  intros param x Hin. apply (accepts_In typed param "any"); [exact Hin|].
  unfold typeTest.
  assert (Hany : findTest typed "any" = OK ok).
  { apply (H {| name := "any"; test := ok |}).
    unfold _types. cbn [In]. do 10 right. now left. }
  now rewrite Hany.
Qed.

(** X23 at work: [any] after a type [any] that accepts nothing was added. *)
Lemma builtin_tests_win_witness :
  let typed := addType {| name := "any"; test := notOk |} create in
  (forall entry, In entry _types -> findTest typed (name entry) = OK (test entry))
  /\ (forall param x, In "any" param -> accepts typed param x = true).
Proof.
  cbv zeta. apply builtin_tests_win. apply reach_addType, reach_create.
Defined.

(** ** What the parser reads *)

Section Parser.

Lemma parseParamsFrom_pushed (len index : nat) (arr : list string)
      (r : list Param * bool) :
  parseParamsFrom len index arr = OK r ->
  (index + length arr = len)%nat ->
  length (fst r) = length arr
  /\ snd r = match last arr with
             | Some piece => Str.starts_with "..." piece
             | None => false
             end
  /\ forall i piece,
       arr !! i = Some piece ->
       fst r !! i
       = Some (parseParam (if Str.starts_with "..." piece
                           then (if (3 <? String.length piece)%nat
                                 then Str.drop 3 piece else "any")
                           else piece)).
Proof.
  revert index r. induction arr as [|param arr IH]; intros index r H Hlen;
    cbn [parseParamsFrom] in H.
  - injection H as <-. cbn. split; [reflexivity|]. split; [reflexivity|].
    intros i piece Hi. now rewrite lookup_nil in Hi.
  - destruct (Str.starts_with "..." param && negb (index =? len - 1)%nat) eqn:E;
      [discriminate|].
    destruct (parseParamsFrom len (S index) arr) as [pushed|] eqn:Ep;
      [|discriminate].
    cbn [bind] in H. injection H as <-. cbn [fst snd].
    cbn [length] in Hlen.
    destruct (IH (S index) pushed Ep ltac:(lia)) as [Hl [Hs Hi]].
    split; [cbn [length]; now rewrite Hl|]. split.
    + destruct arr as [|q arr].
      * cbn [parseParamsFrom] in Ep. injection Ep as <-. cbn. apply orb_false_r.
      * change (last (param :: q :: arr)) with (last (q :: arr)). rewrite <- Hs.
        assert (Hn : (index =? len - 1)%nat = false).
        { apply Nat.eqb_neq. cbn [length] in Hlen. lia. }
        rewrite Hn in E. cbn [negb] in E. rewrite andb_true_r in E.
        now rewrite E.
    + intros [|i] piece Hp; cbn in Hp.
      * injection Hp as <-. reflexivity.
      * cbn. now apply Hi.
Qed.

End Parser.

(** X24: what [parseParams] returns.  A key that is blank gives no param;
    otherwise there is one param per comma-separated piece of the key, the
    rest flag says whether the last piece, trimmed, starts with [...], and
    each param holds the types of its piece, a piece [...] alone standing
    for [...any]. *)
Theorem parseParams_shape (key : string) (signature : Signature) :
  parseParams key = OK signature ->
  let pieces := map Str.trim (Str.split "," key) in
  if Str.is_empty (Str.trim key)
  then signature = {| params := []; restParam := false |}
  else
    length (params signature) = length pieces
    /\ restParam signature = match last pieces with
                             | Some piece => Str.starts_with "..." piece
                             | None => false
                             end
    /\ forall i piece,
         pieces !! i = Some piece ->
         params signature !! i
         = Some (parseParam (if Str.starts_with "..." piece
                             then (if (3 <? String.length piece)%nat
                                   then Str.drop 3 piece else "any")
                             else piece)).
Proof.
  unfold parseParams. destruct (Str.is_empty (Str.trim key)).
  - intros H. now injection H as <-.
  - destruct (parseParamsFrom _ 0 _) as [pushed|] eqn:E; [|discriminate].
    cbn [bind]. intros H. injection H as <-. cbn [params restParam].
    apply (parseParamsFrom_pushed _ 0 _ pushed E). cbn. apply length_map.
Qed.

(** X24 at work: [number, ...]. *)
Lemma parseParams_shape_witness :
  let signature := {| params := [["number"]; ["any"]]; restParam := true |} in
  let pieces := ["number"; "..."] in
  length (params signature) = length pieces
  /\ restParam signature = match last pieces with
                           | Some piece => Str.starts_with "..." piece
                           | None => false
                           end
  /\ forall i piece,
       pieces !! i = Some piece ->
       params signature !! i
       = Some (parseParam (if Str.starts_with "..." piece
                           then (if (3 <? String.length piece)%nat
                                 then Str.drop 3 piece else "any")
                           else piece)).
Proof.
  cbv zeta.
  apply (parseParams_shape "number, ..."
           {| params := [["number"]; ["any"]]; restParam := true |}).
  vm_compute. reflexivity.
Defined.

(** ** The keys of [signatures], spelled out *)

Section SignatureKeys.

Context {Fn : Type}.
Variable typed : Typed.

(** The types of a param that the ignore list leaves in. *)
Lemma notIgnore_filter (param : Param) :
  List.filter (notIgnore typed) param
  = List.filter (fun type => negb (existsb (String.eqb type) (ignore typed)))
                param.
Proof. reflexivity. Qed.

Lemma filterParams_map (ps : list Param) :
  Forall (fun param => param <> []) (map (List.filter (notIgnore typed)) ps) ->
  filterParams typed ps = Some (map (List.filter (notIgnore typed)) ps).
Proof.
  induction ps as [|p ps IH]; cbn [map filterParams]; intros H; [reflexivity|].
  apply List.Forall_cons_iff in H as [Hp Hps].
  destruct (List.filter (notIgnore typed) p) as [|t q] eqn:E; [congruence|].
  now rewrite (IH Hps).
Qed.

(** The signature that [filterIgnoredTypes(parseParams(key))] leaves. *)
Lemma normalize_spelled (key : string) (signature : Signature) :
  Canon.normalize typed key = Some signature
  <-> exists parsed,
        parseParams key = OK parsed
        /\ Forall (fun param => param <> [])
                  (map (List.filter (notIgnore typed)) (params parsed))
        /\ signature
           = {| params := map (List.filter (notIgnore typed)) (params parsed);
                restParam := restParam parsed |}.
Proof.
  unfold Canon.normalize, filterIgnoredTypes. split.
  - destruct (parseParams key) as [parsed|]; [|discriminate].
    destruct (filterParams typed (params parsed)) as [ps|] eqn:Ef; [|discriminate].
    cbn. intros H. injection H as <-. exists parsed.
    pose proof (filterParams_nonempty _ _ _ Ef) as Hne.
    apply filterParams_Some in Ef. subst ps. auto.
  - intros [parsed [-> [Hne ->]]]. now rewrite (filterParams_map _ Hne).
Qed.

End SignatureKeys.

(** X25: the own properties of [signatures].  A key other than [__proto__]
    is one exactly when a property of the object passed parses to params
    of which each keeps a type once the ignored types are taken out, and
    the key is the text of these params: the types of a param joined by
    [|], the params joined by [,], with [...] before the last param when
    the property has a rest param.  The value under the key is a function
    that the user gave for such a property. *)
Theorem signatures_keys {Fn} (typed : Typed) (name : string)
        (sigs : list (string * Fn)) (f : TypedFunction Fn) :
  createTypedFunction typed name sigs = OK f ->
  let spelled := fun (key : string) (source : string) =>
    exists parsed kept,
      parseParams source = OK parsed
      /\ kept = map (List.filter
                       (fun type => negb (existsb (String.eqb type) (ignore typed))))
                    (params parsed)
      /\ Forall (fun param => param <> []) kept
      /\ key = Str.join ","
                 (imap (fun index param =>
                          (if restParam parsed && (index =? length kept - 1)%nat
                           then "..." else EmptyString)
                          +:+ Str.join "|" param)
                       kept) in
  (forall key,
      is_Some (signatures f !! key)
      <-> key <> "__proto__"
          /\ exists source g, In (source, g) sigs /\ spelled key source)
  /\ (forall key impl,
         signatures f !! key = Some impl ->
         exists source g,
           In (source, g) sigs /\ spelled key source /\ impl = Original g).
Proof.
  intros H spelled.
  assert (Hlookup : forall key impl,
             signatures f !! key = Some impl ->
             key <> "__proto__"
             /\ exists source g,
                  In (source, g) sigs /\ spelled key source /\ impl = Original g).
  { intros key impl Hk.
    destruct (signatures_lookup _ _ _ _ _ _ H Hk)
      as [[source g] [signature [Hin [Hn [Hs [Hi Hp]]]]]].
    split; [exact Hp|]. exists source, g. split; [exact Hin|]. split; [|exact Hi].
    apply normalize_spelled in Hn as [parsed [Hparse [Hne ->]]].
    exists parsed, (map (List.filter (notIgnore typed)) (params parsed)).
    repeat split; trivial. now rewrite <- Hs. }
  split.
  - intros key. split.
    + intros [impl Hk]. destruct (Hlookup key impl Hk) as [Hp [source [g [Hin [Hs _]]]]].
      split; [exact Hp|]. now exists source, g.
    + intros [Hp [source [g [Hin [parsed [kept [Hparse [-> [Hne ->]]]]]]]]].
      pose (signature :=
              {| params := map (List.filter (notIgnore typed)) (params parsed);
                 restParam := restParam parsed |}).
      assert (Hn : Canon.normalize typed source = Some signature).
      { apply normalize_spelled. exists parsed. auto. }
      exact (signatures_is_Some typed name sigs f (source, g) signature H Hin Hn Hp).
  - intros key impl Hk. now destruct (Hlookup key impl Hk).
Qed.

(** X25 at work: [{ "number | null, ...string": f1 }] with [null] ignored
    has the key ["number,...string"]. *)
Lemma signatures_keys_witness :
  is_Some (signatures MoreExamples.ignoringFn !! "number,...string").
Proof.
  pose proof (signatures_keys Examples.ignoringNull "f"
                [("number | null, ...string", 1%nat)] MoreExamples.ignoringFn
                ltac:(vm_compute; reflexivity)) as H.
  cbv zeta in H. destruct H as [H _].
  apply (proj2 (H "number,...string")). split; [discriminate|].
  exists "number | null, ...string", 1%nat. split; [now left|].
  exists {| params := [["number"; "null"]; ["string"]]; restParam := true |},
         [["number"]; ["string"]].
  split; [vm_compute; reflexivity|]. split; [reflexivity|].
  split; [repeat constructor; discriminate | reflexivity].
Defined.

(** ** The assignment to [signatures] that throws *)

Section ReadOnly.

Context {Fn : Type}.

(** An assignment throws only once a function has been made the
    prototype. *)
Lemma storeSignatures_Err_holder (l : list (Def Fn)) (store : Store Fn)
      (e : CompileError) :
  storeSignatures l store = Err e ->
  is_Some (snd store)
  \/ exists holder, In holder l /\ conversion holder = false
                    /\ stringifyParams (signature holder) = "__proto__".
Proof.
  revert store. induction l as [|a l IH]; intros store H; cbn [storeSignatures] in H;
    [discriminate|].
  assert (Hright : (exists holder, In holder l /\ conversion holder = false
                      /\ stringifyParams (signature holder) = "__proto__") ->
                   exists holder, In holder (a :: l) /\ conversion holder = false
                      /\ stringifyParams (signature holder) = "__proto__").
  { intros [holder [Hin Hr]]. exists holder. split; [now right | exact Hr]. }
  destruct (conversion a) eqn:Ea.
  - destruct (IH _ H) as [Hs|Hr]; [now left | right; now apply Hright].
  - destruct (assignSignature store _ _) as [store1|e1] eqn:E1; cbn [bind] in H.
    + destruct (IH _ H) as [Hs|Hr]; [|right; now apply Hright].
      destruct (assignSignature_OK _ _ _ _ E1) as [[Hp ->]|[Hp ->]].
      * right. exists a. split; [now left | auto].
      * now left.
    + apply assignSignature_Err in E1 as [_ [_ [Hs _]]]. now left.
Qed.

End ReadOnly.

(** X26: the compiler throws the TypeError of an assignment to a read-only
    property only for a signature whose text is [length], [name],
    [arguments] or [caller], and only when another signature has the text
    [__proto__], the function of which has become the prototype of
    [signatures]. *)
Theorem createTypedFunction_read_only {Fn} (typed : Typed) (fname : string)
        (sigs : list (string * Fn)) (key : string) :
  createTypedFunction typed fname sigs = Err (ReadOnlyProperty key) ->
  In key ["length"; "name"; "arguments"; "caller"]
  /\ (exists source g signature,
         In (source, g) sigs
         /\ Canon.normalize typed source = Some signature
         /\ stringifyParams signature = key)
  /\ (exists source g signature,
         In (source, g) sigs
         /\ Canon.normalize typed source = Some signature
         /\ stringifyParams signature = "__proto__").
Proof.
  unfold createTypedFunction. destruct (length sigs =? 0)%nat; [discriminate|].
  destruct (parseDefs typed sigs) as [parsed|e'] eqn:Ep.
  2: { cbn [bind]. intros H. injection H as ->.
       destruct (parseDefs_Err _ _ _ Ep)
         as [[type [_ Hu]]|[k [g [i [param [_ [_ [Hu _]]]]]]]]; discriminate. }
  cbn [bind]. destruct (expandDefs typed _) as [twins|e'] eqn:Et.
  2: { cbn [bind]. intros H. injection H as ->.
       destruct (expandDefs_Err _ _ _ Et) as [type [_ Hu]]. discriminate. }
  cbn [bind]. destruct (mapM (fastTest typed _ 0) _) as [tests0|e'] eqn:E0.
  2: { cbn [bind]. intros H. injection H as ->.
       destruct (mapM_Err _ _ _ E0) as [k [_ Hk]].
       destruct (fastTest_Err _ _ _ _ _ Hk) as [type [_ Hu]]. discriminate. }
  cbn [bind]. destruct (mapM (fastTest typed _ 1) _) as [tests1|e'] eqn:E1.
  2: { cbn [bind]. intros H. injection H as ->.
       destruct (mapM_Err _ _ _ E1) as [k [_ Hk]].
       destruct (fastTest_Err _ _ _ _ _ Hk) as [type [_ Hu]]. discriminate. }
  cbn [bind]. destruct (storeSignatures _ _) as [store|e'] eqn:Es;
    [discriminate|].
  cbn [bind]. intros H. injection H as ->.
  assert (Horigin : forall def,
             In def (sortDefs (createTypesIndexMap (types typed)) parsed ++ twins) ->
             conversion def = false ->
             exists source g,
               In (source, g) sigs
               /\ Canon.normalize typed source = Some (signature def)).
  { intros def Hin Hc. apply in_app_iff in Hin as [Hin|Hin].
    - apply sortDefs_In in Hin.
      apply (parseDefs_In typed sigs parsed def Ep) in Hin as [[source g] [Hin He]].
      apply parseDef_Some in He as [Hn _]. eauto.
    - rewrite (expandDefs_conversion _ _ _ _ Et Hin) in Hc. discriminate. }
  destruct (storeSignatures_Err _ _ _ Es) as [def [Hd [Hc [He Hro]]]].
  injection He as ->. split; [exact Hro|]. split.
  - destruct (Horigin def Hd Hc) as [source [g [Hin Hn]]].
    exists source, g, (signature def). auto.
  - destruct (storeSignatures_Err_holder _ _ _ Es) as [[x Hx]|[holder [Hh [Hhc Hk]]]];
      [discriminate|].
    destruct (Horigin holder Hh Hhc) as [source [g [Hin Hn]]].
    exists source, g, (signature holder). auto.
Qed.

(** X26 at work: [{ " __proto__": f1, "name": f2 }] with the types
    [__proto__] and [name] registered.  Both keys parse and every type is
    registered, and the compiler throws. *)
Lemma createTypedFunction_read_only_witness :
  let typed := MoreExamples.protoNameRegistry in
  let sigs := [(" __proto__", 1%nat); ("name", 2%nat)] in
  createTypedFunction typed "f" sigs = Err (ReadOnlyProperty "name")
  /\ exists source g signature,
       In (source, g) sigs
       /\ Canon.normalize typed source = Some signature
       /\ stringifyParams signature = "__proto__".
Proof.
  cbv zeta. split; [vm_compute; reflexivity|].
  apply (createTypedFunction_read_only MoreExamples.protoNameRegistry "f"
           [(" __proto__", 1%nat); ("name", 2%nat)] "name").
  vm_compute. reflexivity.
Defined.


